(** * screw_data_loading: the record-to-tensor preprocessing pipeline

    A shallow embedding of [screw_data_loading/prep/*.py], of
    [screw_data_loading/load/from_directory.py], of the screw run classes of
    [screw_data_loading/json] and of [load_from_json] of
    [screw_data_loading/connect/to_directory.py].

    Conventions of the embedding:
    - Python [int] is [Z]; [len] returns a [Z].
    - Python [float] and the elements of numpy arrays are exact rationals
      ([Q]); they are compared with [Qeq]/[Qle] as numpy compares values.
      Rounding of binary64 arithmetic is not modelled; where a statement
      about the resampling grid is shown to fail, the input is dyadic, so
      that binary64 computes the same values.
    - A [dict] is an insertion-ordered association list with unique keys;
      the occurrence counter and the object store are [gmap]s.
    - Code that can raise returns a [result]; the exception classes are the
      ones CPython and numpy raise at that place. *)

From Stdlib Require Import ZArith QArith Qround Lqa Permutation Sorted.
From stdpp Require Import base option list gmap strings.

Local Open Scope string_scope.
Local Open Scope Z_scope.
Local Open Scope list_scope.

(** ** Exceptions and the error monad *)

Inductive exn : Type :=
  | IndexError
  | KeyError
  | ValueError
  | TypeError
  | StopIteration
  | ParameterValidationError.

Inductive result (A : Type) : Type :=
  | Ok (a : A)
  | Raise (e : exn).

Arguments Ok {A} a.
Arguments Raise {A} e.

#[global] Instance result_ret : MRet result := @Ok.
#[global] Instance result_bind : MBind result := λ A B f m,
  match m with
  | Ok a => f a
  | Raise e => Raise e
  end.
#[global] Instance result_fmap : FMap result := λ A B f m,
  match m with
  | Ok a => Ok (f a)
  | Raise e => Raise e
  end.

Definition is_Ok {A} (m : result A) : Prop := ∃ a, m = Ok a.

(** ** Python sequences *)

Module Py.

Definition len {A} (l : list A) : Z := Z.of_nat (length l).

(** [l[i]], negative indices counting from the end. *)
Definition index {A} (l : list A) (i : Z) : result A :=
  let j := if decide (i < 0) then i + len l else i in
  if decide (j < 0) then Raise IndexError
  else match l !! Z.to_nat j with
       | Some x => Ok x
       | None => Raise IndexError
       end.

(** The start or stop of a slice, clamped into [0, len l]. *)
Definition clamp {A} (l : list A) (i : Z) : nat :=
  let j := if decide (i < 0) then i + len l else i in
  Z.to_nat (Z.min (Z.max j 0) (len l)).

(** [l[:stop]] *)
Definition slice_to {A} (l : list A) (stop : Z) : list A :=
  take (clamp l stop) l.

(** [l[start:]] *)
Definition slice_from {A} (l : list A) (start : Z) : list A :=
  drop (clamp l start) l.

(** [l[i] = x] on a list object. *)
Definition setitem {A} (l : list A) (i : Z) (x : A) : result (list A) :=
  let j := if decide (i < 0) then i + len l else i in
  if decide (0 ≤ j < len l) then Ok (<[Z.to_nat j := x]> l)
  else Raise IndexError.

(** [a < b] on floats. *)
Definition float_lt (a b : Q) : bool := negb (Qle_bool b a).

(** [int(x)] of a float: truncation towards zero. *)
Definition int_of_float (x : Q) : Z := Z.quot (Qnum x) (Z.pos (Qden x)).

(** [l[i].append(x)] on a list of lists. *)
Definition append_at {A} (l : list (list A)) (i : Z) (x : A) : result (list (list A)) :=
  sub ← index l i;
  setitem l i (sub ++ [x]).

End Py.

(** A loop whose body can raise. *)
Fixpoint foldM {A S} (f : S → A → result S) (s : S) (l : list A) : result S :=
  match l with
  | [] => Ok s
  | x :: l' => s' ← f s x; foldM f s' l'
  end.

(** ** Python dictionaries, in insertion order *)

Abbreviation dict V := (list (string * V)).

Module Dict.

Fixpoint get {V} (k : string) (d : dict V) : option V :=
  match d with
  | [] => None
  | (k', v) :: d' => if decide (k' = k) then Some v else get k d'
  end.

(** [d[k] = v]: an existing key keeps its position, a new one goes last. *)
Fixpoint set {V} (k : string) (v : V) (d : dict V) : dict V :=
  match d with
  | [] => [(k, v)]
  | (k', v') :: d' =>
      if decide (k' = k) then (k, v) :: d' else (k', v') :: set k v d'
  end.

(** [d[k]] *)
Definition getitem {V} (k : string) (d : dict V) : result V :=
  match get k d with
  | Some v => Ok v
  | None => Raise KeyError
  end.

(** [next(iter(d.values()))] *)
Definition first_value {V} (d : dict V) : result V :=
  match d with
  | [] => Raise StopIteration
  | (_, v) :: _ => Ok v
  end.

(** [{k: f(v) for k, v in d.items()}] for a fallible [f]. *)
Definition map_values {V W} (f : V → result W) (d : dict V) : result (dict W) :=
  mapM (λ kv, w ← f kv.2; mret (kv.1, w)) d.

End Dict.

(** ** The numpy functions the pipeline calls *)

Module Np.

(** [np.pad(seq, (before, after), "constant", constant_values=v)];
    a negative width is rejected with [ValueError]. *)
Definition pad (seq : list Q) (before after : Z) (v : Q) : result (list Q) :=
  if decide (before < 0 ∨ after < 0) then Raise ValueError
  else Ok (replicate (Z.to_nat before) v ++ seq ++ replicate (Z.to_nat after) v).

(** [np.linspace(start, stop, num)] with the end point included. *)
Definition linspace (start stop : Q) (num : Z) : result (list Q) :=
  if decide (num < 0) then Raise ValueError
  else
    let n := Z.to_nat num in
    let step := if decide (1 < num) then ((stop - start) / inject_Z (num - 1))%Q else 0%Q in
    Ok (map (λ i : nat, (start + inject_Z (Z.of_nat i) * step)%Q) (seq 0 n)).

(** [a.min()] and [a.max()]; an empty array is rejected with [ValueError]. *)
Definition min2 (a b : Q) : Q := if Qle_bool a b then a else b.
Definition max2 (a b : Q) : Q := if Qle_bool a b then b else a.

Definition amin (a : list Q) : result Q :=
  match a with
  | [] => Raise ValueError
  | x :: a' => Ok (foldl min2 x a')
  end.

Definition amax (a : list Q) : result Q :=
  match a with
  | [] => Raise ValueError
  | x :: a' => Ok (foldl max2 x a')
  end.

(** [np.arange(start, stop, step)]: [ceil((stop - start) / step)] points
    [start + i * step]; a zero step is rejected. *)
Definition arange (start stop step : Q) : result (list Q) :=
  if Qeq_bool step 0 then Raise ValueError
  else
    let n := Z.to_nat (Qceiling ((stop - start) / step)) in
    Ok (map (λ i : nat, (start + inject_Z (Z.of_nat i) * step)%Q) (seq 0 n)).

(** [np.unique(a, return_index=True)], as numpy computes it: a stable
    argsort, then a mask that keeps the first element of every run of equal
    values; the values and their positions in [a] are returned. *)
Fixpoint insert_stable (p : Q * nat) (l : list (Q * nat)) : list (Q * nat) :=
  match l with
  | [] => [p]
  | q :: l' => if Qle_bool p.1 q.1 then p :: q :: l' else q :: insert_stable p l'
  end.

Definition argsort_stable (a : list Q) : list (Q * nat) :=
  foldr insert_stable [] (zip a (seq 0 (length a))).

Fixpoint drop_repeats (prev : Q) (l : list (Q * nat)) : list (Q * nat) :=
  match l with
  | [] => []
  | p :: l' =>
      if Qeq_bool p.1 prev then drop_repeats prev l' else p :: drop_repeats p.1 l'
  end.

Definition mask_first (l : list (Q * nat)) : list (Q * nat) :=
  match l with
  | [] => []
  | p :: l' => p :: drop_repeats p.1 l'
  end.

Definition unique (a : list Q) : list Q * list nat :=
  let kept := mask_first (argsort_stable a) in
  (kept.*1, kept.*2).

(** [a[idx]] for an index array; an index past the end raises [IndexError]. *)
Definition take_indices (a : list Q) (idx : list nat) : result (list Q) :=
  mapM (λ i, match a !! i with Some x => Ok x | None => Raise IndexError end) idx.

(** [np.interp(x, xp, fp)]: piecewise linear through the points
    [(xp, fp)], constant outside them. *)
Fixpoint interp_point (pts : list (Q * Q)) (x : Q) : Q :=
  match pts with
  | [] => 0
  | (x0, y0) :: rest =>
      match rest with
      | [] => y0
      | (x1, y1) :: _ =>
          if Qle_bool x x0 then y0
          else if Qle_bool x1 x then interp_point rest x
          else (y0 + (y1 - y0) / (x1 - x0) * (x - x0))%Q
      end
  end.

Definition interp (x xp fp : list Q) : result (list Q) :=
  if decide (length xp ≠ length fp) then Raise ValueError
  else if decide (xp = []) then Raise ValueError
  else Ok (interp_point (zip xp fp) <$> x).

End Np.

(** ** prep/truncating.py *)

Definition truncate_sequence {A} (seq : list A) (target_length : Z)
    (cutoff_position : string) : list A :=
  if decide (cutoff_position = "pre") then Py.slice_from seq (- target_length)
  else Py.slice_to seq target_length.

Definition apply_truncating (cycle_values : dict (list Q)) (target_length : Z)
    (cutoff_position : string) : result (dict (list Q) * Z * Z) :=
  first ← Dict.first_value cycle_values;
  let initial_length := Py.len first in
  let truncated_sequences :=
    (λ kv : string * list Q, (kv.1, truncate_sequence kv.2 target_length cutoff_position))
      <$> cycle_values in
  first' ← Dict.first_value truncated_sequences;
  let final_length := Py.len first' in
  mret (truncated_sequences, initial_length, final_length).

(** ** prep/padding.py *)

Definition pad_sequence (seq : list Q) (target_length : Z) (padding_val : Q)
    (padding_pos : string) : result (list Q) :=
  let pad_len := target_length - Py.len seq in
  if decide (padding_pos = "pre") then Np.pad seq pad_len 0 padding_val
  else Np.pad seq 0 pad_len padding_val.

(** The sampling interval written as a literal in padding.py and as the
    default of apply_equidistancing. *)
Definition interval_0012 : Q := 12 # 10000.

Definition apply_padding (cycle_values : dict (list Q)) (padding_val : Q)
    (padding_pos : string) (target_length : Z) : result (dict (list Q) * Z * Z) :=
  first ← Dict.first_value cycle_values;
  let initial_length := Py.len first in
  padded_sequences ←
    Dict.map_values (λ v, pad_sequence v target_length padding_val padding_pos)
      cycle_values;
  time ← Np.linspace 0 (inject_Z (target_length - 1) * interval_0012) target_length;
  let padded_sequences := Dict.set "time" time padded_sequences in
  first' ← Dict.first_value padded_sequences;
  let final_length := Py.len first' in
  mret (padded_sequences, initial_length, final_length).

(** ** prep/equidistancing.py *)

Definition apply_equidistancing (cycle_values : dict (list Q))
    (interval_length : Q) : result (dict (list Q) * Z * Z) :=
  time_values ← Dict.getitem "time" cycle_values;
  let initial_length := Py.len time_values in
  let '(unique_times, unique_indices) := Np.unique time_values in
  tmin ← Np.amin unique_times;
  tmax ← Np.amax unique_times;
  full_time_range ← Np.arange tmin (tmax + interval_length)%Q interval_length;
  mean_values_dict ←
    Dict.map_values (λ values, Np.take_indices values unique_indices)
      (filter (λ kv, kv.1 ≠ "time") cycle_values);
  equidistant_cycle_values ←
    Dict.map_values (λ mean_values, Np.interp full_time_range unique_times mean_values)
      mean_values_dict;
  let equidistant_cycle_values :=
    Dict.set "time" full_time_range equidistant_cycle_values in
  let final_length := Py.len full_time_range in
  mret (equidistant_cycle_values, initial_length, final_length).

(** ** prep/validating.py: the cycle selector *)

Inductive selector : Type :=
  | SelStr (s : string)
  | SelInt (n : Z)
  | SelList (l : list Z).

Definition valid_cycles : list Z := Z.of_nat <$> seq 1 50.

Definition check_and_update_cycles (tightening_cycles : selector) : result (list Z) :=
  match tightening_cycles with
  | SelStr s =>
      if decide (s = "all") then Ok valid_cycles else Raise ParameterValidationError
  | SelInt n =>
      if decide (n ∈ valid_cycles) then Ok [n] else Raise ParameterValidationError
  | SelList l =>
      if decide (Forall (λ item, item ∈ valid_cycles) l) then Ok l
      else Raise ParameterValidationError
  end.

(** ** load/from_directory.py: the loading loop *)

(** One entry of ["tightening steps"]; [graph] is absent when the step has
    no ["graph"] key. The graph maps ["time values"], ["torque values"], ...
    to the measured sequences. *)
Record step : Type := {
  graph : option (dict (list Q))
}.

(** What [get_dict_from_json] returns for one file, seen through
    [file.get("id code")], [file.get("result")] and
    [file.get("tightening steps")]. *)
Record file : Type := {
  file_id : option string;
  file_label : option string;
  file_steps : option (list step)
}.

(** [tightening_cycles] as the loop sees it: the validated list, or a string
    when [from_directory] is called without the validator. *)
Inductive cycles : Type :=
  | CyclesList (l : list Z)
  | CyclesStr (s : string).

(** An element of [return_values]: a channel sequence or a label. *)
Inductive item : Type :=
  | Series (values : list Q)
  | Label (label : string).

Record config : Type := {
  tightening_steps : list Z;
  tightening_cycles : cycles;
  tightening_values : list string;
  equidistancing_enabled : bool;
  target_length : option Z;
  cutoff_position : option string;
  padding_value : option Q;
  padding_position : option string
}.

Record loop_state : Type := {
  all_cycle_counts : gmap string Z;
  return_values : list (list item);
  equidistancing_logs : list (Z * Z);
  truncating_logs : list (Z * Z);
  padding_logs : list (Z * Z)
}.

Definition initial_state (cfg : config) : loop_state := {|
  all_cycle_counts := ∅;
  return_values := replicate (S (length (tightening_values cfg))) [];
  equidistancing_logs := [];
  truncating_logs := [];
  padding_logs := []
|}.

(** [all_cycle_counts[file_id] in tightening_cycles or tightening_cycles == "all"];
    an [int in str] test raises [TypeError] before the comparison is reached. *)
Definition cycle_selected (count : Z) (tc : cycles) : result bool :=
  match tc with
  | CyclesList l => Ok (bool_decide (count ∈ l) || false)
  | CyclesStr _ => Raise TypeError
  end.

(** [[file_steps[step_idx - 1] for step_idx in tightening_steps
      if step_idx <= len(file_steps)]] *)
Definition selected_steps (fsteps : list step) (tsteps : list Z) : result (list step) :=
  mapM (λ step_idx, Py.index fsteps (step_idx - 1))
    (filter (λ step_idx, step_idx ≤ Py.len fsteps) tsteps).

(** The inner loop over [tightening_values] for one step. *)
Definition add_step_values (tvalues : list string) (all_cycle_values : dict (list Q))
    (st : step) : result (dict (list Q)) :=
  foldM (λ acv value,
      old ← Dict.getitem value acv;
      g ← match graph st with Some g => Ok g | None => Raise KeyError end;
      let new := default [] (Dict.get (String.append value " values") g) in
      mret (Dict.set value (old ++ new) acv))
    all_cycle_values tvalues.

(** [{k: [] for k in tightening_values}] *)
Definition empty_cycle_values (tvalues : list string) : dict (list Q) :=
  foldl (λ d k, Dict.set k [] d) [] tvalues.

(** The body of the [if] that retains a record: extraction, the optional
    preprocessing steps, and the appends to [return_values]. *)
Definition retain_record (cfg : config) (st : loop_state) (flabel : string)
    (fsteps : list step) : result loop_state :=
  steps ← selected_steps fsteps (tightening_steps cfg);
  acv ← foldM (add_step_values (tightening_values cfg))
          (empty_cycle_values (tightening_values cfg)) steps;
  '(acv, elogs) ←
    (if equidistancing_enabled cfg then
       '(acv', initial_length, final_length) ← apply_equidistancing acv interval_0012;
       mret (acv', equidistancing_logs st ++ [(initial_length, final_length)])
     else mret (acv, equidistancing_logs st));
  '(acv, tlogs) ←
    match target_length cfg, cutoff_position cfg with
    | Some tl, Some pos =>
        '(acv', initial_length, final_length) ← apply_truncating acv tl pos;
        mret (acv', truncating_logs st ++ [(initial_length, final_length)])
    | _, _ => mret (acv, truncating_logs st)
    end;
  '(acv, plogs) ←
    match padding_value cfg, padding_position cfg with
    | Some v, Some pos =>
        match target_length cfg with
        | Some tl =>
            '(acv', initial_length, final_length) ← apply_padding acv v pos tl;
            mret (acv', padding_logs st ++ [(initial_length, final_length)])
        | None =>
            (* [None - len(seq)] in pad_sequence *)
            _ ← Dict.first_value acv; Raise TypeError
        end
    | _, _ => mret (acv, padding_logs st)
    end;
  rv ← foldM (λ rv iv,
          values ← Dict.getitem iv.2 acv;
          Py.append_at rv (Z.of_nat iv.1) (Series values))
        (return_values st) (imap (λ i value, (i, value)) (tightening_values cfg));
  rv ← Py.append_at rv (-1) (Label flabel);
  mret {| all_cycle_counts := all_cycle_counts st;
          return_values := rv;
          equidistancing_logs := elogs;
          truncating_logs := tlogs;
          padding_logs := plogs |}.

(** One iteration of the loop over the files of the directory. *)
Definition process_file (cfg : config) (st : loop_state) (f : file) : result loop_state :=
  match file_id f, file_label f, file_steps f with
  | Some fid, Some flabel, Some fsteps =>
      let count := default 0 (all_cycle_counts st !! fid) + 1 in
      let st := {| all_cycle_counts := <[fid := count]> (all_cycle_counts st);
                   return_values := return_values st;
                   equidistancing_logs := equidistancing_logs st;
                   truncating_logs := truncating_logs st;
                   padding_logs := padding_logs st |} in
      selected ← cycle_selected count (tightening_cycles cfg);
      if selected : bool then retain_record cfg st flabel fsteps else mret st
  | _, _, _ => mret st
  end.

(** [return_values] and the counters after the loop over [files]. *)
Definition load_files (cfg : config) (files : list file) : result loop_state :=
  foldM (process_file cfg) (initial_state cfg) files.

(** ** prep/splitting.py *)

Inductive split_result (A : Type) : Type :=
  | TrainTest (x_train x_test : list (list A)) (y_train y_test : list A)
  | Whole (x_values : list (list A)) (y_values : list A).

Arguments TrainTest {A} x_train x_test y_train y_test.
Arguments Whole {A} x_values y_values.

Section Splitting.

(** The element type of the buffers, and [tolist], which [flatten] applies
    to the elements that are numpy arrays. *)
Context {A : Type}.
Variable tolist : A → A.

(** The module-level generator of [random]: its state, [random.seed(a)] and
    [Random._randbelow(n)], which returns a number below [n] and the next
    state. *)
Variable rng : Type.
Variable random_seed : Z → rng.
Variable randbelow : nat → rng → nat * rng.

(** [x[i], x[j] = x[j], x[i]] *)
Definition swap (x : list nat) (i j : nat) : result (list nat) :=
  match x !! j, x !! i with
  | Some xj, Some xi => Ok (<[j := xi]> (<[i := xj]> x))
  | _, _ => Raise IndexError
  end.

(** [random.shuffle(x)]: for [i] from [len(x) - 1] down to 1, swap [x[i]]
    with [x[randbelow(i + 1)]]. *)
Fixpoint shuffle_from (i : nat) (x : list nat) (g : rng) : result (list nat) * rng :=
  match i with
  | O => (Ok x, g)
  | S i' =>
      let '(j, g') := randbelow (S i) g in
      match swap x i j with
      | Ok x' => shuffle_from i' x' g'
      | Raise e => (Raise e, g')
      end
  end.

Definition shuffle (x : list nat) (g : rng) : result (list nat) * rng :=
  shuffle_from (length x - 1) x g.

Definition flatten (data : list (list A)) : list (list A) :=
  (λ sublist : list A, tolist <$> sublist) <$> data.

(** [[values[i] for i in indices]] *)
Definition pick (indices : list nat) (values : list A) : result (list A) :=
  mapM (λ i, match values !! i with Some v => Ok v | None => Raise IndexError end)
    indices.

(** The part of apply_split after the shuffle of the indices. *)
Definition split_shuffled (data : list (list A)) (data_length : nat)
    (indices : list nat) (split_ratio : option Q) : result (split_result A) :=
  shuffled_data ← mapM (pick indices) data;
  let flattened_data := flatten shuffled_data in
  let whole : result (split_result A) :=
    y_values ← Py.index flattened_data (-1);
    mret (Whole (Py.slice_to flattened_data (-1)) y_values) in
  match split_ratio with
  | Some r =>
      if Py.float_lt 0 r && Py.float_lt r 1 then
        let split_index := Py.int_of_float (inject_Z (Z.of_nat data_length) * r) in
        let training_data := (λ values : list A, Py.slice_to values split_index) <$> flattened_data in
        let testing_data := (λ values : list A, Py.slice_from values split_index) <$> flattened_data in
        y_train ← Py.index training_data (-1);
        y_test ← Py.index testing_data (-1);
        mret (TrainTest (Py.slice_to training_data (-1)) (Py.slice_to testing_data (-1))
                y_train y_test)
      else whole
  | None => whole
  end.

(** [if split_seed is not None: random.seed(split_seed)] *)
Definition seed_generator (split_seed : option Z) (g : rng) : rng :=
  match split_seed with
  | Some s => random_seed s
  | None => g
  end.

(** [indices = list(range(data_length)); random.shuffle(indices)], after the
    seeding. *)
Definition shuffled_indices (data_length : nat) (split_seed : option Z) (g : rng)
    : result (list nat) * rng :=
  shuffle (seq 0 data_length) (seed_generator split_seed g).

(** [apply_split(data, split_ratio, split_seed)], run in generator state [g];
    the state the call leaves behind is returned with the result. *)
Definition apply_split (data : list (list A)) (split_ratio : option Q)
    (split_seed : option Z) (g : rng) : result (split_result A) * rng :=
  match Py.index data 0 with
  | Raise e => (Raise e, seed_generator split_seed g)
  | Ok data0 =>
      let data_length := length data0 in
      match shuffled_indices data_length split_seed g with
      | (Ok indices, g') => (split_shuffled data data_length indices split_ratio, g')
      | (Raise e, g') => (Raise e, g')
      end
  end.

End Splitting.

(** A small linear congruential generator on which the model can be run;
    CPython's own generator is the Mersenne Twister. *)
Definition lcg_seed (a : Z) : Z := a mod 2147483648.

Definition lcg_randbelow (n : nat) (g : Z) : nat * Z :=
  let g' := (g * 1103515245 + 12345) mod 2147483648 in
  (Z.to_nat ((g' / 65536) mod Z.of_nat n), g').

(** ** prep/converting.py *)

(** The objects [apply_conversion] handles. *)
#[warnings="-register-all"]
Inductive value : Type :=
  | VStr (s : string)
  | VInt (n : Z)
  | VFloat (q : Q)
  | VList (items : list value).

(** [[1 if x == "NOK" else 0 for x in data]] *)
Definition binary_of (x : value) : value :=
  match x with
  | VStr s => if decide (s = "NOK") then VInt 1 else VInt 0
  | _ => VInt 0
  end.

Definition convert_to_binary (data : value) : result value :=
  match data with
  | VList items => Ok (VList (binary_of <$> items))
  | VStr s => Ok (VList (replicate (String.length s) (VInt 0)))
  | VInt _ | VFloat _ => Raise TypeError
  end.

(** The argument [data]: a list object, which lives in the store and can be
    assigned to, or a tuple, which cannot. *)
Definition loc : Type := positive.

Inductive container : Type :=
  | ListObj (l : loc)
  | TupleObj (items : list value).

Section Converting.

(** [np.array(d)] *)
Variable np_array : value → result value.

Definition contents (σ : gmap loc (list value)) (data : container) : list value :=
  match data with
  | ListObj l => default [] (σ !! l)
  | TupleObj items => items
  end.

(** [data[i] = convert_to_binary(data[i])] *)
Definition binarize_at (data : container) (i : Z) (σ : gmap loc (list value))
    : result unit * gmap loc (list value) :=
  match (x ← Py.index (contents σ data) i; convert_to_binary x) with
  | Raise e => (Raise e, σ)
  | Ok b =>
      match data with
      | TupleObj _ => (Raise TypeError, σ)
      | ListObj l =>
          match Py.setitem (contents σ data) i b with
          | Ok items' => (Ok (), <[l := items']> σ)
          | Raise e => (Raise e, σ)
          end
      end
  end.

(** The first [if]: "Apply result format conversion". *)
Definition apply_result_format (data : container) (result_format : string)
    (σ : gmap loc (list value)) : result unit * gmap loc (list value) :=
  if decide (result_format = "binary") then
    if decide (Py.len (contents σ data) = 4) then
      match binarize_at data 2 σ with
      | (Ok _, σ') => binarize_at data 3 σ'
      | (Raise e, σ') => (Raise e, σ')
      end
    else binarize_at data 1 σ
  else if decide (result_format ≠ "raw") then (Raise ValueError, σ)
  else (Ok (), σ).

(** The second [if]: "Apply return format conversion". The list built for
    ["numpy_array"] is a new object. *)
Definition apply_return_format (data : container) (return_format : string)
    (σ : gmap loc (list value)) : result container * gmap loc (list value) :=
  if decide (return_format = "numpy_array") then
    match mapM np_array (contents σ data) with
    | Ok arrays => let l' := fresh (dom σ) in (Ok (ListObj l'), <[l' := arrays]> σ)
    | Raise e => (Raise e, σ)
    end
  else if decide (return_format = "nested_list") then (Ok data, σ)
  else (Raise ValueError, σ).

(** [apply_conversion(data, result_format, return_format)] in store [σ]:
    the returned object (or the exception) and the store afterwards. *)
Definition apply_conversion (data : container) (result_format return_format : string)
    (σ : gmap loc (list value)) : result container * gmap loc (list value) :=
  match apply_result_format data result_format σ with
  | (Ok _, σ') => apply_return_format data return_format σ'
  | (Raise e, σ') => (Raise e, σ')
  end.

End Converting.

(** ** Vocabulary of the statements *)

(** The order in which the stable argsort leaves (value, position) pairs. *)
Definition key_lt (p q : Q * nat) : Prop :=
  (p.1 < q.1)%Q ∨ ((p.1 == q.1)%Q ∧ (p.2 < q.2)%nat).

Definition fst_lt (p q : Q * nat) : Prop := (p.1 < q.1)%Q.

(** Position [i] holds the first occurrence of its value in [a]. *)
Definition first_occurrence (a : list Q) (i : nat) : Prop :=
  ∃ x, a !! i = Some x ∧ ∀ j y, a !! j = Some y → (y == x)%Q → (i ≤ j)%nat.


(** A record whose only step has a torque channel shorter than its time
    channel, and a configuration that resamples it. *)
Definition ragged_file : file := {|
  file_id := Some "A";
  file_label := Some "OK";
  file_steps := Some [ {| graph := Some [("time values", [0; 1 # 1000; 2 # 1000]%Q);
                                         ("torque values", [10; 20]%Q)] |} ]
|}.

Definition resampling_config : config := {|
  tightening_steps := [1; 2; 3; 4];
  tightening_cycles := CyclesList valid_cycles;
  tightening_values := ["time"; "torque"];
  equidistancing_enabled := true;
  target_length := None;
  cutoff_position := None;
  padding_value := None;
  padding_position := None
|}.

(** A record that is not skipped: all three keys are present. *)
Definition bears (fid : string) (f : file) : bool :=
  match file_id f, file_label f, file_steps f with
  | Some fid', Some _, Some _ => bool_decide (fid' = fid)
  | _, _, _ => false
  end.

(** How many of [seen] are records bearing [fid] that were not skipped. *)
Definition occurrences (fid : string) (seen : list file) : Z :=
  Py.len (filter (λ f, bears fid f = true) seen).

(** The labels of the records of [rest] that are not skipped and whose
    occurrence number, counted over [seen] and the record itself, is in
    [sel]. *)
Fixpoint retained_from (sel : list Z) (seen rest : list file) : list string :=
  match rest with
  | [] => []
  | f :: rest' =>
      match file_id f, file_label f, file_steps f with
      | Some fid, Some flabel, Some _ =>
          if decide (occurrences fid (seen ++ [f]) ∈ sel) then [flabel] else []
      | _, _, _ => []
      end ++ retained_from sel (seen ++ [f]) rest'
  end.

(** The cycle the specification assigns to the k-th occurrence. *)
Definition spec_cycle (k : Z) : Z := (k + 1) / 2.

Definition six_files : list file :=
  (λ l, {| file_id := Some "A"; file_label := Some l; file_steps := Some [] |})
    <$> ["L1"; "L2"; "L3"; "L4"; "L5"; "L6"].

Definition three_cycles_config : config := {|
  tightening_steps := [1; 2; 3; 4];
  tightening_cycles := CyclesList [1; 2; 3];
  tightening_values := ["time"; "torque"];
  equidistancing_enabled := false;
  target_length := None;
  cutoff_position := None;
  padding_value := None;
  padding_position := None
|}.

(** The state of the loop after the records [seen]. *)
Definition loop_invariant (cfg : config) (sel : list Z) (seen : list file)
    (st : loop_state) : Prop :=
  length (return_values st) = S (length (tightening_values cfg)) ∧
  (∀ fid, default 0 (all_cycle_counts st !! fid) = occurrences fid seen) ∧
  last (return_values st) = Some (Label <$> retained_from sel [] seen).

(** The buffers of a split result, train and test parts joined again. *)
Definition rejoin {A} (out : split_result A) : list (list A) :=
  match out with
  | TrainTest x_train x_test y_train y_test =>
      zip_with app (x_train ++ [y_train]) (x_test ++ [y_test])
  | Whole x_values y_values => x_values ++ [y_values]
  end.

(** [values] read at the positions [indices], each element passed through
    [tolist]. *)
Definition permute {A} (tolist : A → A) (indices : list nat) (values : list A) : list A :=
  omap (λ i, tolist <$> values !! i) indices.

(** The transposition of [i] and [j]. *)
Definition transpose (i j k : nat) : nat :=
  if decide (k = i) then j else if decide (k = j) then i else k.

(** The buffer of the unit test of apply_split. *)
Definition sample_buffer : list (list Z) :=
  [[1; 2; 3; 4; 5]; [6; 7; 8; 9; 10]; [10; 20; 30; 40; 50]].

(** A store holding one [[x_values, y_values]] list. *)
Definition labelled_store : gmap loc (list value) :=
  {[ 1%positive := [VList [VList [VFloat 1]; VList [VFloat 2]];
                    VList [VStr "OK"; VStr "NOK"]] ]}.

(** A time channel in which the value 1 occurs twice, and what
    apply_equidistancing returns for it, a torque channel 10, 20, 30, 40 and
    the interval 1/2. *)
Definition duplicate_times : list Q := [0; 1; 1; 3 # 4]%Q.

Definition resampled_duplicates : dict (list Q) :=
  [("torque", [10; 180 # 6; 20]%Q); ("time", [0 # 2; 1 # 2; 2 # 2]%Q)].

(** ** load/from_directory.py: after the loop *)

(** The buffers as the objects apply_conversion handles: a series is a list
    of floats, a label a string, a buffer the list of its entries. *)
Definition value_of_item (x : item) : value :=
  match x with
  | Series values => VList (VFloat <$> values)
  | Label label => VStr label
  end.

Definition value_of_buffer (buf : list item) : value := VList (value_of_item <$> buf).

(** The tuple apply_split returns. *)
Definition tuple_of_split (out : split_result item) : list value :=
  match out with
  | TrainTest x_train x_test y_train y_test =>
      [VList (value_of_buffer <$> x_train); VList (value_of_buffer <$> x_test);
       value_of_buffer y_train; value_of_buffer y_test]
  | Whole x_values y_values =>
      [VList (value_of_buffer <$> x_values); value_of_buffer y_values]
  end.

(** [x[0]] and [len(x)] *)
Definition first_item (x : value) : result value :=
  match x with
  | VList items => Py.index items 0
  | VStr s =>
      match s with
      | EmptyString => Raise IndexError
      | String c _ => Ok (VStr (String c EmptyString))
      end
  | VInt _ | VFloat _ => Raise TypeError
  end.

Definition sized (x : value) : result Z :=
  match x with
  | VList items => Ok (Py.len items)
  | VStr s => Ok (Z.of_nat (String.length s))
  | VInt _ | VFloat _ => Raise TypeError
  end.

(** [log_metrics] writes to the logger and returns nothing; the model keeps
    what can raise when from_directory calls it. The averages are guarded
    by [if logs:]; the label counts are taken of the label lists and the
    shapes of the arrays apply_conversion has built; what is left is the
    line that reports, for a tuple of four, [len(x_train[0])] and
    [len(x_test[0])]. *)
Definition log_metrics (equidistancing_logs truncating_logs padding_logs : list (Z * Z))
    (return_values : container) (result_format return_format : string) : result unit :=
  match return_values with
  | TupleObj [x_train; x_test; y_train; y_test] =>
      first ← first_item x_train;
      _ ← sized first;
      first ← first_item x_test;
      _ ← sized first;
      mret ()
  | _ => mret ()
  end.

Section Loading.

(** The generator of [random] and [np.array], as in the sections above. *)
Variable rng : Type.
Variable random_seed : Z → rng.
Variable randbelow : nat → rng → nat * rng.
Variable np_array : value → result value.

(** [from_directory(source_path, ...)], where [files] is what
    [get_dict_from_json] returns for the entries of [os.listdir(source_path)],
    and [cfg] holds the parameters the loop reads. The call runs in generator
    state [g] and store [σ]; both are returned with the result. [flatten]
    turns arrays into lists, which the model does not tell apart. *)
Definition from_directory (files : list file) (cfg : config)
    (split_ratio : option Q) (split_seed : option Z)
    (return_format result_format : string) (logging_enabled : bool)
    (g : rng) (σ : gmap loc (list value))
    : result container * rng * gmap loc (list value) :=
  match load_files cfg files with
  | Raise e => (Raise e, g, σ)
  | Ok st =>
      match apply_split (λ array : item, array) rng random_seed randbelow
              (return_values st) split_ratio split_seed g with
      | (Raise e, g') => (Raise e, g', σ)
      | (Ok out, g') =>
          match apply_conversion np_array (TupleObj (tuple_of_split out))
                  result_format return_format σ with
          | (Raise e, σ') => (Raise e, g', σ')
          | (Ok return_values, σ') =>
              if logging_enabled then
                match log_metrics (equidistancing_logs st) (truncating_logs st)
                        (padding_logs st) return_values result_format return_format with
                | Ok _ => (Ok return_values, g', σ')
                | Raise e => (Raise e, g', σ')
                end
              else (Ok return_values, g', σ')
          end
      end
  end.

End Loading.

(** ** prep/validating.py *)

(** The values a keyword argument can hold. *)
#[warnings="-register-all"]
Inductive pyobj : Type :=
  | PNone
  | PBool (b : bool)
  | PInt (n : Z)
  | PFloat (x : Q)
  | PStr (s : string)
  | PList (items : list pyobj).

Module Validating.

Definition ALL : string := "all".

(** [x == s] for a string [s]. *)
Definition eq_str (x : pyobj) (s : string) : bool :=
  match x with
  | PStr s' => bool_decide (s' = s)
  | _ => false
  end.

(** [x == n] for an integer [n]: [bool] is a subclass of [int], and a float
    is compared by value. *)
Definition eq_int (x : pyobj) (n : Z) : bool :=
  match x with
  | PInt m => bool_decide (m = n)
  | PBool b => bool_decide (Z.b2z b = n)
  | PFloat q => Qeq_bool q (inject_Z n)
  | _ => false
  end.

(** [isinstance(x, int)], [isinstance(x, str)], [isinstance(x, (int, float))] *)
Definition isinstance_int (x : pyobj) : bool :=
  match x with
  | PInt _ | PBool _ => true
  | _ => false
  end.

Definition isinstance_str (x : pyobj) : bool :=
  match x with
  | PStr _ => true
  | _ => false
  end.

Definition isinstance_numeric (x : pyobj) : bool :=
  match x with
  | PInt _ | PBool _ | PFloat _ => true
  | _ => false
  end.

(** The integer an instance of [int] stands for. *)
Definition int_value (x : pyobj) : Z :=
  match x with
  | PInt n => n
  | PBool b => Z.b2z b
  | _ => 0
  end.

(** The truth value of an object. *)
Definition truthy (x : pyobj) : bool :=
  match x with
  | PNone => false
  | PBool b => b
  | PInt n => negb (bool_decide (n = 0))
  | PFloat q => negb (Qeq_bool q 0)
  | PStr s => negb (bool_decide (s = ""))
  | PList items => negb (bool_decide (items = []))
  end.

(** [s in c] for a string [s]: membership in a list, substring of a string;
    the other objects are not iterable. *)
Definition contains (c : pyobj) (s : string) : result bool :=
  match c with
  | PList items => Ok (existsb (λ x, eq_str x s) items)
  | PStr s' => Ok (bool_decide (is_Some (String.index 0 s s')))
  | _ => Raise TypeError
  end.

(** [handle_error(message)] logs the message and raises. *)
Definition handle_error {A} : result A := Raise ParameterValidationError.

Definition valid_steps : list Z := Z.of_nat <$> seq 1 4.
Definition valid_values : list string := ["time"; "torque"; "angle"; "gradient"].

Definition check_and_update_steps (tightening_steps : pyobj) : result pyobj :=
  if eq_str tightening_steps ALL then Ok (PList (PInt <$> valid_steps))
  else if isinstance_int tightening_steps then
    if negb (existsb (eq_int tightening_steps) valid_steps) then handle_error
    else Ok (PList [tightening_steps])
  else match tightening_steps with
       | PList items =>
           if negb (forallb isinstance_int items)
              || negb (forallb (λ item, existsb (eq_int item) valid_steps) items)
           then handle_error
           else Ok tightening_steps
       | _ => handle_error
       end.

Definition check_and_update_cycles (tightening_cycles : pyobj) : result pyobj :=
  if eq_str tightening_cycles ALL then Ok (PList (PInt <$> valid_cycles))
  else if isinstance_int tightening_cycles then
    if negb (existsb (eq_int tightening_cycles) valid_cycles) then handle_error
    else Ok (PList [tightening_cycles])
  else match tightening_cycles with
       | PList items =>
           if negb (forallb isinstance_int items)
              || negb (forallb (λ item, existsb (eq_int item) valid_cycles) items)
           then handle_error
           else Ok tightening_cycles
       | _ => handle_error
       end.

Definition check_and_update_values (tightening_values : pyobj) : result pyobj :=
  if eq_str tightening_values ALL then Ok (PList (PStr <$> valid_values))
  else if isinstance_str tightening_values then
    if negb (existsb (eq_str tightening_values) valid_values) then handle_error
    else Ok (PList [tightening_values])
  else match tightening_values with
       | PList items =>
           if negb (forallb isinstance_str items)
              || negb (forallb (λ item, existsb (eq_str item) valid_values) items)
           then handle_error
           else Ok tightening_values
       | _ => handle_error
       end.

Definition check_equidistancing (equidistancing_enabled tightening_values : pyobj)
    : result unit :=
  if truthy equidistancing_enabled then
    has_time ← contains tightening_values "time";
    if negb has_time && negb (eq_str tightening_values ALL) then handle_error
    else Ok ()
  else Ok ().

Definition check_boolean_param (param : pyobj) (param_name : string) : result unit :=
  match param with
  | PBool _ => Ok ()
  | _ => handle_error
  end.

Definition check_positive_integer (param : pyobj) (param_name : string) : result unit :=
  match param with
  | PNone => Ok ()
  | _ =>
      if negb (isinstance_int param) || bool_decide (int_value param ≤ 0) then handle_error
      else Ok ()
  end.

Definition check_choice_param (param : pyobj) (param_name : string)
    (valid_choices : list string) : result unit :=
  match param with
  | PNone => Ok ()
  | _ => if negb (existsb (eq_str param) valid_choices) then handle_error else Ok ()
  end.

Definition check_numeric_param (param : pyobj) (param_name : string) : result unit :=
  match param with
  | PNone => Ok ()
  | _ => if negb (isinstance_numeric param) then handle_error else Ok ()
  end.

Definition check_split_ratio (split_ratio : pyobj) : result unit :=
  match split_ratio with
  | PNone => Ok ()
  | PFloat r =>
      if negb (Py.float_lt 0 r && Py.float_lt r 1) then handle_error else Ok ()
  | _ => handle_error
  end.

Definition check_integer_param (param : pyobj) (param_name : string) : result unit :=
  match param with
  | PNone => Ok ()
  | _ => if negb (isinstance_int param) then handle_error else Ok ()
  end.

(** [params.get(key)] and [params.get(key, default)] *)
Definition get (key : string) (params : dict pyobj) : pyobj :=
  default PNone (Dict.get key params).

Definition get_or (key : string) (dflt : pyobj) (params : dict pyobj) : pyobj :=
  default dflt (Dict.get key params).

Section Validate.

(** [os.path.exists]; it raises [TypeError] on an object that is no path. *)
Variable os_path_exists : pyobj → result bool.

Definition check_source_path (source_path : pyobj) : result unit :=
  match source_path with
  | PNone => handle_error
  | _ =>
      found ← os_path_exists source_path;
      if negb found then handle_error else Ok ()
  end.

(** The dictionary is updated in place; the model returns it. *)
Definition validate_and_update_params (params : dict pyobj) : result (dict pyobj) :=
  _ ← check_source_path (get "source_path" params);
  steps ← check_and_update_steps (get_or "tightening_steps" (PStr ALL) params);
  let params := Dict.set "tightening_steps" steps params in
  cycles ← check_and_update_cycles (get_or "tightening_cycles" (PStr ALL) params);
  let params := Dict.set "tightening_cycles" cycles params in
  values ← check_and_update_values (get_or "tightening_values" (PStr ALL) params);
  let params := Dict.set "tightening_values" values params in
  _ ← check_boolean_param (get_or "equidistancing_enabled" (PBool false) params)
        "equidistancing_enabled";
  _ ← check_equidistancing (get_or "equidistancing_enabled" (PBool false) params)
        (get "tightening_values" params);
  _ ← check_positive_integer (get "target_length" params) "target_length";
  _ ← check_choice_param (get "cutoff_position" params) "cutoff_position" ["pre"; "post"];
  _ ← check_numeric_param (get "padding_value" params) "padding_value";
  _ ← check_choice_param (get "padding_position" params) "padding_position" ["pre"; "post"];
  _ ← check_split_ratio (get "split_ratio" params);
  _ ← check_integer_param (get "split_seed" params) "split_seed";
  _ ← check_choice_param (get "return_format" params) "return_format"
        ["nested_list"; "numpy_array"];
  _ ← check_choice_param (get "result_format" params) "result_format" ["binary"; "raw"];
  _ ← check_boolean_param (get_or "logging_enabled" (PBool true) params) "logging_enabled";
  _ ← check_boolean_param (get_or "verbose" (PBool true) params) "verbose";
  mret params.

End Validate.

End Validating.

(** ** json/screw_step.py, json/screw_run.py *)

(** [s.endswith(suffix)] *)
Definition endswith (s suffix : string) : bool :=
  let n := String.length s in
  let m := String.length suffix in
  bool_decide (m ≤ n)%nat && bool_decide (String.substring (n - m) m s = suffix).

(** [n in c] for an integer [n]. *)
Definition contains_int (c : pyobj) (n : Z) : result bool :=
  match c with
  | PList items => Ok (existsb (λ x, Validating.eq_int x n) items)
  | _ => Raise TypeError
  end.

Module ScrewStep.

(** The attribute [values]; [name] is stored and never read. *)
Record t : Type := { values : dict (list Q) }.

(** [ScrewStep(step_dict)] *)
Definition init (step_dict : step) : t := {| values := default [] (graph step_dict) |}.

Definition valid_types : list string :=
  ["angle values"; "torque values"; "gradient values"; "torqueRed values";
   "angleRed values"; "time values"].

Definition get_values (self : t) (value_type : string) : result (list Q) :=
  if decide (value_type ∉ valid_types) then Raise ValueError
  else Ok (default [] (Dict.get value_type (values self))).

End ScrewStep.

(** The content of a screw run file: for each key the constructor reads, the
    [str] of its value, or the list of steps; [None] for a missing key. *)
Record json_dict : Type := {
  json_result : option string;
  json_date : option string;
  json_id_code : option string;
  json_tightening_steps : option (list step)
}.

Module ScrewRun.

Record t : Type := {
  name : string;
  steps : pyobj;
  run_result : string;
  date : string;
  code : string;
  screw_steps : list ScrewStep.t
}.

(** [json_dict[key]] *)
Definition getitem {V} (field : option V) : result V :=
  match field with
  | Some v => Ok v
  | None => Raise KeyError
  end.

(** [ScrewRun(name, path, steps)], for the file content [file]. *)
Definition init (name : string) (steps : pyobj) (file : json_dict) : result t :=
  result ← getitem (json_result file);
  date ← getitem (json_date file);
  code ← getitem (json_id_code file);
  tightening_steps ← getitem (json_tightening_steps file);
  kept ← mapM (λ i_step : nat * step,
                 selected ← contains_int steps (Z.of_nat i_step.1 + 1);
                 mret (if selected : bool then [ScrewStep.init i_step.2] else []))
            (imap (λ i step, (i, step)) tightening_steps);
  mret {| name := name; steps := steps; run_result := result; date := date;
          code := code; screw_steps := concat kept |}.

Definition get_dmc (self : t) : string := code self.

Definition get_result (self : t) : string := run_result self.

Definition get_run_values (self : t) (value : string) : result (list Q) :=
  per_step ← mapM (λ step, ScrewStep.get_values step value) (screw_steps self);
  mret (concat per_step).

End ScrewRun.

(** ** connect/to_directory.py: load_from_json *)

(** The exceptions of [load_from_json]: those of [exn], and two more. *)
Inductive raised : Type :=
  | Builtin (e : exn)
  | InvalidPathError
  | ImportWarning.

Inductive outcome (A : Type) : Type :=
  | Returned (a : A)
  | Raised (e : raised).

Arguments Returned {A} a.
Arguments Raised {A} e.

(** An element of a returned list. *)
Inductive entry : Type :=
  | CycleNumber (count : Z)
  | ResultLabel (label : string)
  | RunValues (series : list Q).

Record json_loop_state : Type := {
  list_of_all_screw_runs : list ScrewRun.t;
  dict_of_all_dmc_counts : gmap string Z;
  current_cycles : pyobj;
  tuple_of_result_values : list (list entry)
}.

(** [(count - 1) // 2 + 1] *)
Definition screw_run_cycle (count : Z) : Z := (count - 1) / 2 + 1.

(** The body of the loop for a file that ends with [".json"] and holds
    [file]. *)
Definition load_run (values : list string) (steps : pyobj) (st : json_loop_state)
    (file_name : string) (file : json_dict) : result json_loop_state :=
  screw_run ← ScrewRun.init file_name steps file;
  let screw_run_dmc := ScrewRun.get_dmc screw_run in
  let count :=
    match dict_of_all_dmc_counts st !! screw_run_dmc with
    | Some c => c + 1
    | None => 1
    end in
  let counts := <[screw_run_dmc := count]> (dict_of_all_dmc_counts st) in
  let cycles :=
    if Validating.isinstance_int (current_cycles st) then PList [current_cycles st]
    else current_cycles st in
  selected ←
    match cycles with
    | PNone => Ok true
    | _ => contains_int cycles (screw_run_cycle count)
    end;
  runs ← (if selected : bool then Ok (list_of_all_screw_runs st ++ [screw_run])
          else Raise ValueError);
  tuple ← foldM (λ tuple i_value,
             new ←
               (if decide (i_value.2 = "cycle number") then Ok (CycleNumber count)
                else if decide (i_value.2 = "results")
                     then Ok (ResultLabel (ScrewRun.get_result screw_run))
                     else RunValues <$> ScrewRun.get_run_values screw_run i_value.2);
             Py.append_at tuple (Z.of_nat i_value.1) new)
           (tuple_of_result_values st) (imap (λ i value, (i, value)) values);
  mret {| list_of_all_screw_runs := runs;
          dict_of_all_dmc_counts := counts;
          current_cycles := cycles;
          tuple_of_result_values := tuple |}.

(** The loop over the directory listing: file names with the content of
    each file, [None] for a file that does not hold JSON. For such a file
    [get_json_as_dict] catches the [JSONDecodeError] and builds a new one
    from the message alone; the constructor takes three arguments, so the
    exception that leaves the handler is [TypeError]. *)
Fixpoint load_loop (values : list string) (steps : pyobj) (st : json_loop_state)
    (listing : list (string * option json_dict)) : outcome json_loop_state :=
  match listing with
  | [] => Returned st
  | (file_name, content) :: rest =>
      if negb (endswith file_name ".json") then Raised ImportWarning
      else match content with
           | None => Raised (Builtin TypeError)
           | Some file =>
               match load_run values steps st file_name file with
               | Ok st' => load_loop values steps st' rest
               | Raise e => Raised (Builtin e)
               end
           end
  end.

(** [load_from_json(source, values, cycles, steps, log, verbose)]; [log] is
    not read and [verbose] only switches the progress bar. Here
    [isdir] is [os.path.isdir(source)] and [listing] what [os.listdir(source)]
    and the files hold. *)
Definition load_from_json (isdir : bool) (listing : list (string * option json_dict))
    (values : list string) (cycles steps : pyobj) : outcome (list (list entry)) :=
  if negb isdir then Raised InvalidPathError
  else
    match load_loop values steps
            {| list_of_all_screw_runs := [];
               dict_of_all_dmc_counts := ∅;
               current_cycles := cycles;
               tuple_of_result_values := replicate (length values) [] |}
            listing with
    | Returned st => Returned (tuple_of_result_values st)
    | Raised e => Raised e
    end.

(** ** Vocabulary of the further properties *)

Definition step_values (value : string) (st : step) : list Q :=
  default [] (g ← graph st; Dict.get (String.append value " values") g).

(** The dynamic view of a cycle selector. *)
Definition of_selector (sel : selector) : pyobj :=
  match sel with
  | SelStr s => PStr s
  | SelInt n => PInt n
  | SelList l => PList (PInt <$> l)
  end.

(** An instance of [int] whose value lies in [valid]. *)
Definition int_in (valid : list Z) (x : pyobj) : Prop :=
  Validating.isinstance_int x = true ∧ Validating.int_value x ∈ valid.

Definition str_in (valid : list string) (x : pyobj) : Prop :=
  ∃ s, x = PStr s ∧ s ∈ valid.

Definition none_or (P : pyobj → Prop) (x : pyobj) : Prop := x = PNone ∨ P x.

(** What the rest of the package relies on after the validation. *)
Definition validated (params : dict pyobj) : Prop :=
  (∃ steps, Dict.get "tightening_steps" params = Some (PList steps) ∧
            Forall (int_in Validating.valid_steps) steps) ∧
  (∃ cycles, Dict.get "tightening_cycles" params = Some (PList cycles) ∧
             Forall (int_in valid_cycles) cycles) ∧
  (∃ values, Dict.get "tightening_values" params = Some (PList values) ∧
             Forall (str_in Validating.valid_values) values ∧
             (Validating.get_or "equidistancing_enabled" (PBool false) params = PBool true →
              PStr "time" ∈ values)) ∧
  (∃ b, Validating.get_or "equidistancing_enabled" (PBool false) params = PBool b) ∧
  none_or (λ x, Validating.isinstance_int x = true ∧ 0 < Validating.int_value x)
    (Validating.get "target_length" params) ∧
  none_or (str_in ["pre"; "post"]) (Validating.get "cutoff_position" params) ∧
  none_or (λ x, Validating.isinstance_numeric x = true) (Validating.get "padding_value" params) ∧
  none_or (str_in ["pre"; "post"]) (Validating.get "padding_position" params) ∧
  none_or (λ x, ∃ r, x = PFloat r ∧ (0 < r)%Q ∧ (r < 1)%Q) (Validating.get "split_ratio" params) ∧
  none_or (λ x, Validating.isinstance_int x = true) (Validating.get "split_seed" params) ∧
  none_or (str_in ["nested_list"; "numpy_array"]) (Validating.get "return_format" params) ∧
  none_or (str_in ["binary"; "raw"]) (Validating.get "result_format" params) ∧
  (∃ b, Validating.get_or "logging_enabled" (PBool true) params = PBool b) ∧
  (∃ b, Validating.get_or "verbose" (PBool true) params = PBool b).

(** The data matrix code of a listed file. *)
Definition dmc_of (listed : string * option json_dict) : option string :=
  listed.2 ≫= json_id_code.

(** How many of [seen] bear the code [dmc]. *)
Definition dmc_count (dmc : option string) (seen : list (string * option json_dict)) : Z :=
  Py.len (filter (λ listed, dmc_of listed = dmc) seen).

(** For every file of [rest], the number of files up to and including it
    that bear its code, [seen] being the files before [rest]. *)
Fixpoint running_counts (seen rest : list (string * option json_dict)) : list Z :=
  match rest with
  | [] => []
  | listed :: rest' =>
      dmc_count (dmc_of listed) (seen ++ [listed]) :: running_counts (seen ++ [listed]) rest'
  end.

Definition two_runs : list (string * option json_dict) :=
  (λ name_label : string * string,
     (name_label.1,
      Some {| json_result := Some name_label.2; json_date := Some "2024-01-01";
              json_id_code := Some "A";
              json_tightening_steps :=
                Some [ {| graph := Some [("time values", [0; 1]%Q)] |} ] |}))
    <$> [("a.json", "OK"); ("b.json", "NOK")].


(** The cycles as the loop holds them from the first file on. *)
Definition listed_cycles (cycles : pyobj) : pyobj :=
  if Validating.isinstance_int cycles then PList [cycles] else cycles.


(** The state of the loop after the files [seen]. *)
Definition json_loop_invariant (values : list string) (cycles : pyobj)
    (seen : list (string * option json_dict)) (st : json_loop_state) : Prop :=
  length (tuple_of_result_values st) = length values ∧
  (∀ dmc, default 0 (dict_of_all_dmc_counts st !! dmc) = dmc_count (Some dmc) seen) ∧
  listed_cycles (current_cycles st) = listed_cycles cycles ∧
  Forall (λ col, length col = length seen) (tuple_of_result_values st) ∧
  (∀ j, values !! j = Some "cycle number" →
        tuple_of_result_values st !! j = Some (CycleNumber <$> running_counts [] seen)) ∧
  Forall (λ count, listed_cycles cycles = PNone ∨
                   contains_int (listed_cycles cycles) (screw_run_cycle count) = Ok true)
    (running_counts [] seen).

(** A record of three samples at the interval of the sensor. *)
Definition sample_cycle_values : dict (list Q) :=
  [("time", [0; 12 # 10000; 24 # 10000]%Q); ("torque", [5; 6; 7]%Q)].

(** Buffers of which the second is shorter than the first. *)
Definition short_buffer : list (list Z) := [[1; 2; 3]; [10; 20]].

(** A label list with every label replaced by 0; any other object as it is. *)
Definition zero_labels (x : value) : value :=
  match x with
  | VList labels => VList (replicate (length labels) (VInt 0))
  | _ => x
  end.

(** Two steps of a record, with their graphs. *)
Definition two_steps : list step :=
  [ {| graph := Some [("time values", [0; 1]%Q); ("torque values", [5; 6]%Q)] |};
    {| graph := Some [("time values", [2]%Q); ("torque values", [7]%Q)] |} ].

(** The resampling configuration with an empty cycle selection. *)
Definition no_cycles_config : config := {|
  tightening_steps := [1; 2; 3; 4];
  tightening_cycles := CyclesList [];
  tightening_values := ["time"; "torque"];
  equidistancing_enabled := true;
  target_length := None;
  cutoff_position := None;
  padding_value := None;
  padding_position := None
|}.

(** The keyword arguments of a call of get_data that passes the source path
    only: the defaults of its signature. *)
Definition default_params : dict pyobj :=
  [("source_path", PStr "data"); ("tightening_steps", PStr "all");
   ("tightening_cycles", PStr "all");
   ("tightening_values", PList [PStr "time"; PStr "torque"]);
   ("equidistancing_enabled", PBool false); ("target_length", PNone);
   ("cutoff_position", PNone); ("padding_value", PNone); ("padding_position", PNone);
   ("split_ratio", PNone); ("split_seed", PNone); ("return_format", PStr "nested_list");
   ("result_format", PStr "binary"); ("logging_enabled", PBool true);
   ("verbose", PBool true)].

(** * Properties *)

(** ** Worked examples from the unit tests *)

Example truncating_post :
  apply_truncating [("time", [0; 1; 2; 3; 4]%Q); ("torque", [10; 20; 30; 40; 50]%Q)] 3 "post"
  = Ok ([("time", [0; 1; 2]%Q); ("torque", [10; 20; 30]%Q)], 5, 3).
Proof. reflexivity. Qed.

Example truncating_pre :
  apply_truncating [("time", [0; 1; 2; 3; 4]%Q); ("torque", [10; 20; 30; 40; 50]%Q)] 3 "pre"
  = Ok ([("time", [2; 3; 4]%Q); ("torque", [30; 40; 50]%Q)], 5, 3).
Proof. reflexivity. Qed.

Example padding_pre_torque :
  (λ r, Dict.get "torque" r.1.1) <$>
    apply_padding [("time", [0; 1; 2]%Q); ("torque", [10; 20; 30]%Q)] 0 "pre" 5
  = Ok (Some [0; 0; 10; 20; 30]%Q).
Proof. reflexivity. Qed.

Example equidistancing_grid_equals_original :
  apply_equidistancing
    [("time", [0; 1 # 2; 1; 3 # 2]%Q); ("torque", [10; 20; 30; 40]%Q)] (1 # 2)
  = Ok ([("torque", [10; 20; 30; 40]%Q); ("time", [0 # 2; 1 # 2; 2 # 2; 3 # 2]%Q)], 4, 4).
Proof. reflexivity. Qed.

(** ** The error monad *)

Lemma bind_Ok {A B} (m : result A) (f : A → result B) b :
  m ≫= f = Ok b ↔ ∃ a, m = Ok a ∧ f a = Ok b.
Proof.
  destruct m as [a|e]; simpl.
  - split; [eauto | intros (a' & [= ->] & H); exact H].
  - split; [discriminate | intros (a' & [=] & _)].
Qed.

Lemma mapM_Ok {A B} (f : A → result B) (l : list A) (k : list B) :
  mapM f l = Ok k ↔ Forall2 (λ x y, f x = Ok y) l k.
Proof.
  revert k. induction l as [|x l IH]; intros k; simpl.
  - split.
    + intros [= <-]. constructor.
    + intros H. inversion H. reflexivity.
  - split.
    + intros H. apply bind_Ok in H as (y & Hy & H).
      apply bind_Ok in H as (k' & Hk' & [= <-]).
      constructor; [exact Hy | apply IH, Hk'].
    + intros H. inversion H as [|? y ? k' Hy Hk']; subst.
      apply IH in Hk'. rewrite Hy. simpl. rewrite Hk'. reflexivity.
Qed.

Lemma mapM_Raise_one {A B} (f : A → result B) (l : list A) (e : exn) x :
  x ∈ l → f x = Raise e → (∀ y e', y ∈ l → f y = Raise e' → e' = e) →
  mapM f l = Raise e.
Proof.
  induction l as [|y l IH]; intros Hin Hx Hall.
  - inversion Hin.
  - simpl. destruct (f y) as [b|e'] eqn:Hy; simpl.
    + assert (x ∈ l) as Hin'.
      { apply elem_of_cons in Hin as [->|Hin]; [congruence | exact Hin]. }
      rewrite IH; [reflexivity | exact Hin' | exact Hx |].
      intros z e'' Hz. apply Hall. right. exact Hz.
    + f_equal. eapply Hall; [left | exact Hy].
Qed.

(** ** Slices *)

Lemma len_nonneg {A} (l : list A) : 0 ≤ Py.len l.
Proof. unfold Py.len. lia. Qed.

Lemma truncate_sequence_len {A} (seq : list A) t pos :
  0 < t → Py.len (truncate_sequence seq t pos) = Z.min (Py.len seq) t.
Proof.
  intros Ht. unfold truncate_sequence, Py.slice_from, Py.slice_to, Py.clamp, Py.len.
  destruct (decide (pos = "pre")).
  - rewrite length_drop. case_decide; lia.
  - rewrite length_take. case_decide; lia.
Qed.

(** Whatever the index, [l[:i]] and [l[i:]] cut [l] in two. *)
Lemma slices_partition {A} (l : list A) (i : Z) :
  Py.slice_to l i ++ Py.slice_from l i = l.
Proof. unfold Py.slice_to, Py.slice_from. apply take_drop. Qed.

Lemma pad_sequence_short seq t v pos :
  Py.len seq ≤ t →
  ∃ out, pad_sequence seq t v pos = Ok out ∧ Py.len out = t.
Proof.
  intros Hle. unfold pad_sequence, Np.pad.
  destruct (decide (pos = "pre")); case_decide; try lia;
    (eexists; split; [reflexivity|]);
    unfold Py.len in *; rewrite !length_app, !length_replicate; lia.
Qed.

Lemma pad_sequence_exact seq t v pos :
  Py.len seq = t → pad_sequence seq t v pos = Ok seq.
Proof.
  intros <-. unfold pad_sequence, Np.pad. rewrite Z.sub_diag.
  destruct (decide (pos = "pre")); case_decide; try lia; simpl;
    rewrite ?app_nil_r; reflexivity.
Qed.

Lemma pad_sequence_long seq t v pos :
  t < Py.len seq → pad_sequence seq t v pos = Raise ValueError.
Proof.
  intros Hlt. unfold pad_sequence, Np.pad.
  destruct (decide (pos = "pre")); case_decide; try lia; reflexivity.
Qed.

Lemma pad_sequence_exn seq t v pos e :
  pad_sequence seq t v pos = Raise e → e = ValueError.
Proof.
  unfold pad_sequence, Np.pad.
  destruct (decide (pos = "pre")); case_decide; congruence.
Qed.

Lemma linspace_Ok start stop num :
  0 ≤ num → ∃ out, Np.linspace start stop num = Ok out ∧ Py.len out = num.
Proof.
  intros H. unfold Np.linspace. case_decide; [lia|].
  eexists; split; [reflexivity|].
  unfold Py.len. rewrite length_map, length_seq. lia.
Qed.

(** ** Dictionaries *)

Lemma dict_set_elem {V} k (v : V) d k' v' :
  (k', v') ∈ Dict.set k v d → (k', v') = (k, v) ∨ (k', v') ∈ d.
Proof.
  induction d as [|[k0 v0] d IH]; simpl.
  - intros H. apply list_elem_of_singleton in H. left. exact H.
  - case_decide as Hk.
    + rewrite !elem_of_cons. tauto.
    + rewrite !elem_of_cons. intros [H|H]; [tauto|].
      destruct (IH H); tauto.
Qed.

Lemma dict_get_set_eq {V} k (v : V) d : Dict.get k (Dict.set k v d) = Some v.
Proof.
  induction d as [|[k0 v0] d IH]; simpl.
  - case_decide; congruence.
  - case_decide; simpl; case_decide; congruence.
Qed.

Lemma dict_get_set_ne {V} k k' (v : V) d :
  k ≠ k' → Dict.get k' (Dict.set k v d) = Dict.get k' d.
Proof.
  intros Hne. induction d as [|[k0 v0] d IH]; simpl.
  - case_decide; congruence.
  - case_decide; simpl; repeat case_decide; congruence.
Qed.

Lemma dict_set_nonempty {V} k (v : V) d : Dict.set k v d ≠ [].
Proof. destruct d as [|[k0 v0] d]; simpl; [|case_decide]; discriminate. Qed.

Lemma map_values_Ok {V W} (f : V → result W) d out :
  Dict.map_values f d = Ok out ↔ Forall2 (λ kv kw, kw.1 = kv.1 ∧ f kv.2 = Ok kw.2) d out.
Proof.
  unfold Dict.map_values.
  split; intros H; [apply mapM_Ok in H | apply mapM_Ok];
    (eapply Forall2_impl; [exact H|]); simpl; intros [k v] [k' w]; simpl.
  - intros H'. apply bind_Ok in H' as (w' & Hw & [= <- <-]). auto.
  - intros [-> ->]. reflexivity.
Qed.

Lemma map_values_get {V W} (f : V → result W) d out k :
  Dict.map_values f d = Ok out →
  match Dict.get k d with
  | Some v => ∃ w, f v = Ok w ∧ Dict.get k out = Some w
  | None => Dict.get k out = None
  end.
Proof.
  rewrite map_values_Ok. induction 1 as [|[k0 v0] [k1 w1] d out [Hk Hf] _ IH]; simpl in *.
  - reflexivity.
  - subst k1. case_decide; [eauto | exact IH].
Qed.

(** ** Padding a sequence that already has the target length, or more *)

(** C2, as the code has it. For a sequence [seq] of the channel map with
    [target_length <= len(seq)]: when the lengths are equal, [pad_sequence]
    returns the sequence unchanged; when the sequence is longer, the pad
    length [target_length - len(seq)] is negative, [np.pad] rejects it and
    [apply_padding] raises [ValueError] for the whole map. When every
    sequence of the map has exactly the target length, [apply_padding]
    returns and leaves every channel other than ["time"] as it was. *)
Theorem pad_at_or_above_target (cv : dict (list Q)) k seq t v pos :
  (k, seq) ∈ cv → t ≤ Py.len seq →
  pad_sequence seq t v pos
    = (if decide (Py.len seq = t) then Ok seq else Raise ValueError) ∧
  (t < Py.len seq → apply_padding cv v pos t = Raise ValueError) ∧
  (Forall (λ kv, Py.len kv.2 = t) cv →
     ∃ out i f, apply_padding cv v pos t = Ok (out, i, f) ∧
       ∀ k', k' ≠ "time" → Dict.get k' out = Dict.get k' cv).
Proof.
  intros Hin Hle. split; [|split].
  - case_decide as Hlen.
    + apply pad_sequence_exact, Hlen.
    + apply pad_sequence_long. lia.
  - intros Hlt. unfold apply_padding.
    destruct cv as [|[k0 v0] cv]; [inversion Hin|].
    cbn [Dict.first_value mbind result_bind]. unfold Dict.map_values.
    rewrite (mapM_Raise_one _ _ ValueError (k, seq)); [reflexivity | exact Hin | |].
    + simpl. rewrite pad_sequence_long by exact Hlt. reflexivity.
    + intros [k' s'] e' _. simpl.
      destruct (pad_sequence s' t v pos) eqn:E; simpl; [discriminate|].
      intros [= <-]. eapply pad_sequence_exn, E.
  - intros Hall. unfold apply_padding.
    assert (Dict.map_values (λ s, pad_sequence s t v pos) cv = Ok cv) as Hmap.
    { apply map_values_Ok. clear Hin.
      induction Hall as [|[k1 s1] cv Hs _ IH]; constructor; auto.
      simpl in *. split; [reflexivity | apply pad_sequence_exact, Hs]. }
    assert (0 ≤ t) as Ht.
    { pose proof (len_nonneg seq). rewrite Forall_forall in Hall.
      specialize (Hall _ Hin). simpl in Hall. lia. }
    destruct (linspace_Ok 0 (inject_Z (t - 1) * interval_0012) t Ht) as (time & Htime & _).
    destruct cv as [|[k0 s0] cv]; [inversion Hin|].
    cbn [Dict.first_value mbind result_bind].
    rewrite Hmap. cbn [mbind result_bind]. rewrite Htime. cbn [mbind result_bind].
    destruct (Dict.set "time" time ((k0, s0) :: cv)) as [|[k1 s1] d'] eqn:Hset.
    { exfalso. eapply dict_set_nonempty, Hset. }
    cbn [Dict.first_value mbind result_bind]. do 3 eexists. split; [reflexivity|].
    intros k' Hk. rewrite <- Hset. apply dict_get_set_ne. congruence.
Qed.

Lemma pad_at_or_above_target_witness :
  pad_sequence [1; 2; 3]%Q 3 0 "pre" = Ok [1; 2; 3]%Q.
Proof.
  refine (proj1 (pad_at_or_above_target
    [("time", [0; 1; 2]%Q); ("torque", [1; 2; 3]%Q)] "torque" [1; 2; 3]%Q 3 0 "pre" _ _)).
  - apply elem_of_cons. right. apply elem_of_cons. left. reflexivity.
  - vm_compute. discriminate.
Defined.

(** C2 as stated fails: a sequence of length 3 padded to the target length 2
    is not returned; the negative pad length makes [np.pad] raise. *)
Lemma pad_above_target_raises :
  2 ≤ Py.len [1; 2; 3]%Q ∧
  pad_sequence [1; 2; 3]%Q 2 0 "post" = Raise ValueError ∧
  apply_padding [("time", [0; 1; 2]%Q); ("torque", [1; 2; 3]%Q)] 0 "post" 2
    = Raise ValueError.
Proof. split; [vm_compute; discriminate|]. split; reflexivity. Qed.

(** ** Truncation followed by padding *)

Lemma apply_truncating_Ok (cv : dict (list Q)) t pos :
  cv ≠ [] → 0 < t →
  ∃ out i f, apply_truncating cv t pos = Ok (out, i, f) ∧
    out ≠ [] ∧ out.*1 = cv.*1 ∧
    Forall2 (λ kv kw, Py.len kw.2 = Z.min (Py.len kv.2) t) cv out.
Proof.
  intros Hne Ht. unfold apply_truncating.
  destruct cv as [|[k0 s0] cv]; [done|].
  cbn [Dict.first_value mbind result_bind fmap list_fmap].
  do 3 eexists. split; [reflexivity|]. split; [discriminate|]. clear Hne. split.
  - simpl. f_equal. induction cv as [|[k s] cv IH]; simpl; [reflexivity|]. f_equal. exact IH.
  - constructor; [apply truncate_sequence_len, Ht|].
    induction cv as [|[k s] cv IH]; constructor; [apply truncate_sequence_len, Ht | exact IH].
Qed.

Lemma apply_padding_Ok (cv : dict (list Q)) v pos t :
  cv ≠ [] → 0 ≤ t → Forall (λ kv, Py.len kv.2 ≤ t) cv →
  ∃ out i f, apply_padding cv v pos t = Ok (out, i, f) ∧
    (∀ k seq, (k, seq) ∈ out → Py.len seq = t) ∧
    is_Some (Dict.get "time" out) ∧ f = t.
Proof.
  intros Hne Ht Hall. unfold apply_padding.
  assert (∃ padded, Dict.map_values (λ s, pad_sequence s t v pos) cv = Ok padded ∧
            Forall (λ kv, Py.len kv.2 = t) padded) as (padded & Hmap & Hpadded).
  { clear Hne. induction Hall as [|[k s] cv Hs _ (padded & Hmap & Hpadded)].
    - exists []. split; [reflexivity | constructor].
    - destruct (pad_sequence_short s t v pos Hs) as (s' & Hs' & Hlen).
      exists ((k, s') :: padded). split; [|constructor; assumption].
      apply map_values_Ok. constructor; [split; [reflexivity | exact Hs']|].
      exact (proj1 (map_values_Ok _ _ _) Hmap). }
  destruct (linspace_Ok 0 (inject_Z (t - 1) * interval_0012) t Ht) as (time & Htime & Hlen).
  destruct cv as [|[k0 s0] cv]; [done|].
  cbn [Dict.first_value mbind result_bind].
  rewrite Hmap. cbn [mbind result_bind]. rewrite Htime. cbn [mbind result_bind].
  assert (∀ k seq, (k, seq) ∈ Dict.set "time" time padded → Py.len seq = t) as Hlens.
  { intros k seq Hin. apply dict_set_elem in Hin as [[= -> ->]|Hin]; [exact Hlen|].
    rewrite Forall_forall in Hpadded. apply (Hpadded _ Hin). }
  pose proof (dict_get_set_eq "time" time padded) as Hget.
  destruct (Dict.set "time" time padded) as [|[k1 s1] d'] eqn:Hset; [discriminate|].
  cbn [Dict.first_value mbind result_bind]. do 3 eexists. split; [reflexivity|].
  split; [exact Hlens|]. split; [rewrite Hget; eauto|].
  apply (Hlens k1 s1). left.
Qed.

(** C5. For a non-empty channel map and a positive target length,
    [apply_truncating] followed by [apply_padding] with the same target
    length returns, and every channel of the result, the regenerated
    ["time"] channel included, has exactly [target_length] elements; the
    reported final length is [target_length] too. *)
Theorem truncate_then_pad_length (cv : dict (list Q)) t cpos v ppos :
  cv ≠ [] → 0 < t →
  ∃ cv1 i1 f1 cv2 i2 f2,
    apply_truncating cv t cpos = Ok (cv1, i1, f1) ∧
    apply_padding cv1 v ppos t = Ok (cv2, i2, f2) ∧
    (∀ k seq, (k, seq) ∈ cv2 → Py.len seq = t) ∧
    is_Some (Dict.get "time" cv2) ∧
    f2 = t.
Proof.
  intros Hne Ht.
  destruct (apply_truncating_Ok cv t cpos Hne Ht) as (cv1 & i1 & f1 & Htr & Hne1 & _ & Hlen1).
  destruct (apply_padding_Ok cv1 v ppos t) as (cv2 & i2 & f2 & Hpad & Hlen2 & Htime & Hf2);
    [exact Hne1 | lia | |].
  { clear -Hlen1. induction Hlen1 as [|? ? ? ? H _ IH]; constructor; [lia | exact IH]. }
  exists cv1, i1, f1, cv2, i2, f2. auto.
Qed.

Lemma truncate_then_pad_length_witness :
  ∃ cv1 i1 f1 cv2 i2 f2,
    apply_truncating [("time", [0; 1; 2; 3; 4]%Q); ("torque", [10; 20]%Q)] 3 "post"
      = Ok (cv1, i1, f1) ∧
    apply_padding cv1 0 "pre" 3 = Ok (cv2, i2, f2) ∧
    (∀ k seq, (k, seq) ∈ cv2 → Py.len seq = 3) ∧
    is_Some (Dict.get "time" cv2) ∧
    f2 = 3.
Proof.
  apply (truncate_then_pad_length
    [("time", [0; 1; 2; 3; 4]%Q); ("torque", [10; 20]%Q)] 3 "post" 0 "pre").
  - discriminate.
  - lia.
Defined.

(** ** numpy: unique, min, max, arange *)

Lemma key_lt_le p q : key_lt p q → (p.1 <= q.1)%Q.
Proof. intros [H|[H _]]; lra. Qed.

Lemma Qle_bool_false a b : Qle_bool a b = false → (b < a)%Q.
Proof.
  intros H. apply Qnot_le_lt. intros Hle.
  apply Qle_bool_iff in Hle. congruence.
Qed.

Lemma Qeq_bool_false a b : Qeq_bool a b = false → ¬ (a == b)%Q.
Proof. intros H Heq. apply Qeq_bool_iff in Heq. congruence. Qed.

Lemma insert_stable_elem p q l : q ∈ Np.insert_stable p l ↔ q = p ∨ q ∈ l.
Proof.
  induction l as [|r l IH]; simpl.
  - rewrite list_elem_of_singleton, elem_of_nil. tauto.
  - destruct (Qle_bool p.1 r.1); rewrite !elem_of_cons; [tauto|].
    rewrite IH. tauto.
Qed.

Lemma insert_stable_sorted p l :
  StronglySorted key_lt l → Forall (λ q, (p.2 < q.2)%nat) l →
  StronglySorted key_lt (Np.insert_stable p l).
Proof.
  induction 1 as [|r l Hl IH Hr]; intros Hidx; simpl.
  - repeat constructor.
  - apply Forall_cons in Hidx as [Hpr Hidx].
    destruct (Qle_bool p.1 r.1) eqn:E.
    + apply Qle_bool_iff in E. constructor; [constructor; assumption|].
      assert (key_lt p r) as Hkey.
      { destruct (Qlt_le_dec p.1 r.1); [left; assumption | right; split; [lra | assumption]]. }
      constructor; [exact Hkey|].
      rewrite Forall_forall in *. intros q Hq.
      specialize (Hr q Hq). specialize (Hidx q Hq). apply key_lt_le in Hr.
      destruct (Qlt_le_dec p.1 q.1); [left; assumption | right; split; [lra | assumption]].
    + apply Qle_bool_false in E. constructor; [apply IH, Hidx|].
      rewrite Forall_forall in *. intros q Hq.
      apply insert_stable_elem in Hq as [->|Hq]; [left; exact E | apply Hr, Hq].
Qed.

Lemma argsort_from_sorted (a : list Q) (off : nat) :
  let s := foldr Np.insert_stable [] (zip a (seq off (length a))) in
  StronglySorted key_lt s ∧ Forall (λ q, (off ≤ q.2)%nat) s ∧
  ∀ q, q ∈ s ↔ q ∈ zip a (seq off (length a)).
Proof.
  revert off. induction a as [|x a IH]; intros off; simpl.
  - split; [constructor|]. split; [constructor|]. tauto.
  - destruct (IH (S off)) as (Hs & Hidx & Hel).
    split; [|split].
    + apply insert_stable_sorted; [exact Hs|].
      eapply Forall_impl; [exact Hidx|]. simpl. intros; lia.
    + rewrite Forall_forall in *. intros q Hq.
      apply insert_stable_elem in Hq as [->|Hq]; [simpl; lia|].
      specialize (Hidx q Hq). lia.
    + intros q. rewrite insert_stable_elem, elem_of_cons, Hel. tauto.
Qed.

Lemma zip_seq_elem (a : list Q) (x : Q) (i : nat) :
  (x, i) ∈ zip a (seq 0 (length a)) ↔ a !! i = Some x.
Proof.
  rewrite list_elem_of_lookup. split.
  - intros (k & Hk). apply lookup_zip_with_Some in Hk as (x' & i' & [= <- <-] & Hx & Hi).
    apply lookup_seq in Hi as [-> _]. exact Hx.
  - intros Hx. exists i. apply lookup_zip_with_Some. exists x, i.
    split; [reflexivity|]. split; [exact Hx|].
    apply lookup_seq. split; [reflexivity|]. eapply lookup_lt_Some, Hx.
Qed.

Lemma argsort_stable_sorted a : StronglySorted key_lt (Np.argsort_stable a).
Proof. apply (argsort_from_sorted a 0). Qed.

Lemma argsort_stable_elem a x i : (x, i) ∈ Np.argsort_stable a ↔ a !! i = Some x.
Proof.
  unfold Np.argsort_stable.
  rewrite (proj2 (proj2 (argsort_from_sorted a 0))). apply zip_seq_elem.
Qed.

Lemma drop_repeats_spec prev l :
  StronglySorted key_lt l → Forall (λ q, (prev <= q.1)%Q) l →
  (∀ p, p ∈ Np.drop_repeats prev l → p ∈ l ∧ (prev < p.1)%Q) ∧
  (∀ p q, p ∈ Np.drop_repeats prev l → q ∈ l → (q.1 == p.1)%Q → (p.2 ≤ q.2)%nat) ∧
  (∀ q, q ∈ l → (q.1 == prev)%Q ∨ ∃ p, p ∈ Np.drop_repeats prev l ∧ (p.1 == q.1)%Q) ∧
  StronglySorted fst_lt (Np.drop_repeats prev l).
Proof.
  intros Hs. revert prev. induction Hs as [|p1 l Hl IH Hp1]; intros prev Hge; simpl.
  - split; [|split; [|split]];
      [intros ? H; inversion H | intros ? ? H; inversion H
      | intros ? H; inversion H | constructor].
  - apply Forall_cons in Hge as [Hge1 Hge].
    destruct (Qeq_bool p1.1 prev) eqn:E.
    + apply Qeq_bool_iff in E.
      destruct (IH prev Hge) as (Ha & Hb & Hc & Hd).
      split; [|split; [|split]]; [| | |exact Hd].
      * intros p Hp. destruct (Ha p Hp). split; [right|]; assumption.
      * intros p q Hp Hq Heq. apply elem_of_cons in Hq as [->|Hq]; [|eauto].
        destruct (Ha p Hp) as [_ Hlt]. lra.
      * intros q Hq. apply elem_of_cons in Hq as [->|Hq]; [left; exact E | eauto].
    + apply Qeq_bool_false in E.
      assert (Forall (λ q, (p1.1 <= q.1)%Q) l) as Hge'.
      { eapply Forall_impl; [exact Hp1|]. intros q. apply key_lt_le. }
      destruct (IH p1.1 Hge') as (Ha & Hb & Hc & Hd).
      split; [|split; [|split]].
      * intros p Hp. apply elem_of_cons in Hp as [->|Hp].
        -- split; [left | lra].
        -- destruct (Ha p Hp). split; [right; assumption | lra].
      * intros p q Hp Hq Heq.
        apply elem_of_cons in Hp as [->|Hp]; apply elem_of_cons in Hq as [->|Hq].
        -- lia.
        -- rewrite Forall_forall in Hp1. destruct (Hp1 q Hq) as [Hlt|[_ Hlt]]; [lra | lia].
        -- destruct (Ha p Hp) as [_ Hlt]. lra.
        -- eauto.
      * intros q Hq. right. apply elem_of_cons in Hq as [->|Hq].
        -- exists p1. split; [left | reflexivity].
        -- destruct (Hc q Hq) as [Heq|(p & Hp & Heq)].
           ++ exists p1. split; [left | lra].
           ++ exists p. split; [right; exact Hp | exact Heq].
      * constructor; [exact Hd|].
        rewrite Forall_forall. intros p Hp. apply (Ha p Hp).
Qed.

Lemma mask_first_spec l :
  StronglySorted key_lt l →
  (∀ p, p ∈ Np.mask_first l → p ∈ l) ∧
  (∀ p q, p ∈ Np.mask_first l → q ∈ l → (q.1 == p.1)%Q → (p.2 ≤ q.2)%nat) ∧
  (∀ q, q ∈ l → ∃ p, p ∈ Np.mask_first l ∧ (p.1 == q.1)%Q) ∧
  StronglySorted fst_lt (Np.mask_first l).
Proof.
  intros Hs. destruct Hs as [|p0 l Hl Hp0]; simpl.
  - split; [|split; [|split]];
      [intros ? H; inversion H | intros ? ? H; inversion H
      | intros ? H; inversion H | constructor].
  - assert (Forall (λ q, (p0.1 <= q.1)%Q) l) as Hge.
    { eapply Forall_impl; [exact Hp0|]. intros q. apply key_lt_le. }
    destruct (drop_repeats_spec p0.1 l Hl Hge) as (Ha & Hb & Hc & Hd).
    split; [|split; [|split]].
    + intros p Hp. apply elem_of_cons in Hp as [->|Hp]; [left | right; apply (Ha p Hp)].
    + intros p q Hp Hq Heq.
      apply elem_of_cons in Hp as [->|Hp]; apply elem_of_cons in Hq as [->|Hq].
      * lia.
      * rewrite Forall_forall in Hp0. destruct (Hp0 q Hq) as [Hlt|[_ Hlt]]; [lra | lia].
      * destruct (Ha p Hp) as [_ Hlt]. lra.
      * eauto.
    + intros q Hq. apply elem_of_cons in Hq as [->|Hq].
      * exists p0. split; [left | reflexivity].
      * destruct (Hc q Hq) as [Heq|(p & Hp & Heq)].
        -- exists p0. split; [left | lra].
        -- exists p. split; [right; exact Hp | exact Heq].
    + constructor; [exact Hd|].
      rewrite Forall_forall. intros p Hp. apply (Ha p Hp).
Qed.

(** What [np.unique(a, return_index=True)] returns. *)
Lemma unique_spec (a : list Q) :
  let ut := (Np.unique a).1 in
  let ui := (Np.unique a).2 in
  length ut = length ui ∧
  (∀ k i, ui !! k = Some i → first_occurrence a i ∧ ut !! k = a !! i) ∧
  (∀ x, x ∈ a → ∃ u, u ∈ ut ∧ (u == x)%Q) ∧
  (∀ u, u ∈ ut → u ∈ a) ∧
  StronglySorted Qlt ut.
Proof.
  unfold Np.unique. simpl.
  destruct (mask_first_spec _ (argsort_stable_sorted a)) as (Ha & Hb & Hc & Hd).
  split; [rewrite !length_fmap; reflexivity|].
  split; [|split; [|split]].
  - intros k i Hk. rewrite list_lookup_fmap in Hk.
    destruct (Np.mask_first (Np.argsort_stable a) !! k) as [[x i']|] eqn:Hkept; [|discriminate].
    injection Hk as ->.
    assert ((x, i) ∈ Np.mask_first (Np.argsort_stable a)) as Hin
      by (apply list_elem_of_lookup; eauto).
    pose proof (proj1 (argsort_stable_elem a x i) (Ha _ Hin)) as Hai.
    split.
    + exists x. split; [exact Hai|]. intros j y Hj Heq.
      apply (Hb (x, i) (y, j) Hin); [apply argsort_stable_elem, Hj | exact Heq].
    + rewrite list_lookup_fmap, Hkept, Hai. reflexivity.
  - intros x Hx. apply list_elem_of_lookup in Hx as (i & Hi).
    destruct (Hc (x, i)) as ([u j] & Hp & Heq); [apply argsort_stable_elem, Hi|].
    exists u. split; [|exact Heq].
    apply list_elem_of_fmap. exists (u, j). split; [reflexivity | exact Hp].
  - intros u Hu. apply list_elem_of_fmap in Hu as ([u' j] & -> & Hp).
    apply Ha, argsort_stable_elem in Hp. simpl. eapply list_elem_of_lookup_2, Hp.
  - clear -Hd. induction Hd as [|p l _ IH Hp]; simpl; constructor; [exact IH|].
    rewrite Forall_fmap. exact Hp.
Qed.

Lemma mapM_cases {A B} (f : A → result B) (l : list A) :
  (∃ k, mapM f l = Ok k) ∨ (∃ x e, x ∈ l ∧ f x = Raise e ∧ mapM f l = Raise e).
Proof.
  induction l as [|x l IH]; simpl.
  - left. eexists; reflexivity.
  - destruct (f x) as [y|e] eqn:Hx; simpl.
    + destruct IH as [[k ->]|(x' & e & Hin & Hx' & ->)]; simpl.
      * left. eexists; reflexivity.
      * right. exists x', e. split; [right; exact Hin | auto].
    + right. exists x, e. split; [left | auto].
Qed.

Lemma map_values_cases {V W} (f : V → result W) (d : dict V) :
  (∃ out, Dict.map_values f d = Ok out) ∨
  (∃ k v e, (k, v) ∈ d ∧ f v = Raise e ∧ Dict.map_values f d = Raise e).
Proof.
  unfold Dict.map_values.
  destruct (mapM_cases (λ kv : string * V, w ← f kv.2; mret (kv.1, w)) d)
    as [?|([k v] & e & Hin & Hx & Hm)]; [left; assumption|].
  right. exists k, v, e. split; [exact Hin|]. split; [|exact Hm].
  simpl in Hx. destruct (f v); simpl in Hx; [discriminate | congruence].
Qed.


Lemma min2_cases a b : (Np.min2 a b = a ∧ (a <= b)%Q) ∨ (Np.min2 a b = b ∧ (b < a)%Q).
Proof.
  unfold Np.min2. destruct (Qle_bool a b) eqn:E.
  - left. split; [reflexivity | apply Qle_bool_iff, E].
  - right. split; [reflexivity | apply Qle_bool_false, E].
Qed.

Lemma max2_cases a b : (Np.max2 a b = b ∧ (a <= b)%Q) ∨ (Np.max2 a b = a ∧ (b < a)%Q).
Proof.
  unfold Np.max2. destruct (Qle_bool a b) eqn:E.
  - left. split; [reflexivity | apply Qle_bool_iff, E].
  - right. split; [reflexivity | apply Qle_bool_false, E].
Qed.

Lemma foldl_min2 x a :
  foldl Np.min2 x a ∈ x :: a ∧ ∀ y, y ∈ x :: a → (foldl Np.min2 x a <= y)%Q.
Proof.
  revert x. induction a as [|z a IH]; intros x; simpl.
  - split; [left|]. intros y Hy. apply list_elem_of_singleton in Hy as ->. lra.
  - destruct (IH (Np.min2 x z)) as [Hin Hle]. split.
    + apply elem_of_cons in Hin as [->|Hin]; [|right; right; exact Hin].
      destruct (min2_cases x z) as [[-> _]|[-> _]]; [left | right; left].
    + intros y Hy. pose proof (Hle (Np.min2 x z) ltac:(left)) as H0.
      apply elem_of_cons in Hy as [->|Hy]; [|apply elem_of_cons in Hy as [->|Hy]].
      * destruct (min2_cases x z) as [[E ?]|[E ?]]; rewrite E in *; lra.
      * destruct (min2_cases x z) as [[E ?]|[E ?]]; rewrite E in *; lra.
      * apply Hle. right. exact Hy.
Qed.

Lemma foldl_max2 x a :
  foldl Np.max2 x a ∈ x :: a ∧ ∀ y, y ∈ x :: a → (y <= foldl Np.max2 x a)%Q.
Proof.
  revert x. induction a as [|z a IH]; intros x; simpl.
  - split; [left|]. intros y Hy. apply list_elem_of_singleton in Hy as ->. lra.
  - destruct (IH (Np.max2 x z)) as [Hin Hle]. split.
    + apply elem_of_cons in Hin as [->|Hin]; [|right; right; exact Hin].
      destruct (max2_cases x z) as [[-> _]|[-> _]]; [right; left | left].
    + intros y Hy. pose proof (Hle (Np.max2 x z) ltac:(left)) as H0.
      apply elem_of_cons in Hy as [->|Hy]; [|apply elem_of_cons in Hy as [->|Hy]].
      * destruct (max2_cases x z) as [[E ?]|[E ?]]; rewrite E in *; lra.
      * destruct (max2_cases x z) as [[E ?]|[E ?]]; rewrite E in *; lra.
      * apply Hle. right. exact Hy.
Qed.

Lemma amin_spec a :
  a ≠ [] → ∃ m, Np.amin a = Ok m ∧ m ∈ a ∧ ∀ y, y ∈ a → (m <= y)%Q.
Proof.
  destruct a as [|x a]; [done|]. intros _. exists (foldl Np.min2 x a).
  split; [reflexivity | apply foldl_min2].
Qed.

Lemma amax_spec a :
  a ≠ [] → ∃ m, Np.amax a = Ok m ∧ m ∈ a ∧ ∀ y, y ∈ a → (y <= m)%Q.
Proof.
  destruct a as [|x a]; [done|]. intros _. exists (foldl Np.max2 x a).
  split; [reflexivity | apply foldl_max2].
Qed.

Lemma take_indices_Ok a idx mv :
  Np.take_indices a idx = Ok mv ↔ Forall2 (λ i x, a !! i = Some x) idx mv.
Proof.
  unfold Np.take_indices. rewrite mapM_Ok.
  split; intros H; (eapply Forall2_impl; [exact H|]); simpl; intros i x.
  - destruct (a !! i); [intros [= ->]; reflexivity | discriminate].
  - intros ->. reflexivity.
Qed.

Lemma take_indices_is_Ok a idx :
  is_Ok (Np.take_indices a idx) ↔ ∀ i, i ∈ idx → (i < length a)%nat.
Proof.
  split.
  - intros [mv Hmv] i Hi. apply take_indices_Ok in Hmv.
    apply list_elem_of_lookup in Hi as (k & Hk).
    destruct (Forall2_lookup_l _ _ _ _ _ Hmv Hk) as (x & _ & Hx).
    eapply lookup_lt_Some, Hx.
  - intros Hall. induction idx as [|i idx IH].
    + exists []. reflexivity.
    + destruct IH as [mv Hmv]; [intros j Hj; apply Hall; right; exact Hj|].
      destruct (lookup_lt_is_Some_2 a i) as [x Hx]; [apply Hall; left|].
      exists (x :: mv). apply take_indices_Ok. constructor; [exact Hx|].
      apply take_indices_Ok, Hmv.
Qed.

Lemma take_indices_exn a idx e : Np.take_indices a idx = Raise e → e = IndexError.
Proof.
  unfold Np.take_indices. intros H.
  destruct (mapM_cases (λ i, match a !! i with Some x => Ok x | None => Raise IndexError end) idx)
    as [[k Hk]|(i & e' & _ & Hi & He)]; [congruence|].
  rewrite H in He. injection He as <-. destruct (a !! i); congruence.
Qed.

Lemma getitem_Ok {V} k (d : dict V) v : Dict.getitem k d = Ok v ↔ Dict.get k d = Some v.
Proof. unfold Dict.getitem. destruct (Dict.get k d); split; congruence. Qed.

Lemma apply_equidistancing_inv cv iv out il fl :
  apply_equidistancing cv iv = Ok (out, il, fl) →
  ∃ time tmin tmax grid mvd eqd,
    Dict.get "time" cv = Some time ∧
    Np.amin (Np.unique time).1 = Ok tmin ∧
    Np.amax (Np.unique time).1 = Ok tmax ∧
    Np.arange tmin (tmax + iv)%Q iv = Ok grid ∧
    Dict.map_values (λ values, Np.take_indices values (Np.unique time).2)
      (filter (λ kv, kv.1 ≠ "time") cv) = Ok mvd ∧
    Dict.map_values (λ mv, Np.interp grid (Np.unique time).1 mv) mvd = Ok eqd ∧
    out = Dict.set "time" grid eqd ∧ il = Py.len time ∧ fl = Py.len grid.
Proof.
  unfold apply_equidistancing. intros H.
  apply bind_Ok in H as (time & Htime & H). apply getitem_Ok in Htime.
  destruct (Np.unique time) as [ut ui] eqn:Hu.
  apply bind_Ok in H as (tmin & Hmin & H).
  apply bind_Ok in H as (tmax & Hmax & H).
  apply bind_Ok in H as (grid & Hgrid & H).
  apply bind_Ok in H as (mvd & Hmvd & H).
  apply bind_Ok in H as (eqd & Heqd & H).
  injection H as <- <- <-.
  exists time, tmin, tmax, grid, mvd, eqd. rewrite Hu. simpl. auto 10.
Qed.

Lemma interp_Ok x xp fp :
  length xp = length fp → xp ≠ [] →
  Np.interp x xp fp = Ok (Np.interp_point (zip xp fp) <$> x).
Proof.
  intros Hlen Hne. unfold Np.interp. repeat case_decide; try done.
Qed.

Lemma unique_nonempty a : a ≠ [] → (Np.unique a).1 ≠ [].
Proof.
  intros Hne Hnil. destruct a as [|x a]; [done|].
  destruct (unique_spec (x :: a)) as (_ & _ & Hcov & _).
  destruct (Hcov x) as (u & Hu & _); [left|].
  rewrite Hnil in Hu. inversion Hu.
Qed.

Lemma unique_indices_lt a i : i ∈ (Np.unique a).2 → (i < length a)%nat.
Proof.
  intros Hi. apply list_elem_of_lookup in Hi as (k & Hk).
  destruct (unique_spec a) as (_ & Hfirst & _).
  destruct (Hfirst k i Hk) as [(x & Hx & _) _]. eapply lookup_lt_Some, Hx.
Qed.

(** When apply_equidistancing returns. *)
Lemma apply_equidistancing_is_Ok cv iv time :
  Dict.get "time" cv = Some time → time ≠ [] → ¬ (iv == 0)%Q →
  (∀ key vs i, (key, vs) ∈ cv → key ≠ "time" → i ∈ (Np.unique time).2 →
     (i < length vs)%nat) →
  is_Ok (apply_equidistancing cv iv).
Proof.
  intros Htime Hne Hiv Hcond. unfold apply_equidistancing, Dict.getitem.
  rewrite Htime. cbn [mbind result_bind].
  pose proof (unique_nonempty time Hne) as Hune.
  destruct (unique_spec time) as (Hlen & _).
  destruct (Np.unique time) as [ut ui] eqn:Hu. simpl in *.
  destruct (amin_spec ut Hune) as (tmin & -> & _).
  destruct (amax_spec ut Hune) as (tmax & -> & _).
  cbn [mbind result_bind]. unfold Np.arange.
  destruct (Qeq_bool iv 0) eqn:E; [apply Qeq_bool_iff in E; contradiction|].
  cbn [mbind result_bind].
  set (grid := map _ (seq 0 _)).
  destruct (map_values_cases (λ values, Np.take_indices values ui)
              (filter (λ kv, kv.1 ≠ "time") cv)) as [[mvd Hmvd]|(k & v & e & Hin & He & _)].
  - rewrite Hmvd. cbn [mbind result_bind].
    assert (Dict.map_values (λ mv, Np.interp grid ut mv) mvd
            = Ok ((λ kv, (kv.1, Np.interp_point (zip ut kv.2) <$> grid)) <$> mvd)) as ->.
    { apply map_values_Ok. apply map_values_Ok in Hmvd.
      clear -Hmvd Hlen Hune. induction Hmvd as [|[k v] [k' mv] d mvd [_ Hmv] _ IH]; simpl.
      - constructor.
      - constructor; [|exact IH]. split; [reflexivity|]. simpl in *.
        apply interp_Ok; [|exact Hune].
        apply take_indices_Ok, Forall2_length in Hmv. congruence. }
    cbn [mbind result_bind]. eexists. reflexivity.
  - exfalso. apply list_elem_of_filter in Hin as [Hk Hin]. simpl in Hk.
    assert (is_Ok (Np.take_indices v ui)) as [mv Hmv].
    { apply take_indices_is_Ok. intros i Hi. eapply Hcond; eauto. }
    congruence.
Qed.

Lemma apply_equidistancing_Ok_cond cv iv time :
  Dict.get "time" cv = Some time →
  is_Ok (apply_equidistancing cv iv) →
  time ≠ [] ∧
  ∀ key vs i, (key, vs) ∈ cv → key ≠ "time" → i ∈ (Np.unique time).2 →
    (i < length vs)%nat.
Proof.
  intros Htime [[[out il] fl] H].
  apply apply_equidistancing_inv in H
    as (time' & tmin & tmax & grid & mvd & eqd & Htime' & Hmin & _ & _ & Hmvd & _).
  assert (time' = time) as -> by congruence. split.
  - intros ->. discriminate.
  - intros key vs i Hin Hkey Hi.
    apply map_values_Ok in Hmvd.
    assert ((key, vs) ∈ filter (λ kv : string * list Q, kv.1 ≠ "time") cv) as Hin'
      by (apply list_elem_of_filter; split; assumption).
    apply list_elem_of_lookup in Hin' as (n & Hn).
    destruct (Forall2_lookup_l _ _ _ _ _ Hmvd Hn) as ([k' mv] & _ & _ & Hmv).
    simpl in Hmv.
    apply (proj1 (take_indices_is_Ok vs (Np.unique time).2)); [eexists; exact Hmv | exact Hi].
Qed.

Lemma apply_equidistancing_exn cv iv time e :
  Dict.get "time" cv = Some time → time ≠ [] → ¬ (iv == 0)%Q →
  apply_equidistancing cv iv = Raise e → e = IndexError.
Proof.
  intros Htime Hne Hiv. unfold apply_equidistancing, Dict.getitem.
  rewrite Htime. cbn [mbind result_bind].
  pose proof (unique_nonempty time Hne) as Hune.
  destruct (unique_spec time) as (Hlen & _).
  destruct (Np.unique time) as [ut ui] eqn:Hu. simpl in *.
  destruct (amin_spec ut Hune) as (tmin & -> & _).
  destruct (amax_spec ut Hune) as (tmax & -> & _).
  cbn [mbind result_bind]. unfold Np.arange.
  destruct (Qeq_bool iv 0) eqn:E; [apply Qeq_bool_iff in E; contradiction|].
  cbn [mbind result_bind].
  set (grid := map _ (seq 0 _)).
  destruct (map_values_cases (λ values, Np.take_indices values ui)
              (filter (λ kv, kv.1 ≠ "time") cv)) as [[mvd Hmvd]|(k & v & e' & Hin & He & ->)].
  - rewrite Hmvd. cbn [mbind result_bind].
    assert (Dict.map_values (λ mv, Np.interp grid ut mv) mvd
            = Ok ((λ kv, (kv.1, Np.interp_point (zip ut kv.2) <$> grid)) <$> mvd)) as ->.
    { apply map_values_Ok. apply map_values_Ok in Hmvd.
      clear -Hmvd Hlen Hune. induction Hmvd as [|[k v] [k' mv] d mvd [_ Hmv] _ IH]; simpl.
      - constructor.
      - constructor; [|exact IH]. split; [reflexivity|]. simpl in *.
        apply interp_Ok; [|exact Hune].
        apply take_indices_Ok, Forall2_length in Hmv. congruence. }
    cbn [mbind result_bind]. discriminate.
  - cbn [mbind result_bind]. intros [= <-]. eapply take_indices_exn, He.
Qed.


(** ** Deduplication keeps the first occurrence *)




Example equidistancing_duplicates :
  apply_equidistancing [("time", duplicate_times); ("torque", [10; 20; 30; 40]%Q)] (1 # 2)
  = Ok (resampled_duplicates, 4, 3).
Proof. reflexivity. Qed.

(** ** Channels of unequal length *)

(** C4, as the code has it. With a non-empty time channel and a non-zero
    interval, apply_equidistancing returns exactly when every other channel
    has an element at each first-occurrence position of a distinct time
    value; otherwise it raises [IndexError]. In particular it returns when
    no channel is shorter than the time channel. *)
Theorem equidistancing_unequal_lengths cv iv time :
  Dict.get "time" cv = Some time → time ≠ [] → ¬ (iv == 0)%Q →
  (is_Ok (apply_equidistancing cv iv) ↔
     ∀ key vs i, (key, vs) ∈ cv → key ≠ "time" → i ∈ (Np.unique time).2 →
       (i < length vs)%nat) ∧
  (¬ is_Ok (apply_equidistancing cv iv) →
     apply_equidistancing cv iv = Raise IndexError) ∧
  ((∀ key vs, (key, vs) ∈ cv → (length time ≤ length vs)%nat) →
     is_Ok (apply_equidistancing cv iv)).
Proof.
  intros Htime Hne Hiv. split; [split|split].
  - intros Hok. apply (apply_equidistancing_Ok_cond cv iv time Htime Hok).
  - apply apply_equidistancing_is_Ok; assumption.
  - intros Hnok. destruct (apply_equidistancing cv iv) as [r|e] eqn:E.
    + exfalso. apply Hnok. eexists; reflexivity.
    + f_equal. eapply apply_equidistancing_exn; eassumption.
  - intros Hlen. apply (apply_equidistancing_is_Ok cv iv time); try assumption.
    intros key vs i Hin _ Hi. apply unique_indices_lt in Hi.
    specialize (Hlen key vs Hin). lia.
Qed.

Lemma equidistancing_unequal_lengths_witness :
  is_Ok (apply_equidistancing
           [("time", [0; 1; 1; 3 # 4]%Q); ("torque", [10; 20; 30; 40; 50]%Q);
            ("angle", [1; 2; 3; 4]%Q)] (1 # 2)).
Proof.
  refine (proj2 (proj2 (equidistancing_unequal_lengths
    [("time", [0; 1; 1; 3 # 4]%Q); ("torque", [10; 20; 30; 40; 50]%Q);
     ("angle", [1; 2; 3; 4]%Q)] (1 # 2) [0; 1; 1; 3 # 4]%Q _ _ _)) _).
  - reflexivity.
  - discriminate.
  - vm_compute. discriminate.
  - intros key vs Hin.
    rewrite !elem_of_cons, elem_of_nil in Hin.
    destruct Hin as [[= -> ->]|[[= -> ->]|[[= -> ->]|[]]]]; simpl; lia.
Defined.

(** ** The uniform grid *)





(** C4 as stated fails: a torque channel one element shorter than the time
    channel makes apply_equidistancing, and with it the loading loop, raise
    [IndexError]. *)
Lemma equidistancing_unequal_lengths_raises :
  apply_equidistancing [("time", [0; 1; 2]%Q); ("torque", [10; 20]%Q)] interval_0012
    = Raise IndexError ∧
  load_files resampling_config [ragged_file] = Raise IndexError.
Proof. split; vm_compute; reflexivity. Qed.

(** ** Loops *)

Lemma foldM_invariant {A S} (P : S → Prop) (f : S → A → result S) l s s' :
  P s → (∀ s x s', x ∈ l → P s → f s x = Ok s' → P s') →
  foldM f s l = Ok s' → P s'.
Proof.
  revert s. induction l as [|x l IH]; intros s Hs Hstep; simpl.
  - intros [= <-]. exact Hs.
  - intros H. apply bind_Ok in H as (s1 & Hs1 & H).
    apply (IH s1); [eapply Hstep; [left | exact Hs | exact Hs1] | | exact H].
    intros s2 y s3 Hy. apply Hstep. right. exact Hy.
Qed.

Lemma index_Ok {A} (l : list A) (i : Z) x :
  Py.index l i = Ok x →
  ∃ j : nat, l !! j = Some x ∧ Z.of_nat j = (if decide (i < 0) then i + Py.len l else i).
Proof.
  unfold Py.index. set (j := if decide (i < 0) then i + Py.len l else i).
  case_decide; [discriminate|].
  destruct (l !! Z.to_nat j) eqn:E; [|discriminate].
  intros [= ->]. exists (Z.to_nat j). split; [exact E | lia].
Qed.

Lemma append_at_Ok {A} (rv : list (list A)) (i : Z) (x : A) rv' :
  Py.append_at rv i x = Ok rv' →
  ∃ (j : nat) sub, rv !! j = Some sub ∧ rv' = <[j := sub ++ [x]]> rv ∧
    Z.of_nat j = (if decide (i < 0) then i + Py.len rv else i).
Proof.
  unfold Py.append_at. intros H. apply bind_Ok in H as (sub & Hsub & H).
  apply index_Ok in Hsub as (j & Hj & Hji).
  unfold Py.setitem in H. rewrite <- Hji in H.
  case_decide; [|discriminate]. injection H as <-.
  rewrite Nat2Z.id. eauto.
Qed.

Lemma append_at_last {A} (rv : list (list A)) (x : A) rv' :
  Py.append_at rv (-1) x = Ok rv' →
  length rv' = length rv ∧ last rv' = (λ sub, sub ++ [x]) <$> last rv.
Proof.
  intros H. apply append_at_Ok in H as (j & sub & Hj & -> & Hji).
  rewrite length_insert. split; [reflexivity|].
  rewrite !last_lookup, length_insert.
  case_decide; [|lia]. unfold Py.len in Hji.
  assert (j = pred (length rv)) as <- by lia.
  rewrite list_lookup_insert_eq by (eapply lookup_lt_Some, Hj).
  rewrite Hj. reflexivity.
Qed.

Lemma append_at_other {A} (rv : list (list A)) (i : nat) (x : A) rv' :
  (S i < length rv)%nat → Py.append_at rv (Z.of_nat i) x = Ok rv' →
  length rv' = length rv ∧ last rv' = last rv.
Proof.
  intros Hi H. apply append_at_Ok in H as (j & sub & Hj & -> & Hji).
  rewrite length_insert. split; [reflexivity|].
  rewrite !last_lookup, length_insert.
  case_decide; [lia|]. apply list_lookup_insert_ne. lia.
Qed.

(** ** The loading loop *)

Lemma retain_record_Ok cfg st flabel fsteps st' :
  length (return_values st) = S (length (tightening_values cfg)) →
  retain_record cfg st flabel fsteps = Ok st' →
  all_cycle_counts st' = all_cycle_counts st ∧
  length (return_values st') = length (return_values st) ∧
  last (return_values st') = (λ sub, sub ++ [Label flabel]) <$> last (return_values st).
Proof.
  intros Hlen H. unfold retain_record in H.
  apply bind_Ok in H as (steps & _ & H).
  apply bind_Ok in H as (acv0 & _ & H).
  apply bind_Ok in H as ([acv1 elogs] & _ & H).
  apply bind_Ok in H as ([acv2 tlogs] & _ & H).
  apply bind_Ok in H as ([acv3 plogs] & _ & H).
  apply bind_Ok in H as (rv1 & Hrv1 & H).
  apply bind_Ok in H as (rv2 & Hrv2 & H).
  injection H as <-. simpl.
  apply append_at_last in Hrv2 as [Hlen2 Hlast2].
  assert (length rv1 = length (return_values st) ∧ last rv1 = last (return_values st))
    as [Hlen1 Hlast1].
  { eapply (foldM_invariant (λ rv, length rv = length (return_values st) ∧
                                    last rv = last (return_values st)));
      [split; reflexivity | | exact Hrv1].
    intros rv [i value] rv' Hin [Hl1 Hl2] Happ. simpl in Happ.
    apply bind_Ok in Happ as (values & _ & Happ).
    apply list_elem_of_lookup in Hin as (n & Hn).
    apply list_lookup_imap_Some in Hn as (value' & Hv & [= -> ->]).
    apply lookup_lt_Some in Hv.
    apply append_at_other in Happ as [Hl1' Hl2']; [|lia].
    split; congruence. }
  split; [reflexivity|]. split; [congruence|]. rewrite Hlast2, Hlast1. reflexivity.
Qed.

Lemma occurrences_snoc fid seen f :
  occurrences fid (seen ++ [f])
  = occurrences fid seen + (if bears fid f then 1 else 0).
Proof.
  unfold occurrences, Py.len. rewrite filter_app, length_app, filter_cons, filter_nil.
  destruct (bears fid f); case_decide; simpl; try congruence; lia.
Qed.

Lemma retained_from_app sel seen l1 l2 :
  retained_from sel seen (l1 ++ l2)
  = retained_from sel seen l1 ++ retained_from sel (seen ++ l1) l2.
Proof.
  revert seen. induction l1 as [|f l1 IH]; intros seen; simpl.
  - rewrite app_nil_r. reflexivity.
  - rewrite IH, <- !app_assoc. reflexivity.
Qed.

Lemma process_file_invariant cfg sel seen st f st' :
  tightening_cycles cfg = CyclesList sel →
  loop_invariant cfg sel seen st →
  process_file cfg st f = Ok st' →
  loop_invariant cfg sel (seen ++ [f]) st'.
Proof.
  intros Hsel (Hlen & Hcount & Hlast) H. unfold process_file in H.
  unfold loop_invariant. rewrite retained_from_app. simpl retained_from.
  rewrite app_nil_r. change ([] ++ seen) with seen.
  destruct (file_id f) as [fid|] eqn:Hid;
    [destruct (file_label f) as [flabel|] eqn:Hlabel;
       [destruct (file_steps f) as [fsteps|] eqn:Hsteps|]|].
  - rewrite Hsel in H. simpl in H.
    assert (∀ fid', bears fid' f = bool_decide (fid = fid')) as Hbears.
    { intros fid'. unfold bears. rewrite Hid, Hlabel, Hsteps. reflexivity. }
    assert (default 0 (all_cycle_counts st !! fid) + 1 = occurrences fid (seen ++ [f])) as Hk.
    { rewrite occurrences_snoc, Hbears, bool_decide_eq_true_2, Hcount; reflexivity. }
    rewrite Hk in H.
    assert (∀ fid', default 0 (<[fid := occurrences fid (seen ++ [f])]> (all_cycle_counts st) !! fid')
                    = occurrences fid' (seen ++ [f])) as Hcount'.
    { intros fid'. destruct (decide (fid = fid')) as [<-|Hne].
      - rewrite lookup_insert_eq. reflexivity.
      - rewrite lookup_insert_ne by exact Hne.
        rewrite occurrences_snoc, Hbears, bool_decide_eq_false_2, Hcount by exact Hne. lia. }
    rewrite orb_false_r in H.
    case_decide as Hin.
    + rewrite bool_decide_eq_true_2 in H by exact Hin.
      apply retain_record_Ok in H as (Hc & Hl & Hla); [|exact Hlen]. simpl in *.
      split; [congruence|]. split; [rewrite Hc; exact Hcount'|].
      rewrite Hla, Hlast. simpl. rewrite fmap_app. reflexivity.
    + rewrite bool_decide_eq_false_2 in H by exact Hin.
      injection H as <-. simpl.
      split; [exact Hlen|]. split; [exact Hcount'|].
      rewrite app_nil_r. exact Hlast.
  - injection H as <-. split; [exact Hlen|]. split; [|rewrite app_nil_r; exact Hlast].
    intros fid'. rewrite occurrences_snoc, Hcount. unfold bears.
    rewrite Hid, Hlabel, Hsteps. lia.
  - injection H as <-. split; [exact Hlen|]. split; [|rewrite app_nil_r; exact Hlast].
    intros fid'. rewrite occurrences_snoc, Hcount. unfold bears.
    rewrite Hid, Hlabel. lia.
  - injection H as <-. split; [exact Hlen|]. split; [|rewrite app_nil_r; exact Hlast].
    intros fid'. rewrite occurrences_snoc, Hcount. unfold bears.
    rewrite Hid. lia.
Qed.

Lemma load_loop_invariant cfg sel seen rest st st' :
  tightening_cycles cfg = CyclesList sel →
  loop_invariant cfg sel seen st →
  foldM (process_file cfg) st rest = Ok st' →
  loop_invariant cfg sel (seen ++ rest) st'.
Proof.
  intros Hsel. revert seen st. induction rest as [|f rest IH]; intros seen st Hinv; simpl.
  - intros [= <-]. rewrite app_nil_r. exact Hinv.
  - intros H. apply bind_Ok in H as (st1 & Hst1 & H).
    replace (seen ++ f :: rest) with ((seen ++ [f]) ++ rest) by (rewrite <- app_assoc; reflexivity).
    apply (IH _ st1); [|exact H].
    eapply process_file_invariant; eassumption.
Qed.

(** ** The cycle of a record *)

(** C1, as the code has it. The number the loop derives for a record is the
    count of the records bearing its id that were not skipped, up to and
    including the record itself: the k-th such record gets k. After the
    loop the counter of every id is its number of occurrences, and the label
    buffer holds the labels of exactly the records whose number is in the
    selected list. The validator turns ["all"] into the list 1..50. *)
Theorem cycle_is_occurrence_count cfg sel files st :
  tightening_cycles cfg = CyclesList sel →
  load_files cfg files = Ok st →
  (∀ fid, default 0 (all_cycle_counts st !! fid) = occurrences fid files) ∧
  last (return_values st) = Some (Label <$> retained_from sel [] files) ∧
  check_and_update_cycles (SelStr "all") = Ok valid_cycles.
Proof.
  intros Hsel H. rewrite (and_assoc _ _ _). split; [|reflexivity].
  destruct (load_loop_invariant cfg sel [] files (initial_state cfg) st Hsel) as (_ & Hc & Hl).
  - unfold loop_invariant, initial_state. cbn [return_values all_cycle_counts].
    split; [apply length_replicate|].
    split; [intros fid; reflexivity|].
    rewrite last_lookup, length_replicate. cbn [pred].
    rewrite lookup_replicate_2 by lia. reflexivity.
  - exact H.
  - auto.
Qed.

Lemma cycle_is_occurrence_count_witness :
  ∃ st, load_files three_cycles_config six_files = Ok st ∧
    (∀ fid, default 0 (all_cycle_counts st !! fid) = occurrences fid six_files) ∧
    last (return_values st) = Some (Label <$> retained_from [1; 2; 3] [] six_files) ∧
    check_and_update_cycles (SelStr "all") = Ok valid_cycles.
Proof.
  eexists. split; [vm_compute; reflexivity|].
  apply (cycle_is_occurrence_count three_cycles_config [1; 2; 3] six_files);
    vm_compute; reflexivity.
Defined.

(** C1 as stated fails: for an id occurring six times the loop derives
    1, 2, 3, 4, 5, 6, not 1, 1, 2, 2, 3, 3; with the cycles 1, 2, 3 selected
    the fourth record, of cycle [ceil(4/2) = 2], is dropped. *)
Lemma cycle_is_not_half_the_occurrence_count :
  (λ n, st ← load_files three_cycles_config (take n six_files);
        mret (all_cycle_counts st !! "A")) <$> [1; 2; 3; 4; 5; 6]%nat
    = [Ok (Some 1); Ok (Some 2); Ok (Some 3); Ok (Some 4); Ok (Some 5); Ok (Some 6)] ∧
  spec_cycle <$> [1; 2; 3; 4; 5; 6] = [1; 1; 2; 2; 3; 3] ∧
  (λ st, last (return_values st)) <$> load_files three_cycles_config six_files
    = Ok (Some [Label "L1"; Label "L2"; Label "L3"]) ∧
  spec_cycle 4 ∈ [1; 2; 3] ∧
  Label "L4" ∉ [Label "L1"; Label "L2"; Label "L3"].
Proof.
  split; [vm_compute; reflexivity|]. split; [reflexivity|].
  split; [vm_compute; reflexivity|]. split.
  - apply elem_of_cons. right. apply elem_of_cons. left. reflexivity.
  - rewrite !elem_of_cons, elem_of_nil. intros [H|[H|[H|[]]]]; discriminate.
Qed.

(** Without the validator, the string ["all"] reaches the membership test
    and the first record that is not skipped raises [TypeError]. *)
Lemma unvalidated_all_raises cfg st f s :
  tightening_cycles cfg = CyclesStr s →
  is_Some (file_id f) → is_Some (file_label f) → is_Some (file_steps f) →
  process_file cfg st f = Raise TypeError.
Proof.
  intros Hs [fid Hid] [fl Hl] [fs Hfs]. unfold process_file.
  rewrite Hid, Hl, Hfs, Hs. reflexivity.
Qed.

(** ** random.shuffle *)

Section Shuffle.

Variable rng : Type.
Variable randbelow : nat → rng → nat * rng.
Hypothesis randbelow_lt : ∀ n g, (0 < n)%nat → ((randbelow n g).1 < n)%nat.

Lemma transpose_involutive i j k : transpose i j (transpose i j k) = k.
Proof. unfold transpose. repeat case_decide; congruence. Qed.

Lemma swap_Ok (x : list nat) i j :
  (i < length x)%nat → (j < length x)%nat →
  ∃ x', swap x i j = Ok x' ∧ length x' = length x ∧
    ∀ k, x' !! k = x !! transpose i j k.
Proof.
  intros Hi Hj. unfold swap.
  destruct (lookup_lt_is_Some_2 x i Hi) as [xi Hxi].
  destruct (lookup_lt_is_Some_2 x j Hj) as [xj Hxj].
  rewrite Hxi, Hxj. eexists. split; [reflexivity|].
  split; [rewrite !length_insert; reflexivity|].
  intros k. unfold transpose. destruct (decide (k = j)) as [->|Hkj].
  - rewrite list_lookup_insert_eq by (rewrite length_insert; exact Hj).
    case_decide; congruence.
  - rewrite list_lookup_insert_ne by congruence.
    destruct (decide (k = i)) as [->|Hki].
    + rewrite list_lookup_insert_eq by exact Hi. congruence.
    + rewrite list_lookup_insert_ne by congruence. reflexivity.
Qed.

Lemma swap_Permutation (x : list nat) i j (x' : list nat) :
  NoDup x → length x' = length x → (∀ k, x' !! k = x !! transpose i j k) →
  NoDup x' ∧ x' ≡ₚ x.
Proof.
  intros Hnd Hlen Hlook.
  assert (NoDup x') as Hnd'.
  { apply NoDup_alt. intros k1 k2 v H1 H2. rewrite Hlook in H1, H2.
    pose proof (proj1 (NoDup_alt x) Hnd _ _ _ H1 H2) as Heq.
    rewrite <- (transpose_involutive i j k1), Heq. apply transpose_involutive. }
  split; [exact Hnd'|].
  apply NoDup_Permutation; [exact Hnd' | exact Hnd|].
  intros v. rewrite !list_elem_of_lookup. split; intros [k Hk].
  - exists (transpose i j k). rewrite <- Hlook. exact Hk.
  - exists (transpose i j k). rewrite Hlook, transpose_involutive. exact Hk.
Qed.

Lemma shuffle_from_Ok i x g :
  NoDup x → (i < length x)%nat ∨ (i = 0)%nat →
  ∃ x', (shuffle_from rng randbelow i x g).1 = Ok x' ∧ NoDup x' ∧ x' ≡ₚ x.
Proof.
  revert x g. induction i as [|i IH]; intros x g Hnd Hi; simpl.
  - exists x. auto.
  - destruct Hi as [Hi|Hi]; [|discriminate].
    pose proof (randbelow_lt (S (S i)) g ltac:(lia)) as Hj.
    destruct (randbelow (S (S i)) g) as [j g']. simpl in Hj.
    destruct (swap_Ok x (S i) j) as (x1 & -> & Hlen & Hlook); [lia | lia |].
    destruct (swap_Permutation x (S i) j x1 Hnd Hlen Hlook) as [Hnd1 Hp1].
    destruct (IH x1 g' Hnd1) as (x' & Hx' & Hnd' & Hp'); [left; lia|].
    exists x'. split; [exact Hx'|]. split; [exact Hnd'|].
    etransitivity; eassumption.
Qed.

Lemma shuffle_Ok (n : nat) g :
  ∃ indices, (shuffle rng randbelow (seq 0 n) g).1 = Ok indices ∧ indices ≡ₚ seq 0 n.
Proof.
  unfold shuffle.
  destruct (shuffle_from_Ok (length (seq 0 n) - 1) (seq 0 n) g) as (x' & Hx' & _ & Hp).
  - apply NoDup_seq.
  - rewrite length_seq. lia.
  - eauto.
Qed.

End Shuffle.

(** ** apply_split *)

Lemma init_last {A} (l : list A) :
  l ≠ [] → ∃ y, Py.index l (-1) = Ok y ∧ Py.slice_to l (-1) ++ [y] = l ∧
    length (Py.slice_to l (-1)) = pred (length l).
Proof.
  intros Hne. destruct (exists_last Hne) as (l' & y & ->). exists y.
  unfold Py.index, Py.slice_to, Py.clamp, Py.len. rewrite length_app. simpl.
  repeat case_decide; try lia.
  assert (Z.to_nat (-1 + Z.of_nat (length l' + 1)) = length l') as E1 by lia.
  assert (Z.to_nat (Z.min (Z.max (-1 + Z.of_nat (length l' + 1)) 0)
                       (Z.of_nat (length l' + 1))) = length l') as E2 by lia.
  rewrite E1, E2.
  rewrite lookup_app_r, Nat.sub_diag by lia. simpl.
  rewrite take_app_length. split; [reflexivity|]. split; [reflexivity | lia].
Qed.

Lemma int_of_float_floor (q : Q) : (0 <= q)%Q → Py.int_of_float q = Qfloor q.
Proof.
  destruct q as [n d]. unfold Qle, Py.int_of_float, Qfloor. simpl. intros Hn.
  apply Z.quot_div_nonneg; lia.
Qed.

Lemma split_index_bounds (N : nat) (r : Q) :
  (0 < r)%Q → (r < 1)%Q →
  0 ≤ Qfloor (inject_Z (Z.of_nat N) * r) ≤ Z.of_nat N.
Proof.
  intros H0 H1.
  assert (0 <= inject_Z (Z.of_nat N))%Q as HN by (rewrite <- (Zle_Qle 0); lia).
  split.
  - rewrite <- (Qfloor_Z 0). apply Qfloor_resp_le.
    change (inject_Z 0) with 0%Q. apply Qmult_le_0_compat; [exact HN | lra].
  - rewrite <- (Qfloor_Z (Z.of_nat N)) at 2. apply Qfloor_resp_le.
    rewrite <- (Qmult_1_l (inject_Z (Z.of_nat N))) at 2.
    rewrite (Qmult_comm (inject_Z (Z.of_nat N)) r).
    apply Qmult_le_compat_r; [lra | exact HN].
Qed.

Section Split.

Context {A : Type}.
Variable tolist : A → A.
Variable rng : Type.
Variable random_seed : Z → rng.
Variable randbelow : nat → rng → nat * rng.

Lemma pick_Ok (indices : list nat) (values : list A) :
  Forall (λ i, (i < length values)%nat) indices →
  ∃ l, pick indices values = Ok l ∧ tolist <$> l = permute tolist indices values.
Proof.
  induction 1 as [|i indices Hi _ (l & Hl & Hperm)].
  - exists []. split; reflexivity.
  - destruct (lookup_lt_is_Some_2 values i Hi) as [v Hv].
    exists (v :: l). unfold pick in *. cbn [mapM]. rewrite Hv. cbn [mbind result_bind].
    rewrite Hl. split; [reflexivity|].
    unfold permute in *. cbn [omap list_omap]. rewrite Hv. cbn [fmap option_fmap option_map].
    rewrite <- Hperm. reflexivity.
Qed.

Lemma permute_lookup (indices : list nat) (values : list A) k i :
  Forall (λ i, (i < length values)%nat) indices →
  indices !! k = Some i →
  permute tolist indices values !! k = tolist <$> values !! i ∧ is_Some (values !! i).
Proof.
  intros Hall. revert k. induction Hall as [|i0 indices Hi0 _ IH]; intros k Hk.
  - discriminate.
  - destruct (lookup_lt_is_Some_2 values i0 Hi0) as [v Hv].
    unfold permute in *. cbn [omap list_omap]. rewrite Hv.
    cbn [fmap option_fmap option_map].
    destruct k as [|k]; simpl in Hk.
    + injection Hk as <-. rewrite Hv. split; [reflexivity | eauto].
    + apply IH, Hk.
Qed.

Lemma permute_length (indices : list nat) (values : list A) :
  Forall (λ i, (i < length values)%nat) indices →
  length (permute tolist indices values) = length indices.
Proof.
  induction 1 as [|i indices Hi _ IH]; [reflexivity|].
  destruct (lookup_lt_is_Some_2 values i Hi) as [v Hv].
  unfold permute in *. cbn [omap list_omap]. rewrite Hv.
  cbn [fmap option_fmap option_map length]. rewrite IH. reflexivity.
Qed.

Lemma shuffled_data_Ok (data : list (list A)) (indices : list nat) (N : nat) :
  Forall (λ values, length values = N) data → Forall (λ i, (i < N)%nat) indices →
  ∃ shuffled_data, mapM (pick indices) data = Ok shuffled_data ∧
    flatten tolist shuffled_data = permute tolist indices <$> data.
Proof.
  intros Hdata Hidx. induction Hdata as [|values data Hlen _ (sd & Hsd & Hflat)].
  - exists []. split; reflexivity.
  - destruct (pick_Ok indices values) as (l & Hl & Hperm); [rewrite Hlen; exact Hidx|].
    exists (l :: sd). simpl. rewrite Hl. simpl. rewrite Hsd. simpl.
    split; [reflexivity|]. unfold flatten in *. simpl. rewrite Hperm, Hflat. reflexivity.
Qed.

Lemma split_shuffled_whole (data : list (list A)) (indices : list nat) (N : nat) ratio :
  data ≠ [] → Forall (λ values, length values = N) data →
  Forall (λ i, (i < N)%nat) indices →
  match ratio with
  | Some r => Py.float_lt 0 r && Py.float_lt r 1 = false
  | None => True
  end →
  ∃ x_values y_values,
    split_shuffled tolist data N indices ratio = Ok (Whole x_values y_values) ∧
    x_values ++ [y_values] = permute tolist indices <$> data.
Proof.
  intros Hne Hdata Hidx Hratio. unfold split_shuffled.
  destruct (shuffled_data_Ok data indices N Hdata Hidx) as (sd & -> & Hflat).
  cbn [mbind result_bind]. cbv zeta. rewrite !Hflat. clear Hflat sd.
  destruct (init_last (permute tolist indices <$> data)) as (y & Hy & Hinit & _).
  { destruct data; [done | discriminate]. }
  assert ((Py.index (permute tolist indices <$> data) (-1)
           ≫= λ y_values, mret (Whole (Py.slice_to (permute tolist indices <$> data) (-1)) y_values))
          = Ok (Whole (Py.slice_to (permute tolist indices <$> data) (-1)) y)) as Hwhole.
  { rewrite Hy. reflexivity. }
  exists (Py.slice_to (permute tolist indices <$> data) (-1)), y.
  split; [|exact Hinit].
  destruct ratio as [r|]; [rewrite Hratio|]; exact Hwhole.
Qed.

Lemma split_shuffled_ratio (data : list (list A)) (indices : list nat) (N : nat) r :
  data ≠ [] → Forall (λ values, length values = N) data →
  Forall (λ i, (i < N)%nat) indices → length indices = N →
  (0 < r)%Q → (r < 1)%Q →
  let s := Z.to_nat (Qfloor (inject_Z (Z.of_nat N) * r)) in
  ∃ x_train x_test y_train y_test,
    split_shuffled tolist data N indices (Some r)
      = Ok (TrainTest x_train x_test y_train y_test) ∧
    x_train ++ [y_train] = take s <$> (permute tolist indices <$> data) ∧
    x_test ++ [y_test] = drop s <$> (permute tolist indices <$> data) ∧
    length x_train = pred (length data) ∧ length x_test = pred (length data).
Proof.
  intros Hne Hdata Hidx Hlen H0 H1 s. unfold split_shuffled.
  destruct (shuffled_data_Ok data indices N Hdata Hidx) as (sd & -> & Hflat).
  cbn [mbind result_bind]. cbv zeta. rewrite !Hflat. clear Hflat sd.
  assert (Py.float_lt 0 r && Py.float_lt r 1 = true) as ->.
  { unfold Py.float_lt. apply andb_true_iff. split; apply negb_true_iff.
    - destruct (Qle_bool r 0) eqn:E; [apply Qle_bool_iff in E; lra | reflexivity].
    - destruct (Qle_bool 1 r) eqn:E; [apply Qle_bool_iff in E; lra | reflexivity]. }
  pose proof (split_index_bounds N r H0 H1) as Hs.
  rewrite int_of_float_floor
    by (apply Qmult_le_0_compat; [rewrite <- (Zle_Qle 0); lia | lra]).
  set (flat := permute tolist indices <$> data).
  assert (Forall (λ values, length values = N) flat) as Hflat.
  { unfold flat. rewrite Forall_fmap. eapply Forall_impl; [exact Hdata|].
    simpl. intros values Hv. rewrite permute_length; [exact Hlen | rewrite Hv; exact Hidx]. }
  assert ((λ values : list A, Py.slice_to values (Qfloor (inject_Z (Z.of_nat N) * r))) <$> flat
          = take s <$> flat) as ->.
  { apply Forall_fmap_ext. eapply Forall_impl; [exact Hflat|]. cbv beta. intros values Hv.
    unfold Py.slice_to, Py.clamp, Py.len. case_decide; [lia|].
    rewrite Hv. f_equal. unfold s. lia. }
  assert ((λ values : list A, Py.slice_from values (Qfloor (inject_Z (Z.of_nat N) * r))) <$> flat
          = drop s <$> flat) as ->.
  { apply Forall_fmap_ext. eapply Forall_impl; [exact Hflat|]. cbv beta. intros values Hv.
    unfold Py.slice_from, Py.clamp, Py.len. case_decide; [lia|].
    rewrite Hv. f_equal. unfold s. lia. }
  assert (flat ≠ []) as Hflatne by (unfold flat; destruct data; [done | discriminate]).
  destruct (init_last (take s <$> flat)) as (ytr & -> & Htr & Hltr).
  { destruct flat; [done | discriminate]. }
  destruct (init_last (drop s <$> flat)) as (yte & -> & Hte & Hlte).
  { destruct flat; [done | discriminate]. }
  cbn [mbind result_bind]. do 4 eexists. split; [reflexivity|].
  split; [exact Htr|]. split; [exact Hte|].
  rewrite Hltr, Hlte, !length_fmap. unfold flat. rewrite length_fmap. auto.
Qed.

End Split.

Lemma zip_with_take_drop {A} (n : nat) (l : list (list A)) :
  zip_with app (take n <$> l) (drop n <$> l) = l.
Proof.
  induction l as [|x l IH]; [reflexivity|].
  rewrite !fmap_cons. cbn [zip_with]. rewrite take_drop, IH. reflexivity.
Qed.

Lemma float_lt_true a b : Py.float_lt a b = true → (a < b)%Q.
Proof.
  unfold Py.float_lt. intros H. apply negb_true_iff in H.
  apply Qnot_le_lt. intros Hle. apply Qle_bool_iff in Hle. congruence.
Qed.

Section ApplySplit.

Context {A : Type}.
Variable tolist : A → A.
Variable rng : Type.
Variable random_seed : Z → rng.
Variable randbelow : nat → rng → nat * rng.
Hypothesis randbelow_lt : ∀ n g, (0 < n)%nat → ((randbelow n g).1 < n)%nat.

Lemma apply_split_shuffled (data : list (list A)) ratio seed g N :
  data ≠ [] → Forall (λ values, length values = N) data →
  ∃ indices,
    indices ≡ₚ seq 0 N ∧
    (shuffled_indices rng random_seed randbelow N seed g).1 = Ok indices ∧
    (apply_split tolist rng random_seed randbelow data ratio seed g).1
      = split_shuffled tolist data N indices ratio.
Proof.
  intros Hne Hdata. destruct data as [|data0 data]; [done|].
  apply Forall_cons in Hdata as [Hlen0 Hdata].
  unfold apply_split, Py.index. simpl. rewrite Hlen0.
  unfold shuffled_indices.
  destruct (shuffle_Ok rng randbelow randbelow_lt N (seed_generator rng random_seed seed g))
    as (indices & Hidx & Hperm).
  exists indices. split; [exact Hperm|]. split; [exact Hidx|].
  destruct (shuffle rng randbelow (seq 0 N) _) as [r g']. simpl in Hidx. subst r.
  reflexivity.
Qed.

Lemma permutation_indices (indices : list nat) (N : nat) :
  indices ≡ₚ seq 0 N → Forall (λ i, (i < N)%nat) indices ∧ length indices = N.
Proof.
  intros Hp. split.
  - rewrite Hp. apply Forall_forall. intros i Hi. apply elem_of_seq in Hi. lia.
  - rewrite Hp. apply length_seq.
Qed.

(** C6. With a seed, the shuffled indices and the whole result of
    apply_split (the split and the generator state left behind) are the
    same whatever state the generator was in before the call. *)
Theorem apply_split_seed_deterministic (data : list (list A)) ratio seed (g1 g2 : rng) (n : nat) :
  shuffled_indices rng random_seed randbelow n (Some seed) g1
    = shuffled_indices rng random_seed randbelow n (Some seed) g2 ∧
  apply_split tolist rng random_seed randbelow data ratio (Some seed) g1
    = apply_split tolist rng random_seed randbelow data ratio (Some seed) g2.
Proof. split; reflexivity. Qed.

(** C7. For a generator whose [randbelow n] stays below [n] and a non-empty
    buffer whose sublists (the channels and the labels) all have length
    [N], apply_split returns; the shuffled indices
    are a permutation of [0 .. N - 1]; and every sublist of the result,
    train and test parts joined, is the corresponding input sublist read at
    these same indices: its k-th element is element [indices[k]] of the
    input sublist. *)
Theorem apply_split_same_permutation (data : list (list A)) ratio seed g N :
  data ≠ [] → Forall (λ values, length values = N) data →
  ∃ indices out,
    indices ≡ₚ seq 0 N ∧
    (shuffled_indices rng random_seed randbelow N seed g).1 = Ok indices ∧
    (apply_split tolist rng random_seed randbelow data ratio seed g).1 = Ok out ∧
    rejoin out = permute tolist indices <$> data ∧
    ∀ values k i, values ∈ data → indices !! k = Some i →
      permute tolist indices values !! k = tolist <$> values !! i ∧ is_Some (values !! i).
Proof.
  intros Hne Hdata.
  destruct (apply_split_shuffled data ratio seed g N Hne Hdata) as (indices & Hperm & Hidx & ->).
  destruct (permutation_indices indices N Hperm) as [Hlt Hlen].
  assert (∀ values k i, values ∈ data → indices !! k = Some i →
            permute tolist indices values !! k = tolist <$> values !! i
            ∧ is_Some (values !! i)) as Hpoint.
  { intros values k i Hin Hk. apply permute_lookup; [|exact Hk].
    rewrite Forall_forall in Hdata. rewrite (Hdata values Hin). exact Hlt. }
  assert (match ratio with
          | Some r => Py.float_lt 0 r && Py.float_lt r 1 = false
          | None => True
          end ∨ ∃ r, ratio = Some r ∧ (0 < r)%Q ∧ (r < 1)%Q) as [Hwhole|(r & -> & H0 & H1)].
  { destruct ratio as [r|]; [|left; exact I].
    destruct (Py.float_lt 0 r) eqn:E0; [|left; reflexivity].
    destruct (Py.float_lt r 1) eqn:E1; [|left; reflexivity].
    right. exists r. split; [reflexivity|]. split; apply float_lt_true; assumption. }
  - destruct (split_shuffled_whole tolist data indices N ratio Hne Hdata Hlt Hwhole)
      as (x & y & Hout & Hxy).
    exists indices, (Whole x y). auto.
  - destruct (split_shuffled_ratio tolist data indices N r Hne Hdata Hlt Hlen H0 H1)
      as (xtr & xte & ytr & yte & Hout & Htr & Hte & _).
    exists indices, (TrainTest xtr xte ytr yte).
    split; [exact Hperm|]. split; [exact Hidx|]. split; [exact Hout|].
    split; [|exact Hpoint].
    simpl. rewrite Htr, Hte. apply zip_with_take_drop.
Qed.


End ApplySplit.

Lemma lcg_randbelow_lt n g : (0 < n)%nat → ((lcg_randbelow n g).1 < n)%nat.
Proof.
  intros Hn. unfold lcg_randbelow. simpl.
  pose proof (Z.mod_pos_bound ((g * 1103515245 + 12345) `mod` 2147483648 / 65536) (Z.of_nat n)).
  lia.
Qed.

Lemma apply_split_same_permutation_witness :
  ∃ indices out,
    indices ≡ₚ seq 0 5 ∧
    (shuffled_indices Z lcg_seed lcg_randbelow 5 (Some 42) 0).1 = Ok indices ∧
    (apply_split id Z lcg_seed lcg_randbelow sample_buffer (Some (6 # 10)) (Some 42) 0).1
      = Ok out ∧
    rejoin out = permute id indices <$> sample_buffer ∧
    ∀ values k i, values ∈ sample_buffer → indices !! k = Some i →
      permute id indices values !! k = id <$> values !! i ∧ is_Some (values !! i).
Proof.
  apply (apply_split_same_permutation id Z lcg_seed lcg_randbelow lcg_randbelow_lt
           sample_buffer (Some (6 # 10)) (Some 42) 0 5).
  - discriminate.
  - repeat constructor.
Defined.


(** The buffer of the unit test, split with the sample generator. *)
Example apply_split_sample :
  (apply_split id Z lcg_seed lcg_randbelow sample_buffer (Some (6 # 10)) (Some 42) 0).1
  = Ok (TrainTest [[1; 4; 3]; [6; 9; 8]] [[5; 2]; [10; 7]] [10; 40; 30] [50; 20]).
Proof. reflexivity. Qed.

(** Without a seed the result depends on the state the generator is in. *)
Example apply_split_unseeded_depends_on_state :
  (apply_split id Z lcg_seed lcg_randbelow sample_buffer None None 1).1
  ≠ (apply_split id Z lcg_seed lcg_randbelow sample_buffer None None 2).1.
Proof. vm_compute. discriminate. Qed.

(** ** apply_conversion *)

Section Conversion.

Variable np_array : value → result value.

Lemma binarize_at_list (σ : gmap loc (list value)) l items (k : nat) labels :
  σ !! l = Some items → items !! k = Some (VList labels) →
  binarize_at (ListObj l) (Z.of_nat k) σ
  = (Ok (), <[l := <[k := VList (binary_of <$> labels)]> items]> σ).
Proof.
  intros Hσ Hk. unfold binarize_at, contents. rewrite Hσ. simpl.
  pose proof (lookup_lt_Some _ _ _ Hk) as Hlt.
  unfold Py.index, Py.setitem, Py.len.
  repeat case_decide; try lia.
  rewrite Nat2Z.id, Hk. simpl. reflexivity.
Qed.

Lemma apply_return_format_store (σ : gmap loc (list value)) (data : container)
    return_format l items :
  σ !! l = Some items →
  (apply_return_format np_array data return_format σ).2 !! l = Some items.
Proof.
  intros Hl. unfold apply_return_format. repeat case_decide; try exact Hl.
  destruct (mapM np_array (contents σ data)); [|exact Hl].
  simpl. rewrite lookup_insert_ne; [exact Hl|].
  intros Heq. pose proof (is_fresh (dom σ)) as Hfresh.
  rewrite Heq in Hfresh. apply Hfresh, elem_of_dom. eauto.
Qed.


(** A tuple, which is what apply_split returns, cannot be assigned to: with
    ["binary"] the call raises and the store is unchanged. *)
Lemma apply_conversion_tuple_raises items x2 return_format (σ : gmap loc (list value)) :
  length items = 4%nat → items !! 2%nat = Some x2 →
  ∃ e, apply_conversion np_array (TupleObj items) "binary" return_format σ = (Raise e, σ).
Proof.
  intros Hlen H2. unfold apply_conversion, apply_result_format.
  cbn [contents]. unfold Py.len. rewrite Hlen.
  repeat (case_decide; try done).
  unfold binarize_at. cbn [contents]. unfold Py.index, Py.len. rewrite Hlen.
  repeat (case_decide; try lia). change (Z.to_nat 2) with 2%nat. rewrite H2.
  cbn [mbind result_bind].
  destruct (convert_to_binary x2); eexists; reflexivity.
Qed.

End Conversion.


(** * Further properties *)

(** ** Truncation and padding: which elements are kept *)

Lemma truncate_sequence_positive {A} (seq : list A) (t : Z) (pos : string) :
  0 < t →
  truncate_sequence seq t pos
    = (if decide (pos = "pre") then drop (length seq - Z.to_nat t) seq
       else take (Z.to_nat t) seq) ∧
  (Py.len seq ≤ t → truncate_sequence seq t pos = seq).
Proof.
  intros Ht. unfold truncate_sequence, Py.slice_from, Py.slice_to, Py.clamp, Py.len.
  destruct (decide (pos = "pre")).
  - case_decide; [|lia]. split.
    + f_equal. lia.
    + intros Hle. replace (Z.to_nat _) with 0%nat by lia. reflexivity.
  - case_decide; [lia|]. split.
    + destruct (decide (Z.to_nat t ≤ length seq)%nat).
      * f_equal. lia.
      * rewrite !take_ge by lia. reflexivity.
    + intros Hle. apply take_ge. lia.
Qed.

(** X2. A target length that is not positive (the validator rejects it, the
    function does not): with ["pre"], [seq[-target_length:]] drops the first
    [-target_length] elements, so a target of 0 keeps the whole sequence;
    otherwise [seq[:target_length]] is empty for 0 and drops the last
    [-target_length] elements for a negative target. *)
Lemma truncate_sequence_nonpositive {A} (seq : list A) (t : Z) (pos : string) :
  t ≤ 0 →
  truncate_sequence seq t pos
    = (if decide (pos = "pre") then drop (Z.to_nat (- t)) seq
       else if decide (t = 0) then []
       else take (length seq - Z.to_nat (- t)) seq).
Proof.
  intros Ht. unfold truncate_sequence, Py.slice_from, Py.slice_to, Py.clamp, Py.len.
  destruct (decide (pos = "pre")).
  - case_decide; [lia|].
    destruct (decide (Z.to_nat (- t) ≤ length seq)%nat).
    + f_equal. lia.
    + rewrite !drop_ge by lia. reflexivity.
  - destruct (decide (t = 0)) as [->|Hne].
    + case_decide; [lia|]. replace (Z.to_nat _) with 0%nat by lia. reflexivity.
    + case_decide; [|lia]. f_equal. lia.
Qed.

Lemma truncate_sequence_nonpositive_witness :
  truncate_sequence [1; 2; 3] 0 "pre" = [1; 2; 3] ∧
  truncate_sequence [1; 2; 3] 0 "post" = [] ∧
  truncate_sequence [1; 2; 3] (-1) "post" = [1; 2].
Proof.
  split; [|split].
  - exact (truncate_sequence_nonpositive [1; 2; 3] 0 "pre" ltac:(lia)).
  - exact (truncate_sequence_nonpositive [1; 2; 3] 0 "post" ltac:(lia)).
  - exact (truncate_sequence_nonpositive [1; 2; 3] (-1) "post" ltac:(lia)).
Defined.

Lemma truncate_sequence_idem {A} (seq : list A) (t : Z) (pos : string) :
  0 < t →
  truncate_sequence (truncate_sequence seq t pos) t pos = truncate_sequence seq t pos.
Proof.
  intros Ht. apply truncate_sequence_positive; [exact Ht|].
  rewrite truncate_sequence_len by exact Ht. lia.
Qed.

Lemma dict_get_fmap {V W} (f : V → W) (d : dict V) k :
  Dict.get k ((λ kv : string * V, (kv.1, f kv.2)) <$> d) = f <$> Dict.get k d.
Proof.
  induction d as [|[k0 v0] d IH]; [reflexivity|].
  rewrite fmap_cons. cbn [Dict.get fst snd]. case_decide; [reflexivity | exact IH].
Qed.

(** X1. What apply_truncating keeps, for a positive target length: the
    keys in their order, and of every channel its last [target_length]
    elements with ["pre"], its first [target_length] elements otherwise (the
    whole channel when it is not longer than that). *)
Theorem apply_truncating_content (cv : dict (list Q)) t pos out il fl :
  0 < t → apply_truncating cv t pos = Ok (out, il, fl) →
  out.*1 = cv.*1 ∧
  ∀ k seq, Dict.get k cv = Some seq →
    Dict.get k out
    = Some (if decide (pos = "pre") then drop (length seq - Z.to_nat t) seq
            else take (Z.to_nat t) seq).
Proof.
  intros Ht H. unfold apply_truncating in H.
  apply bind_Ok in H as (first & _ & H).
  apply bind_Ok in H as (first' & _ & H).
  injection H as <- _ _. split.
  - rewrite <- list_fmap_compose. reflexivity.
  - intros k seq Hk. rewrite (dict_get_fmap (λ v, truncate_sequence v t pos)), Hk.
    cbn [fmap option_fmap option_map]. f_equal.
    apply truncate_sequence_positive, Ht.
Qed.

Lemma apply_truncating_content_witness :
  ∃ out, apply_truncating sample_cycle_values 2 "pre" = Ok (out, 3, 2) ∧
    out.*1 = sample_cycle_values.*1 ∧
    ∀ k seq, Dict.get k sample_cycle_values = Some seq →
      Dict.get k out = Some (drop (length seq - 2) seq).
Proof.
  eexists. split; [reflexivity|].
  apply (apply_truncating_content sample_cycle_values 2 "pre" _ 3 2); [lia | reflexivity].
Defined.

(** X3. Truncating twice with the same positive target changes nothing
    more: the second call returns the same map, with equal initial and
    final lengths, and the final length of the first call is
    [min(initial_length, target_length)]. *)
Theorem apply_truncating_idem (cv : dict (list Q)) t pos out il fl :
  0 < t → apply_truncating cv t pos = Ok (out, il, fl) →
  apply_truncating out t pos = Ok (out, fl, fl) ∧
  fl = Z.min il t.
Proof.
  intros Ht H. unfold apply_truncating in H.
  destruct cv as [|[k0 s0] cv]; [discriminate|].
  cbn [Dict.first_value mbind result_bind fmap list_fmap] in H.
  injection H as <- <- <-.
  set (f := λ kv : string * list Q, (kv.1, truncate_sequence kv.2 t pos)).
  assert (∀ l : list (string * list Q), f <$> (f <$> l) = f <$> l) as Hidem.
  { intros l. rewrite <- list_fmap_compose. apply list_fmap_ext. intros _ [k s] _.
    unfold f. simpl. rewrite truncate_sequence_idem by exact Ht. reflexivity. }
  split.
  - unfold apply_truncating.
    cbn [Dict.first_value mbind result_bind fmap list_fmap].
    fold f. change (f (k0, s0)) with (k0, truncate_sequence s0 t pos).
    cbn [fst snd].
    rewrite truncate_sequence_idem by exact Ht. rewrite Hidem. reflexivity.
  - cbn [fst snd]. apply truncate_sequence_len, Ht.
Qed.

Lemma apply_truncating_idem_witness :
  ∃ out, apply_truncating sample_cycle_values 2 "post" = Ok (out, 3, 2) ∧
    apply_truncating out 2 "post" = Ok (out, 2, 2) ∧ 2 = Z.min 3 2.
Proof.
  eexists. split; [reflexivity|].
  apply (apply_truncating_idem sample_cycle_values 2 "post" _ 3 2); [lia | reflexivity].
Defined.

(** ** Padding *)

Lemma pad_sequence_content seq t v pos :
  Py.len seq ≤ t →
  pad_sequence seq t v pos
  = Ok (if decide (pos = "pre") then replicate (Z.to_nat (t - Py.len seq)) v ++ seq
        else seq ++ replicate (Z.to_nat (t - Py.len seq)) v).
Proof.
  intros Hle. unfold pad_sequence, Np.pad.
  destruct (decide (pos = "pre")); case_decide; try lia; simpl; rewrite ?app_nil_r; reflexivity.
Qed.

(** X4. Padding and then truncating back to the original length, at the
    same position, is the identity on a non-empty sequence: [pad_sequence]
    adds the padding on the side [truncate_sequence] removes it from. *)
Theorem pad_then_truncate seq t v pos padded :
  pad_sequence seq t v pos = Ok padded →
  0 < Py.len seq →
  truncate_sequence padded (Py.len seq) pos = seq ∧ Py.len padded = t.
Proof.
  intros Hpad Hpos.
  assert (Py.len seq ≤ t) as Hle.
  { destruct (Z_le_gt_dec (Py.len seq) t) as [|Hgt]; [assumption|].
    rewrite pad_sequence_long in Hpad by lia. discriminate. }
  rewrite pad_sequence_content in Hpad by exact Hle. injection Hpad as <-.
  destruct (truncate_sequence_positive
              (if decide (pos = "pre") then replicate (Z.to_nat (t - Py.len seq)) v ++ seq
               else seq ++ replicate (Z.to_nat (t - Py.len seq)) v)
              (Py.len seq) pos Hpos) as [-> _].
  unfold Py.len in *. rewrite Nat2Z.id.
  destruct (decide (pos = "pre")) as [->|Hne].
  - rewrite length_app, length_replicate. split.
    + replace (_ + _ - _)%nat with (length (replicate (Z.to_nat (t - Z.of_nat (length seq))) v))
        by (rewrite length_replicate; lia).
      apply drop_app_length.
    + lia.
  - split.
    + apply take_app_length.
    + rewrite length_app, length_replicate. lia.
Qed.

Lemma pad_then_truncate_witness :
  pad_sequence [5; 6; 7]%Q 5 0%Q "pre" = Ok [0; 0; 5; 6; 7]%Q ∧
  truncate_sequence [0; 0; 5; 6; 7]%Q (Py.len [5; 6; 7]%Q) "pre" = [5; 6; 7]%Q ∧
  Py.len [0; 0; 5; 6; 7]%Q = 5.
Proof.
  split; [reflexivity|].
  apply (pad_then_truncate [5; 6; 7]%Q 5 0%Q "pre" [0; 0; 5; 6; 7]%Q);
    [reflexivity | unfold Py.len; simpl; lia].
Defined.

Lemma linspace_points (num : Z) (i : nat) (x : Q) grid :
  Np.linspace 0 (inject_Z (num - 1) * interval_0012) num = Ok grid →
  grid !! i = Some x →
  (x == inject_Z (Z.of_nat i) * interval_0012)%Q.
Proof.
  unfold Np.linspace. case_decide as Hneg; [discriminate|]. intros [= <-] Hi.
  rewrite list_lookup_fmap in Hi.
  destruct (seq 0 (Z.to_nat num) !! i) as [j|] eqn:Hj; [|discriminate].
  apply lookup_seq in Hj as [-> Hlt]. simpl in Hi. injection Hi as <-.
  case_decide as H1.
  - assert (¬ inject_Z (num - 1) == 0)%Q as Hnz.
    { intros Heq. apply (inject_Z_injective (num - 1) 0) in Heq. lia. }
    field. exact Hnz.
  - assert (i = 0%nat) as -> by lia. simpl. ring.
Qed.

(** X5. What apply_padding returns: the ["time"] channel is replaced (or
    added, when the input has none) by the grid [i * 0.0012] for
    [i = 0 .. target_length - 1], whatever the input times were, and every
    other channel is its padded sequence. *)
Theorem apply_padding_time (cv : dict (list Q)) v pos t out il fl :
  apply_padding cv v pos t = Ok (out, il, fl) →
  ∃ grid,
    Dict.get "time" out = Some grid ∧
    Py.len grid = t ∧
    (∀ (i : nat) x, grid !! i = Some x → (x == inject_Z (Z.of_nat i) * interval_0012)%Q) ∧
    (∀ k seq, k ≠ "time" → Dict.get k cv = Some seq →
       ∃ padded, pad_sequence seq t v pos = Ok padded ∧ Dict.get k out = Some padded).
Proof.
  intros H. unfold apply_padding in H.
  apply bind_Ok in H as (first & _ & H).
  apply bind_Ok in H as (padded & Hpadded & H).
  apply bind_Ok in H as (grid & Hgrid & H).
  apply bind_Ok in H as (first' & _ & H).
  injection H as <- _ _.
  exists grid. split; [apply dict_get_set_eq|]. split; [|split].
  - unfold Np.linspace in Hgrid. case_decide; [discriminate|]. injection Hgrid as <-.
    unfold Py.len. rewrite length_map, length_seq. lia.
  - intros i x. apply (linspace_points t i x grid Hgrid).
  - intros k seq Hk Hget. rewrite dict_get_set_ne by congruence.
    pose proof (map_values_get _ _ _ k Hpadded) as Hg. rewrite Hget in Hg. exact Hg.
Qed.

Lemma apply_padding_time_witness :
  ∃ out grid,
    apply_padding sample_cycle_values 0%Q "post" 4 = Ok (out, 3, 4) ∧
    Dict.get "time" out = Some grid ∧
    Py.len grid = 4 ∧
    (∀ (i : nat) x, grid !! i = Some x → (x == inject_Z (Z.of_nat i) * interval_0012)%Q) ∧
    (∀ k seq, k ≠ "time" → Dict.get k sample_cycle_values = Some seq →
       ∃ padded, pad_sequence seq 4 0%Q "post" = Ok padded ∧ Dict.get k out = Some padded).
Proof.
  destruct (apply_padding sample_cycle_values 0%Q "post" 4) as [[[out il] fl]|e] eqn:E;
    [|vm_compute in E; discriminate].
  destruct (apply_padding_time sample_cycle_values 0%Q "post" 4 out il fl E) as (grid & H).
  exists out, grid. split; [|exact H].
  vm_compute in E. injection E as <- <- <-. reflexivity.
Defined.

(** ** Resampling: shape, errors, fixed points *)

Lemma dict_set_fresh {V} k (v : V) (d : dict V) :
  Dict.get k d = None → Dict.set k v d = d ++ [(k, v)].
Proof.
  induction d as [|[k0 v0] d IH]; simpl; [reflexivity|].
  case_decide; [discriminate|]. intros H'. rewrite IH by exact H'. reflexivity.
Qed.

Lemma dict_get_None_fmap {V} k (d : dict V) : Dict.get k d = None ↔ k ∉ d.*1.
Proof.
  induction d as [|[k0 v0] d IH]; simpl.
  - split; [intros _ H; inversion H | reflexivity].
  - rewrite not_elem_of_cons. case_decide; split; try discriminate.
    + intros [Hne _]. congruence.
    + intros Hn. split; [congruence | apply IH, Hn].
    + intros [_ Hn]. apply IH, Hn.
Qed.

Lemma map_values_keys {V W} (f : V → result W) (d : dict V) out :
  Dict.map_values f d = Ok out → out.*1 = d.*1.
Proof.
  intros H. apply map_values_Ok in H.
  induction H as [|[k v] [k' w] d out [Hk _] _ IH]; [reflexivity|].
  rewrite !fmap_cons. simpl in *. rewrite Hk, IH. reflexivity.
Qed.

(** X6. The shape of what apply_equidistancing returns: the keys are the
    input keys other than ["time"], in their order, followed by ["time"]
    (the time channel moves to the end), and every channel, the time
    channel included, has the final length that is reported. *)
Theorem equidistancing_output_shape cv iv out il fl :
  apply_equidistancing cv iv = Ok (out, il, fl) →
  out.*1 = (filter (λ kv : string * list Q, kv.1 ≠ "time") cv).*1 ++ ["time"] ∧
  (∀ k s, (k, s) ∈ out → Py.len s = fl) ∧
  0 ≤ fl.
Proof.
  intros H. apply apply_equidistancing_inv in H
    as (time & tmin & tmax & grid & mvd & eqd & Htime & Hmin & _ & _ & Hmvd & Heqd & -> & _ & ->).
  pose proof (map_values_keys _ _ _ Hmvd) as Hk1.
  pose proof (map_values_keys _ _ _ Heqd) as Hk2.
  assert (Dict.get "time" eqd = None) as Hnone.
  { apply dict_get_None_fmap. rewrite Hk2, Hk1. intros Hin.
    apply list_elem_of_fmap in Hin as ([k s] & Hk & Hin).
    apply list_elem_of_filter in Hin as [Hne _]. simpl in *. congruence. }
  rewrite dict_set_fresh by exact Hnone.
  split; [|split].
  - rewrite fmap_app, Hk2, Hk1. reflexivity.
  - intros k s Hin. apply elem_of_app in Hin as [Hin|Hin].
    + apply map_values_Ok in Heqd.
      apply list_elem_of_lookup in Hin as (n & Hn).
      destruct (Forall2_lookup_r _ _ _ _ _ Heqd Hn) as ([k' mv] & _ & _ & Hs).
      simpl in Hs. unfold Np.interp in Hs. repeat case_decide; try discriminate.
      injection Hs as <-. unfold Py.len. rewrite length_fmap. reflexivity.
    + apply list_elem_of_singleton in Hin as [= -> ->]. reflexivity.
  - unfold Py.len. lia.
Qed.

Lemma equidistancing_output_shape_witness :
  ∃ out il fl,
    apply_equidistancing [("time", duplicate_times); ("torque", [10; 20; 30; 40]%Q)] (1 # 2)
      = Ok (out, il, fl) ∧
    out.*1 = ["torque"; "time"] ∧
    (∀ k s, (k, s) ∈ out → Py.len s = fl) ∧
    0 ≤ fl.
Proof.
  destruct (apply_equidistancing [("time", duplicate_times); ("torque", [10; 20; 30; 40]%Q)]
              (1 # 2)) as [[[out il] fl]|e] eqn:E; [|vm_compute in E; discriminate].
  exists out, il, fl. split; [reflexivity|].
  exact (equidistancing_output_shape _ _ out il fl E).
Defined.

(** X7. The inputs apply_equidistancing rejects before it resamples: a map
    without a ["time"] key raises [KeyError]; an empty time channel raises
    [ValueError] (the minimum of an empty array); an interval of zero raises
    [ValueError] ([np.arange] with a zero step). *)
Theorem equidistancing_errors (cv : dict (list Q)) iv :
  (Dict.get "time" cv = None → apply_equidistancing cv iv = Raise KeyError) ∧
  (Dict.get "time" cv = Some [] → apply_equidistancing cv iv = Raise ValueError) ∧
  (∀ time, Dict.get "time" cv = Some time → time ≠ [] → (iv == 0)%Q →
     apply_equidistancing cv iv = Raise ValueError).
Proof.
  split; [|split].
  - intros H. unfold apply_equidistancing, Dict.getitem. rewrite H. reflexivity.
  - intros H. unfold apply_equidistancing, Dict.getitem. rewrite H. reflexivity.
  - intros time H Hne Hiv. unfold apply_equidistancing, Dict.getitem. rewrite H.
    cbn [mbind result_bind].
    pose proof (unique_nonempty time Hne) as Hune.
    destruct (Np.unique time) as [ut ui]. simpl in Hune.
    destruct (amin_spec ut Hune) as (tmin & -> & _).
    destruct (amax_spec ut Hune) as (tmax & -> & _).
    cbn [mbind result_bind]. unfold Np.arange.
    apply Qeq_bool_iff in Hiv. rewrite Hiv. reflexivity.
Qed.

(** ** An input that is already equidistant *)










(** ** apply_split on buffers of any shape *)

Section SplitShape.

Context {A : Type}.
Variable tolist : A → A.
Variable rng : Type.
Variable random_seed : Z → rng.
Variable randbelow : nat → rng → nat * rng.
Hypothesis randbelow_lt : ∀ n g, (0 < n)%nat → ((randbelow n g).1 < n)%nat.

Lemma apply_split_head (data0 : list A) (rest : list (list A)) ratio seed g :
  ∃ indices,
    indices ≡ₚ seq 0 (length data0) ∧
    (apply_split tolist rng random_seed randbelow (data0 :: rest) ratio seed g).1
      = split_shuffled tolist (data0 :: rest) (length data0) indices ratio.
Proof.
  unfold apply_split, Py.index, shuffled_indices. simpl.
  destruct (shuffle_Ok rng randbelow randbelow_lt (length data0)
              (seed_generator rng random_seed seed g)) as (indices & Hidx & Hperm).
  exists indices. split; [exact Hperm|].
  destruct (shuffle rng randbelow (seq 0 (length data0)) _) as [r g']. simpl in Hidx. subst r.
  reflexivity.
Qed.

Lemma pick_exn (indices : list nat) (values : list A) e :
  pick indices values = Raise e → e = IndexError.
Proof.
  unfold pick. intros H.
  destruct (mapM_cases
              (λ i, match values !! i with Some v => Ok v | None => Raise IndexError end)
              indices) as [[k Hk]|(i & e' & _ & Hi & He)]; [congruence|].
  rewrite H in He. injection He as <-. destruct (values !! i); congruence.
Qed.

Lemma pick_Ok_lt (indices : list nat) (values : list A) l :
  pick indices values = Ok l → Forall (λ i, (i < length values)%nat) indices.
Proof.
  unfold pick. intros H. apply mapM_Ok in H. apply Forall_forall. intros i Hi.
  apply list_elem_of_lookup in Hi as (k & Hk).
  destruct (Forall2_lookup_l _ _ _ _ _ H Hk) as (v & _ & Hv).
  destruct (values !! i) eqn:E; [|discriminate]. eapply lookup_lt_Some, E.
Qed.

Lemma split_shuffled_after_pick (data : list (list A)) (N : nat) indices ratio sd :
  data ≠ [] → mapM (pick indices) data = Ok sd →
  is_Ok (split_shuffled tolist data N indices ratio).
Proof.
  intros Hne Hsd. unfold split_shuffled. rewrite Hsd. cbn [mbind result_bind]. cbv zeta.
  assert (flatten tolist sd ≠ []) as Hflat.
  { apply mapM_Ok, Forall2_length in Hsd. unfold flatten.
    destruct sd; [destruct data; [done | discriminate] | discriminate]. }
  set (flat := flatten tolist sd) in *.
  assert (is_Ok (Py.index flat (-1)
                 ≫= λ y_values, mret (Whole (Py.slice_to flat (-1)) y_values))) as Hwhole.
  { destruct (init_last flat Hflat) as (y & -> & _). eexists; reflexivity. }
  destruct ratio as [r|]; [|exact Hwhole].
  destruct (Py.float_lt 0 r && Py.float_lt r 1); [|exact Hwhole].
  set (s := Py.int_of_float _).
  destruct (init_last ((λ values : list A, Py.slice_to values s) <$> flat)) as (ytr & -> & _).
  { destruct flat; [done | discriminate]. }
  destruct (init_last ((λ values : list A, Py.slice_from values s) <$> flat)) as (yte & -> & _).
  { destruct flat; [done | discriminate]. }
  eexists; reflexivity.
Qed.

Lemma split_shuffled_exn (data : list (list A)) (N : nat) indices ratio e :
  data ≠ [] → split_shuffled tolist data N indices ratio = Raise e → e = IndexError.
Proof.
  intros Hne H.
  destruct (mapM_cases (pick indices) data) as [[sd Hsd]|(values & e' & _ & Hv & Hm)].
  - destruct (split_shuffled_after_pick data N indices ratio sd Hne Hsd) as [out Hout].
    congruence.
  - unfold split_shuffled in H. rewrite Hm in H. injection H as <-.
    eapply pick_exn, Hv.
Qed.

(** X9. When apply_split returns at all. It returns exactly when [data] is
    not empty and no sublist is shorter than the first one, whose length is
    taken as the number of records; a longer sublist is accepted and read
    only at the first [len(data[0])] positions. In every other case the
    call raises [IndexError]. *)
Theorem apply_split_returns_iff (data : list (list A)) ratio seed g :
  (is_Ok (apply_split tolist rng random_seed randbelow data ratio seed g).1 ↔
     ∃ data0, head data = Some data0 ∧
       Forall (λ values, (length data0 ≤ length values)%nat) data) ∧
  (¬ is_Ok (apply_split tolist rng random_seed randbelow data ratio seed g).1 →
     (apply_split tolist rng random_seed randbelow data ratio seed g).1 = Raise IndexError).
Proof.
  destruct data as [|data0 rest].
  { split.
    - split; [intros [out H]; discriminate | intros (d0 & H & _); discriminate].
    - intros _. reflexivity. }
  destruct (apply_split_head data0 rest ratio seed g) as (indices & Hperm & ->).
  split.
  - split.
    + intros [out Hout]. exists data0. split; [reflexivity|].
      unfold split_shuffled in Hout. apply bind_Ok in Hout as (sd & Hsd & _).
      apply mapM_Ok in Hsd. apply Forall_forall. intros values Hin.
      apply list_elem_of_lookup in Hin as (c & Hc).
      destruct (Forall2_lookup_l _ _ _ _ _ Hsd Hc) as (l & _ & Hl).
      apply pick_Ok_lt in Hl. rewrite Hperm in Hl.
      destruct (length data0) as [|n] eqn:En; [lia|].
      rewrite Forall_forall in Hl. specialize (Hl n). 
      assert (n ∈ seq 0 (S n)) as Hn by (apply elem_of_seq; lia). specialize (Hl Hn). lia.
    + intros (d0 & [= <-] & Hall).
      assert (Forall (λ values, is_Ok (pick indices values)) (data0 :: rest)) as Hpick.
      { eapply Forall_impl; [exact Hall|]. simpl. intros values Hv.
        destruct (pick_Ok tolist indices values) as (l & Hl & _); [|eexists; exact Hl].
        rewrite Hperm. apply Forall_forall. intros i Hi. apply elem_of_seq in Hi. lia. }
      destruct (mapM_cases (pick indices) (data0 :: rest))
        as [[sd Hsd]|(values & e & Hin & Hv & _)].
      * eapply split_shuffled_after_pick; [discriminate | exact Hsd].
      * rewrite Forall_forall in Hpick. destruct (Hpick values Hin) as [l Hl]. congruence.
  - intros Hnok. destruct (split_shuffled _ _ _ _ _) as [out|e] eqn:E.
    + exfalso. apply Hnok. eexists; reflexivity.
    + f_equal. eapply split_shuffled_exn; [|exact E]. discriminate.
Qed.

End SplitShape.

Lemma omap_ext_in {B C} (f g : B → option C) (l : list B) :
  (∀ x, x ∈ l → f x = g x) → omap f l = omap g l.
Proof.
  induction l as [|x l IH]; intros H; [reflexivity|].
  cbn [omap list_omap]. rewrite (H x) by left.
  rewrite IH by (intros y Hy; apply H; right; exact Hy). reflexivity.
Qed.

Lemma permute_identity {A} (tolist : A → A) (values : list A) :
  permute tolist (seq 0 (length values)) values = tolist <$> values.
Proof.
  unfold permute. induction values as [|x values IH] using rev_ind; [reflexivity|].
  rewrite length_app. cbn [length]. rewrite Nat.add_1_r, seq_S, omap_app, fmap_app.
  f_equal.
  - rewrite <- IH. apply omap_ext_in. intros i Hi. apply elem_of_seq in Hi.
    rewrite lookup_app_l by lia. reflexivity.
  - cbn [omap list_omap]. rewrite lookup_app_r by lia.
    rewrite Nat.add_0_l, Nat.sub_diag. reflexivity.
Qed.

Lemma permute_Permutation {A} (tolist : A → A) (indices : list nat) (values : list A) :
  indices ≡ₚ seq 0 (length values) →
  permute tolist indices values ≡ₚ tolist <$> values.
Proof.
  intros Hp. rewrite <- permute_identity. unfold permute. rewrite Hp. reflexivity.
Qed.

Section SplitContent.

Context {A : Type}.
Variable tolist : A → A.
Variable rng : Type.
Variable random_seed : Z → rng.
Variable randbelow : nat → rng → nat * rng.
Hypothesis randbelow_lt : ∀ n g, (0 < n)%nat → ((randbelow n g).1 < n)%nat.

Lemma apply_split_rejoin (data : list (list A)) ratio seed g N :
  data ≠ [] → Forall (λ values, length values = N) data →
  ∃ indices out,
    indices ≡ₚ seq 0 N ∧
    (apply_split tolist rng random_seed randbelow data ratio seed g).1 = Ok out ∧
    rejoin out = permute tolist indices <$> data ∧
    match out with
    | TrainTest x_train x_test _ _ =>
        length x_train = pred (length data) ∧ length x_test = pred (length data)
    | Whole x_values _ => length x_values = pred (length data)
    end.
Proof.
  intros Hne Hdata.
  destruct (apply_split_shuffled tolist rng random_seed randbelow randbelow_lt
              data ratio seed g N Hne Hdata) as (indices & Hperm & _ & ->).
  destruct (permutation_indices indices N Hperm) as [Hlt Hlen].
  assert (∀ x y, x ++ [y] = permute tolist indices <$> data →
                 length x = pred (length data)) as Hshape.
  { intros x y Hxy. apply (f_equal length) in Hxy.
    rewrite length_app, length_fmap in Hxy. cbn [length] in Hxy. lia. }
  destruct ratio as [r|].
  - destruct (Py.float_lt 0 r && Py.float_lt r 1) eqn:E.
    + apply andb_true_iff in E as [E0 E1].
      apply float_lt_true in E0. apply float_lt_true in E1.
      destruct (split_shuffled_ratio tolist data indices N r Hne Hdata Hlt Hlen E0 E1)
        as (xtr & xte & ytr & yte & Hout & Htr & Hte & Hl).
      exists indices, (TrainTest xtr xte ytr yte).
      split; [exact Hperm|]. split; [exact Hout|]. split; [|exact Hl].
      simpl. rewrite Htr, Hte. apply zip_with_take_drop.
    + destruct (split_shuffled_whole tolist data indices N (Some r) Hne Hdata Hlt E)
        as (x & y & Hout & Hxy).
      exists indices, (Whole x y). eauto.
  - destruct (split_shuffled_whole tolist data indices N None Hne Hdata Hlt I)
      as (x & y & Hout & Hxy).
    exists indices, (Whole x y). eauto.
Qed.

(** X10. The split loses and duplicates nothing: for buffers of one common
    length, every sublist of the result (train and test part joined again)
    is a rearrangement of the sublist of [data] at the same position, its
    arrays turned into lists. *)
Theorem apply_split_loses_nothing (data : list (list A)) ratio seed g N :
  data ≠ [] → Forall (λ values, length values = N) data →
  ∃ out,
    (apply_split tolist rng random_seed randbelow data ratio seed g).1 = Ok out ∧
    Forall2 (λ joined values, joined ≡ₚ tolist <$> values) (rejoin out) data.
Proof.
  intros Hne Hdata.
  destruct (apply_split_rejoin data ratio seed g N Hne Hdata) as (indices & out & Hp & Hout & Hrej & _).
  exists out. split; [exact Hout|]. rewrite Hrej.
  clear Hout Hne Hrej. induction Hdata as [|values data Hv _ IH]; constructor.
  - apply permute_Permutation. rewrite Hv. exact Hp.
  - exact IH.
Qed.

(** X11. Without a ratio, or with a ratio outside the open interval (0, 1),
    nothing is split off: the call returns the pair [(x_values, y_values)],
    each sublist shuffled by the same permutation and still holding all
    [N] records. *)
Theorem apply_split_unsplit (data : list (list A)) ratio seed g N :
  data ≠ [] → Forall (λ values, length values = N) data →
  match ratio with
  | Some r => (r <= 0)%Q ∨ (1 <= r)%Q
  | None => True
  end →
  ∃ indices x_values y_values,
    indices ≡ₚ seq 0 N ∧
    (apply_split tolist rng random_seed randbelow data ratio seed g).1
      = Ok (Whole x_values y_values) ∧
    x_values ++ [y_values] = permute tolist indices <$> data ∧
    Forall (λ values, length values = N) (x_values ++ [y_values]).
Proof.
  intros Hne Hdata Hratio.
  destruct (apply_split_shuffled tolist rng random_seed randbelow randbelow_lt
              data ratio seed g N Hne Hdata) as (indices & Hperm & _ & ->).
  destruct (permutation_indices indices N Hperm) as [Hlt Hlen].
  destruct (split_shuffled_whole tolist data indices N ratio Hne Hdata Hlt)
    as (x & y & Hout & Hxy).
  { destruct ratio as [r|]; [|exact I]. unfold Py.float_lt.
    apply andb_false_iff. destruct Hratio as [H|H]; [left | right];
      apply negb_false_iff, Qle_bool_iff; exact H. }
  exists indices, x, y. split; [exact Hperm|]. split; [exact Hout|]. split; [exact Hxy|].
  rewrite Hxy, Forall_fmap. eapply Forall_impl; [exact Hdata|]. simpl. intros values Hv.
  rewrite permute_length; [exact Hlen | rewrite Hv; exact Hlt].
Qed.


End SplitContent.

Lemma apply_split_returns_iff_witness :
  (is_Ok (apply_split id Z lcg_seed lcg_randbelow short_buffer None (Some 42) 0).1 ↔
     ∃ data0, head short_buffer = Some data0 ∧
       Forall (λ values, (length data0 ≤ length values)%nat) short_buffer) ∧
  (¬ is_Ok (apply_split id Z lcg_seed lcg_randbelow short_buffer None (Some 42) 0).1 →
     (apply_split id Z lcg_seed lcg_randbelow short_buffer None (Some 42) 0).1
       = Raise IndexError).
Proof.
  exact (apply_split_returns_iff id Z lcg_seed lcg_randbelow lcg_randbelow_lt
           short_buffer None (Some 42) 0).
Defined.

Lemma apply_split_loses_nothing_witness :
  ∃ out,
    (apply_split id Z lcg_seed lcg_randbelow sample_buffer (Some (6 # 10)) (Some 42) 0).1
      = Ok out ∧
    Forall2 (λ joined values, joined ≡ₚ id <$> values) (rejoin out) sample_buffer.
Proof.
  apply (apply_split_loses_nothing id Z lcg_seed lcg_randbelow lcg_randbelow_lt
           sample_buffer (Some (6 # 10)) (Some 42) 0 5).
  - discriminate.
  - repeat constructor.
Defined.

Lemma apply_split_unsplit_witness :
  ∃ indices x_values y_values,
    indices ≡ₚ seq 0 5 ∧
    (apply_split id Z lcg_seed lcg_randbelow sample_buffer (Some 1%Q) (Some 42) 0).1
      = Ok (Whole x_values y_values) ∧
    x_values ++ [y_values] = permute id indices <$> sample_buffer ∧
    Forall (λ values, length values = 5%nat) (x_values ++ [y_values]).
Proof.
  apply (apply_split_unsplit id Z lcg_seed lcg_randbelow lcg_randbelow_lt
           sample_buffer (Some 1%Q) (Some 42) 0 5).
  - discriminate.
  - repeat constructor.
  - right. apply Qle_refl.
Defined.


(** ** apply_conversion: tuples, repeated calls, formats *)

Section ConversionMore.

Variable np_array : value → result value.

Lemma binarize_at_tuple items i (σ : gmap loc (list value)) :
  ∃ e, binarize_at (TupleObj items) i σ = (Raise e, σ) ∧ (e = IndexError ∨ e = TypeError).
Proof.
  unfold binarize_at. cbn [contents].
  destruct (Py.index items i) as [x|e] eqn:Hi; cbn [mbind result_bind].
  - destruct (convert_to_binary x) as [b|e] eqn:Hb.
    + eexists; split; [reflexivity | right; reflexivity].
    + exists e. split; [reflexivity|]. right.
      destruct x; simpl in Hb; congruence.
  - exists e. split; [reflexivity|]. left.
    unfold Py.index in Hi. repeat case_decide; try congruence.
    + destruct (items !! _); congruence.
    + destruct (items !! _); congruence.
Qed.

Lemma apply_result_format_tuple items (σ : gmap loc (list value)) :
  ∃ e, apply_result_format (TupleObj items) "binary" σ = (Raise e, σ) ∧
       (e = IndexError ∨ e = TypeError).
Proof.
  unfold apply_result_format.
  repeat (case_decide; try done).
  - destruct (binarize_at_tuple items 2 σ) as (e & -> & He). exists e. auto.
  - destruct (binarize_at_tuple items 1 σ) as (e & -> & He). exists e. auto.
Qed.

(** X13. A tuple is never converted to binary labels: whatever its entries
    and the return format, the call raises ([IndexError] when the entry to
    convert does not exist, [TypeError] when it cannot be iterated or, at the
    latest, when it is assigned back) and the store is left as it was. *)
Theorem apply_conversion_tuple_binary items return_format (σ : gmap loc (list value)) :
  ∃ e, apply_conversion np_array (TupleObj items) "binary" return_format σ = (Raise e, σ) ∧
       (e = IndexError ∨ e = TypeError).
Proof.
  unfold apply_conversion.
  destruct (apply_result_format_tuple items σ) as (e & -> & He). exists e. auto.
Qed.

Lemma apply_result_format_binary_two (σ : gmap loc (list value)) l x0 y1 :
  σ !! l = Some [x0; VList y1] →
  apply_result_format (ListObj l) "binary" σ
    = (Ok (), <[l := [x0; VList (binary_of <$> y1)]]> σ).
Proof.
  intros Hσ.
  pose proof (binarize_at_list σ l [x0; VList y1] 1 y1 Hσ eq_refl) as Hb.
  change (Z.of_nat 1) with 1 in Hb.
  unfold apply_result_format. cbn [contents]. rewrite Hσ.
  cbn [default Py.len length]. repeat (case_decide; try done).
Qed.

Lemma apply_result_format_binary_four (σ : gmap loc (list value)) l x0 x1 y2 y3 :
  σ !! l = Some [x0; x1; VList y2; VList y3] →
  apply_result_format (ListObj l) "binary" σ
    = (Ok (), <[l := [x0; x1; VList (binary_of <$> y2); VList (binary_of <$> y3)]]> σ).
Proof.
  intros Hσ.
  pose proof (binarize_at_list σ l [x0; x1; VList y2; VList y3] 2 y2 Hσ eq_refl) as Hb2.
  pose proof (binarize_at_list (<[l := [x0; x1; VList (binary_of <$> y2); VList y3]]> σ) l
                [x0; x1; VList (binary_of <$> y2); VList y3] 3 y3
                (lookup_insert_eq _ _ _) eq_refl) as Hb3.
  change (Z.of_nat 2) with 2 in Hb2. change (Z.of_nat 3) with 3 in Hb3.
  cbn [insert list_insert] in Hb2, Hb3. rewrite insert_insert_eq in Hb3.
  unfold apply_result_format. cbn [contents]. rewrite Hσ.
  cbn [default Py.len length]. repeat (case_decide; try done).
  rewrite Hb2. exact Hb3.
Qed.

Lemma binary_of_twice (labels : list value) :
  binary_of <$> (binary_of <$> labels) = replicate (length labels) (VInt 0).
Proof.
  induction labels as [|x labels IH]; [reflexivity|].
  rewrite !fmap_cons, IH. cbn [length replicate]. f_equal.
  destruct x as [s| | |]; try reflexivity. simpl. case_decide; reflexivity.
Qed.

(** X14. The conversion is not idempotent: converted labels are integers,
    none of which equals ["NOK"], so a second call with ["binary"] on the same
    list object overwrites every label with 0. The entries before the label
    entries stay as they are. *)
Theorem apply_conversion_binary_twice (σ : gmap loc (list value)) l items :
  σ !! l = Some items →
  (∃ x0 y1, items = [x0; VList y1]) ∨ (∃ x0 x1 y2 y3, items = [x0; x1; VList y2; VList y3]) →
  ∃ σ1,
    apply_conversion np_array (ListObj l) "binary" "nested_list" σ = (Ok (ListObj l), σ1) ∧
    apply_conversion np_array (ListObj l) "binary" "nested_list" σ1
      = (Ok (ListObj l),
         <[l := take (length items / 2) items
                ++ (zero_labels <$> drop (length items / 2) items)]> σ).
Proof.
  intros Hσ [(x0 & y1 & ->)|(x0 & x1 & y2 & y3 & ->)].
  - exists (<[l := [x0; VList (binary_of <$> y1)]]> σ).
    unfold apply_conversion.
    rewrite (apply_result_format_binary_two σ l x0 y1 Hσ).
    rewrite (apply_result_format_binary_two _ l x0 (binary_of <$> y1) (lookup_insert_eq _ _ _)).
    rewrite insert_insert_eq, binary_of_twice.
    split; reflexivity.
  - exists (<[l := [x0; x1; VList (binary_of <$> y2); VList (binary_of <$> y3)]]> σ).
    unfold apply_conversion.
    rewrite (apply_result_format_binary_four σ l x0 x1 y2 y3 Hσ).
    rewrite (apply_result_format_binary_four _ l x0 x1 (binary_of <$> y2) (binary_of <$> y3)
               (lookup_insert_eq _ _ _)).
    rewrite insert_insert_eq, !binary_of_twice.
    split; reflexivity.
Qed.

(** X15. An unsupported return format is detected only after the result
    format has been applied: the call raises [ValueError], and with
    ["binary"] the labels of the list object have been overwritten by then.
    With any other result format the store is unchanged (an unsupported one
    raises [ValueError] itself, before the return format is looked at). *)
Theorem apply_conversion_unsupported_return_format (σ : gmap loc (list value)) l x0 labels
    result_format return_format :
  σ !! l = Some [x0; VList labels] →
  return_format ≠ "numpy_array" → return_format ≠ "nested_list" →
  apply_conversion np_array (ListObj l) result_format return_format σ
    = (Raise ValueError,
       if decide (result_format = "binary")
       then <[l := [x0; VList (binary_of <$> labels)]]> σ else σ).
Proof.
  intros Hσ Hn Hl. unfold apply_conversion.
  destruct (decide (result_format = "binary")) as [->|Hb].
  - rewrite (apply_result_format_binary_two σ l x0 labels Hσ).
    unfold apply_return_format. repeat (case_decide; try done).
  - unfold apply_result_format. repeat (case_decide; try done).
    unfold apply_return_format. repeat (case_decide; try done).
Qed.

(** X16. With ["raw"] no object of the store is modified, whatever the
    data and the return format; with ["nested_list"] the call returns its
    argument and the store as they are. *)
Theorem apply_conversion_raw_store (σ : gmap loc (list value)) data return_format l items :
  σ !! l = Some items →
  (apply_conversion np_array data "raw" return_format σ).2 !! l = Some items ∧
  (return_format = "nested_list" →
     apply_conversion np_array data "raw" return_format σ = (Ok data, σ)).
Proof.
  intros Hσ. unfold apply_conversion, apply_result_format.
  repeat (case_decide; try done). split.
  - apply apply_return_format_store. exact Hσ.
  - intros ->. unfold apply_return_format. repeat (case_decide; try done).
Qed.

End ConversionMore.

Lemma apply_conversion_binary_twice_witness :
  ∃ σ1,
    apply_conversion (λ v, Ok v) (ListObj 1%positive) "binary" "nested_list" labelled_store
      = (Ok (ListObj 1%positive), σ1) ∧
    apply_conversion (λ v, Ok v) (ListObj 1%positive) "binary" "nested_list" σ1
      = (Ok (ListObj 1%positive),
         <[1%positive := [VList [VList [VFloat 1]; VList [VFloat 2]];
                           VList [VInt 0; VInt 0]]]> labelled_store).
Proof.
  apply (apply_conversion_binary_twice (λ v, Ok v) labelled_store 1%positive
           [VList [VList [VFloat 1]; VList [VFloat 2]]; VList [VStr "OK"; VStr "NOK"]]).
  - reflexivity.
  - left. eexists _, _. reflexivity.
Defined.

Lemma apply_conversion_unsupported_return_format_witness :
  apply_conversion (λ v, Ok v) (ListObj 1%positive) "binary" "flat_list" labelled_store
  = (Raise ValueError,
     <[1%positive := [VList [VList [VFloat 1]; VList [VFloat 2]];
                       VList [VInt 0; VInt 1]]]> labelled_store).
Proof.
  apply (apply_conversion_unsupported_return_format (λ v, Ok v) labelled_store 1%positive
           (VList [VList [VFloat 1]; VList [VFloat 2]]) [VStr "OK"; VStr "NOK"]
           "binary" "flat_list").
  - reflexivity.
  - discriminate.
  - discriminate.
Defined.

Lemma apply_conversion_raw_store_witness :
  (apply_conversion (λ v, Ok v) (ListObj 1%positive) "raw" "nested_list" labelled_store).2
    !! 1%positive
  = Some [VList [VList [VFloat 1]; VList [VFloat 2]]; VList [VStr "OK"; VStr "NOK"]] ∧
  ("nested_list" = "nested_list" →
   apply_conversion (λ v, Ok v) (ListObj 1%positive) "raw" "nested_list" labelled_store
   = (Ok (ListObj 1%positive), labelled_store)).
Proof.
  apply (apply_conversion_raw_store (λ v, Ok v) labelled_store (ListObj 1%positive)
           "nested_list" 1%positive).
  reflexivity.
Defined.

(** ** The loading loop: extraction and buffers *)

(** X17. The steps the loop reads from a record, for step numbers from 1
    upwards (the validator admits 1 to 4): never an error, and the steps
    come in the order of [tightening_steps], a number listed twice giving its
    step twice and a number beyond the record's steps giving nothing. *)
Theorem selected_steps_valid fsteps tsteps :
  Forall (λ step_idx, 1 ≤ step_idx) tsteps →
  selected_steps fsteps tsteps
    = Ok (omap (λ step_idx, fsteps !! Z.to_nat (step_idx - 1)) tsteps).
Proof.
  unfold selected_steps. induction 1 as [|i tsteps Hi _ IH]; [reflexivity|].
  rewrite filter_cons. cbn [omap list_omap]. case_decide as Hle.
  - cbn [mapM]. rewrite IH. unfold Py.index, Py.len in *.
    repeat (case_decide; try lia).
    destruct (fsteps !! Z.to_nat (i - 1)) eqn:E; [reflexivity|].
    apply lookup_ge_None in E. lia.
  - rewrite IH. unfold Py.len in Hle.
    rewrite (proj2 (lookup_ge_None fsteps (Z.to_nat (i - 1)))) by lia. reflexivity.
Qed.

Lemma selected_steps_valid_witness :
  selected_steps two_steps [2; 1; 3; 2]
  = Ok (omap (λ step_idx, two_steps !! Z.to_nat (step_idx - 1)) [2; 1; 3; 2]).
Proof.
  apply (selected_steps_valid two_steps [2; 1; 3; 2]).
  repeat (constructor; [lia|]). constructor.
Defined.

Lemma empty_cycle_values_get (tvalues : list string) (d : dict (list Q)) v :
  (∀ w, Dict.get v d = Some w → w = []) →
  Dict.get v (foldl (λ d k, Dict.set k [] d) d tvalues)
    = if decide (v ∈ tvalues) then Some [] else Dict.get v d.
Proof.
  revert d. induction tvalues as [|k tvalues IH]; intros d Hd; cbn [foldl].
  - case_decide as H; [by apply elem_of_nil in H | reflexivity].
  - rewrite IH.
    + destruct (decide (k = v)) as [->|Hne].
      * rewrite dict_get_set_eq, (decide_True (P := v ∈ v :: tvalues)) by left.
        destruct (decide (v ∈ tvalues)); reflexivity.
      * rewrite dict_get_set_ne by exact Hne.
        destruct (decide (v ∈ tvalues)) as [Hin|Hin].
        -- rewrite decide_True by (right; exact Hin). reflexivity.
        -- rewrite decide_False; [reflexivity|].
           intros H. apply elem_of_cons in H as [->|H]; [congruence | contradiction].
    + intros w. destruct (decide (k = v)) as [->|Hne].
      * rewrite dict_get_set_eq. congruence.
      * rewrite dict_get_set_ne by exact Hne. apply Hd.
Qed.

Lemma add_step_values_Ok tvalues (acv : dict (list Q)) st g :
  graph st = Some g → (∀ v, v ∈ tvalues → is_Some (Dict.get v acv)) →
  ∃ acv', add_step_values tvalues acv st = Ok acv' ∧
    ∀ v, Dict.get v acv'
         = (λ old, old ++ concat (replicate (length (filter (λ w, w = v) tvalues))
                                    (step_values v st))) <$> Dict.get v acv.
Proof.
  intros Hg. unfold add_step_values, step_values. rewrite Hg. revert acv.
  induction tvalues as [|x tvalues IH]; intros acv Hkeys.
  - exists acv. split; [reflexivity|]. intros v. simpl.
    destruct (Dict.get v acv); simpl; [rewrite app_nil_r|]; reflexivity.
  - destruct (Hkeys x) as [old Hold]; [left|].
    assert (Dict.getitem x acv = Ok old) as Hitem
      by (unfold Dict.getitem; rewrite Hold; reflexivity).
    cbn [foldM]. cbv beta. rewrite Hitem. cbn [mbind result_bind mret result_ret].
    set (new := default [] (Dict.get (String.append x " values") g)).
    destruct (IH (Dict.set x (old ++ new) acv)) as (acv' & Hacv' & Hget).
    { intros v Hv. destruct (decide (x = v)) as [->|Hne].
      - rewrite dict_get_set_eq. eauto.
      - rewrite dict_get_set_ne by exact Hne. apply Hkeys. right. exact Hv. }
    exists acv'. split; [exact Hacv'|]. intros v. rewrite Hget, filter_cons.
    destruct (decide (x = v)) as [->|Hne].
    + rewrite dict_get_set_eq, Hold. cbn [fmap option_fmap option_map length replicate concat].
      f_equal. rewrite <- app_assoc. reflexivity.
    + rewrite dict_get_set_ne by exact Hne. reflexivity.
Qed.

(** X18. What the loop extracts from the selected steps when each has a
    ["graph"]: for every requested value the concatenation, step after step,
    of the step's ["<value> values"] list (empty when the graph has no such
    key). A value requested [m] times has each step's list [m] times in a
    row, as the one dictionary entry is extended once per request. *)
Theorem extraction_concat tvalues steps :
  Forall (λ st, is_Some (graph st)) steps →
  ∃ acv, foldM (add_step_values tvalues) (empty_cycle_values tvalues) steps = Ok acv ∧
    ∀ value, Dict.get value acv =
      if decide (value ∈ tvalues)
      then Some (concat ((λ st, concat (replicate (length (filter (λ w, w = value) tvalues))
                                          (step_values value st))) <$> steps))
      else None.
Proof.
  intros Hsteps.
  assert (∀ acv0 : dict (list Q),
            (∀ v, v ∈ tvalues → is_Some (Dict.get v acv0)) →
            ∃ acv, foldM (add_step_values tvalues) acv0 steps = Ok acv ∧
              ∀ v, Dict.get v acv
                   = (λ old, old ++ concat ((λ st, concat (replicate
                                 (length (filter (λ w, w = v) tvalues))
                                 (step_values v st))) <$> steps)) <$> Dict.get v acv0) as Hgen.
  { induction Hsteps as [|st steps [g Hg] _ IH]; intros acv0 Hkeys.
    - exists acv0. split; [reflexivity|]. intros v.
      destruct (Dict.get v acv0); simpl; [rewrite app_nil_r|]; reflexivity.
    - destruct (add_step_values_Ok tvalues acv0 st g Hg Hkeys) as (acv1 & H1 & Hget1).
      destruct (IH acv1) as (acv & H2 & Hget2).
      { intros v Hv. rewrite Hget1. destruct (Hkeys v Hv) as [old ->]. simpl. eauto. }
      exists acv. split; [cbn [foldM]; rewrite H1; exact H2|].
      intros v. rewrite Hget2, Hget1. destruct (Dict.get v acv0); [|reflexivity].
      simpl. rewrite <- app_assoc. reflexivity. }
  destruct (Hgen (empty_cycle_values tvalues)) as (acv & Hacv & Hget).
  { intros v Hv. unfold empty_cycle_values. rewrite empty_cycle_values_get by (simpl; discriminate).
    rewrite decide_True by exact Hv. eauto. }
  exists acv. split; [exact Hacv|]. intros value. rewrite Hget.
  unfold empty_cycle_values. rewrite empty_cycle_values_get by (simpl; discriminate).
  case_decide; reflexivity.
Qed.

Lemma extraction_concat_witness :
  ∃ acv,
    foldM (add_step_values ["time"; "torque"]) (empty_cycle_values ["time"; "torque"]) two_steps
      = Ok acv ∧
    ∀ value, Dict.get value acv =
      if decide (value ∈ ["time"; "torque"])
      then Some (concat ((λ st, concat (replicate
                                  (length (filter (λ w, w = value) ["time"; "torque"]))
                                  (step_values value st))) <$> two_steps))
      else None.
Proof.
  apply (extraction_concat ["time"; "torque"] two_steps).
  repeat (constructor; [eexists; reflexivity|]). constructor.
Defined.

Lemma add_step_values_exn tvalues (acv : dict (list Q)) st e :
  add_step_values tvalues acv st = Raise e → e = KeyError.
Proof.
  unfold add_step_values. revert acv. induction tvalues as [|x tvalues IH]; intros acv.
  - discriminate.
  - cbn [foldM]. cbv beta.
    destruct (Dict.getitem x acv) as [old|e'] eqn:Hitem; cbn [mbind result_bind].
    + destruct (graph st); cbn [mbind result_bind mret result_ret]; [|congruence].
      apply IH.
    + unfold Dict.getitem in Hitem. destruct (Dict.get x acv); congruence.
Qed.

Lemma add_step_values_no_graph tvalues (acv : dict (list Q)) st :
  graph st = None → tvalues ≠ [] → add_step_values tvalues acv st = Raise KeyError.
Proof.
  intros Hg Hne. destruct tvalues as [|x tvalues]; [done|].
  unfold add_step_values. cbn [foldM]. cbv beta.
  destruct (Dict.getitem x acv) as [old|e'] eqn:Hitem; cbn [mbind result_bind].
  - rewrite Hg. reflexivity.
  - unfold Dict.getitem in Hitem. destruct (Dict.get x acv); congruence.
Qed.

(** X19. A selected step without a ["graph"] key aborts the extraction
    with [KeyError] as soon as one value is requested, wherever the step
    stands among the selected ones. *)
Theorem extraction_missing_graph tvalues steps st (acv : dict (list Q)) :
  st ∈ steps → graph st = None → tvalues ≠ [] →
  foldM (add_step_values tvalues) acv steps = Raise KeyError.
Proof.
  intros Hin Hg Hne. revert acv. induction steps as [|x steps IH]; intros acv.
  - inversion Hin.
  - cbn [foldM]. destruct (add_step_values tvalues acv x) as [acv1|e] eqn:E.
    + cbn [mbind result_bind]. apply IH.
      apply elem_of_cons in Hin as [->|Hin]; [|exact Hin].
      rewrite add_step_values_no_graph in E by assumption. discriminate.
    + cbn [mbind result_bind]. f_equal. eapply add_step_values_exn, E.
Qed.

Lemma extraction_missing_graph_witness :
  foldM (add_step_values ["time"]) (empty_cycle_values ["time"])
    (two_steps ++ [ {| graph := None |} ])
  = Raise KeyError.
Proof.
  apply (extraction_missing_graph ["time"] (two_steps ++ [ {| graph := None |} ])
           {| graph := None |} (empty_cycle_values ["time"])).
  - apply elem_of_app. right. apply list_elem_of_singleton. reflexivity.
  - reflexivity.
  - discriminate.
Defined.

Lemma append_series_lengths (acv : dict (list Q)) (vs : list string) (k : nat)
    (rv rv' : list (list item)) :
  foldM (λ rv iv,
      values ← Dict.getitem iv.2 acv;
      Py.append_at rv (Z.of_nat iv.1) (Series values))
    rv (imap (λ i value, ((k + i)%nat, value)) vs) = Ok rv' →
  length rv' = length rv ∧
  ∀ j sub, rv !! j = Some sub →
    ∃ sub', rv' !! j = Some sub' ∧
      length sub' = if decide (k ≤ j < k + length vs)%nat then S (length sub) else length sub.
Proof.
  revert k rv. induction vs as [|v vs IH]; intros k rv H.
  - injection H as <-. split; [reflexivity|]. intros j sub Hj. exists sub.
    split; [exact Hj|]. simpl. case_decide; [lia | reflexivity].
  - cbn [imap foldM] in H. apply bind_Ok in H as (rv1 & H1 & H).
    cbv beta in H1. cbn [fst snd] in H1.
    apply bind_Ok in H1 as (values & _ & H1).
    apply append_at_Ok in H1 as (j0 & sub0 & Hj0 & -> & Hji).
    case_decide; [lia|]. assert (j0 = k) as -> by lia.
    rewrite (imap_ext _ (λ i value, ((S k + i)%nat, value))) in H
      by (intros i x _; simpl; f_equal; lia).
    apply IH in H as [Hlen Hsub]. rewrite length_insert in Hlen.
    split; [exact Hlen|]. intros j sub Hj.
    destruct (decide (j = k)) as [->|Hne].
    + destruct (Hsub k (sub0 ++ [Series values])) as (sub' & Hs' & Hl').
      { apply list_lookup_insert_eq. eapply lookup_lt_Some, Hj0. }
      exists sub'. split; [exact Hs'|]. rewrite Hl'.
      assert (sub = sub0) as -> by congruence.
      rewrite length_app. cbn [length].
      repeat case_decide; lia.
    + destruct (Hsub j sub) as (sub' & Hs' & Hl').
      { rewrite list_lookup_insert_ne by congruence. exact Hj. }
      exists sub'. split; [exact Hs'|]. rewrite Hl'. cbn [length].
      repeat case_decide; lia.
Qed.

Lemma retain_record_lengths cfg st flabel fsteps st' :
  length (return_values st) = S (length (tightening_values cfg)) →
  retain_record cfg st flabel fsteps = Ok st' →
  length <$> return_values st' = S <$> (length <$> return_values st).
Proof.
  intros Hlen H. unfold retain_record in H.
  apply bind_Ok in H as (steps & _ & H).
  apply bind_Ok in H as (acv0 & _ & H).
  apply bind_Ok in H as ([acv1 elogs] & _ & H).
  apply bind_Ok in H as ([acv2 tlogs] & _ & H).
  apply bind_Ok in H as ([acv3 plogs] & _ & H).
  apply bind_Ok in H as (rv1 & Hrv1 & H).
  apply bind_Ok in H as (rv2 & Hrv2 & H).
  injection H as <-. cbn [return_values].
  rewrite (imap_ext _ (λ i value, ((0 + i)%nat, value))) in Hrv1 by reflexivity.
  apply append_series_lengths in Hrv1 as [Hlen1 Hsub1].
  apply append_at_Ok in Hrv2 as (j & sub & Hj & -> & Hji).
  case_decide; [|lia]. unfold Py.len in Hji.
  assert (j = length (tightening_values cfg)) as -> by lia.
  apply list_eq. intros i. rewrite !list_lookup_fmap.
  destruct (return_values st !! i) as [buf|] eqn:Hbuf.
  - destruct (Hsub1 i buf Hbuf) as (buf1 & Hbuf1 & Hl1). cbn [fmap option_fmap option_map].
    destruct (decide (i = length (tightening_values cfg))) as [->|Hne].
    + rewrite list_lookup_insert_eq by lia. cbn [fmap option_fmap option_map].
      assert (buf1 = sub) as -> by congruence.
      rewrite length_app. cbn [length]. case_decide; [lia|]. f_equal. lia.
    + rewrite list_lookup_insert_ne by congruence. rewrite Hbuf1.
      cbn [fmap option_fmap option_map]. rewrite Hl1.
      apply lookup_lt_Some in Hbuf. case_decide; [reflexivity | lia].
  - apply lookup_ge_None in Hbuf. rewrite (proj2 (lookup_ge_None _ _)); [reflexivity|].
    rewrite length_insert. lia.
Qed.

Lemma process_file_lengths cfg st f st' :
  length (return_values st) = S (length (tightening_values cfg)) →
  process_file cfg st f = Ok st' →
  return_values st' = return_values st ∨
  length <$> return_values st' = S <$> (length <$> return_values st).
Proof.
  intros Hlen H. unfold process_file in H.
  destruct (file_id f) as [fid|]; [|injection H as <-; left; reflexivity].
  destruct (file_label f) as [flabel|]; [|injection H as <-; left; reflexivity].
  destruct (file_steps f) as [fsteps|]; [|injection H as <-; left; reflexivity].
  cbv zeta in H. apply bind_Ok in H as ([|] & _ & H).
  - right. apply retain_record_lengths in H; [exact H | exact Hlen].
  - injection H as <-. left. reflexivity.
Qed.

Lemma load_files_aligned cfg files st :
  load_files cfg files = Ok st →
  length (return_values st) = S (length (tightening_values cfg)) ∧
  ∃ n, Forall (λ buf, length buf = n) (return_values st).
Proof.
  unfold load_files. intros Hload.
  apply (foldM_invariant
           (λ s, length (return_values s) = S (length (tightening_values cfg)) ∧
                 ∃ n, Forall (λ buf : list item, length buf = n) (return_values s))
           (process_file cfg) files (initial_state cfg) st); [| |exact Hload].
  - unfold initial_state. cbn [return_values]. split; [apply length_replicate|].
    exists 0%nat. apply Forall_replicate. reflexivity.
  - intros s f s' _ [Hlen (n & Hn)] H.
    destruct (process_file_lengths cfg s f s' Hlen H) as [Heq|Heq].
    + rewrite Heq. eauto.
    + split.
      * rewrite <- (length_fmap length), Heq, !length_fmap. exact Hlen.
      * exists (S n). apply Forall_forall. intros buf Hbuf.
        assert (length buf ∈ length <$> return_values s') as Hx
          by (apply list_elem_of_fmap; eauto).
        rewrite Heq in Hx. apply list_elem_of_fmap in Hx as (m & -> & Hm).
        apply list_elem_of_fmap in Hm as (buf0 & -> & Hbuf0).
        f_equal. rewrite Forall_forall in Hn. apply Hn. exact Hbuf0.
Qed.

(** X20. The buffers the loop fills stay aligned: there is one buffer per
    requested value and one for the labels, and when the loop ends each of
    them holds exactly one entry per retained record. This is the shape
    apply_split relies on. *)
Theorem load_files_buffers_aligned cfg sel files st :
  tightening_cycles cfg = CyclesList sel →
  load_files cfg files = Ok st →
  length (return_values st) = S (length (tightening_values cfg)) ∧
  Forall (λ buf, length buf = length (retained_from sel [] files)) (return_values st).
Proof.
  intros Hsel H.
  destruct (load_files_aligned cfg files st H) as [Hlen (n & Hn)].
  split; [exact Hlen|].
  destruct (load_loop_invariant cfg sel [] files (initial_state cfg) st Hsel) as (_ & _ & Hl).
  { unfold loop_invariant, initial_state. cbn [return_values all_cycle_counts].
    split; [apply length_replicate|].
    split; [intros fid; reflexivity|].
    rewrite last_lookup, length_replicate. cbn [pred].
    rewrite lookup_replicate_2 by lia. reflexivity. }
  { exact H. }
  simpl in Hl. rewrite last_lookup in Hl.
  pose proof (Forall_lookup_1 _ _ _ _ Hn Hl) as Hlast. simpl in Hlast.
  rewrite length_fmap in Hlast. rewrite Hlast. exact Hn.
Qed.

Lemma load_files_buffers_aligned_witness :
  ∃ st, load_files three_cycles_config six_files = Ok st ∧
    length (return_values st) = 3%nat ∧
    Forall (λ buf, length buf = length (retained_from [1; 2; 3] [] six_files))
      (return_values st).
Proof.
  eexists. split; [vm_compute; reflexivity|].
  apply (load_files_buffers_aligned three_cycles_config [1; 2; 3] six_files);
    vm_compute; reflexivity.
Defined.

Lemma process_file_not_retained cfg sel seen st f :
  tightening_cycles cfg = CyclesList sel →
  (∀ fid, default 0 (all_cycle_counts st !! fid) = occurrences fid seen) →
  retained_from sel seen [f] = [] →
  ∃ st', process_file cfg st f = Ok st' ∧
    return_values st' = return_values st ∧
    equidistancing_logs st' = equidistancing_logs st ∧
    truncating_logs st' = truncating_logs st ∧
    padding_logs st' = padding_logs st ∧
    ∀ fid, default 0 (all_cycle_counts st' !! fid) = occurrences fid (seen ++ [f]).
Proof.
  intros Hsel Hcount Hret. cbn [retained_from] in Hret. rewrite app_nil_r in Hret.
  unfold process_file.
  destruct (file_id f) as [fid|] eqn:Hid;
    [destruct (file_label f) as [flabel|] eqn:Hlabel;
       [destruct (file_steps f) as [fsteps|] eqn:Hsteps|]|].
  - assert (∀ fid', bears fid' f = bool_decide (fid = fid')) as Hbears.
    { intros fid'. unfold bears. rewrite Hid, Hlabel, Hsteps. reflexivity. }
    assert (default 0 (all_cycle_counts st !! fid) + 1 = occurrences fid (seen ++ [f])) as Hk.
    { rewrite occurrences_snoc, Hbears, bool_decide_eq_true_2, Hcount; reflexivity. }
    cbv beta iota zeta. rewrite Hsel, Hk. cbn [cycle_selected mbind result_bind].
    case_decide as Hin; [discriminate|].
    rewrite bool_decide_eq_false_2 by exact Hin. cbn [orb mret result_ret].
    eexists. split; [reflexivity|]. cbn [return_values equidistancing_logs truncating_logs
                                          padding_logs all_cycle_counts].
    repeat (split; [reflexivity|]).
    intros fid'. destruct (decide (fid = fid')) as [<-|Hne].
    + rewrite lookup_insert_eq. reflexivity.
    + rewrite lookup_insert_ne by exact Hne.
      rewrite occurrences_snoc, Hbears, bool_decide_eq_false_2, Hcount by exact Hne. lia.
  - exists st. repeat (split; [reflexivity|]).
    intros fid'. rewrite occurrences_snoc, Hcount. unfold bears.
    rewrite Hid, Hlabel, Hsteps. lia.
  - exists st. repeat (split; [reflexivity|]).
    intros fid'. rewrite occurrences_snoc, Hcount. unfold bears.
    rewrite Hid, Hlabel. lia.
  - exists st. repeat (split; [reflexivity|]).
    intros fid'. rewrite occurrences_snoc, Hcount. unfold bears.
    rewrite Hid. lia.
Qed.

Lemma load_nothing_retained cfg sel seen rest st :
  tightening_cycles cfg = CyclesList sel →
  (∀ fid, default 0 (all_cycle_counts st !! fid) = occurrences fid seen) →
  retained_from sel seen rest = [] →
  ∃ st', foldM (process_file cfg) st rest = Ok st' ∧
    return_values st' = return_values st ∧
    equidistancing_logs st' = equidistancing_logs st ∧
    truncating_logs st' = truncating_logs st ∧
    padding_logs st' = padding_logs st ∧
    ∀ fid, default 0 (all_cycle_counts st' !! fid) = occurrences fid (seen ++ rest).
Proof.
  intros Hsel. revert seen st. induction rest as [|f rest IH]; intros seen st Hcount Hret.
  - exists st. rewrite app_nil_r. repeat split; auto.
  - change (f :: rest) with ([f] ++ rest) in Hret. rewrite retained_from_app in Hret.
    apply app_eq_nil in Hret as [Hf Hrest].
    replace (seen ++ f :: rest) with ((seen ++ [f]) ++ rest) by (rewrite <- app_assoc; reflexivity).
    destruct (process_file_not_retained cfg sel seen st f Hsel Hcount Hf)
      as (st1 & H1 & Hrv & He & Ht & Hp & Hc).
    destruct (IH (seen ++ [f]) st1 Hc Hrest) as (st' & H' & Hrv' & He' & Ht' & Hp' & Hc').
    exists st'. cbn [foldM]. rewrite H1. cbn [mbind result_bind].
    split; [exact H'|]. repeat split; congruence.
Qed.

(** X21. Records that are not retained are never looked into: when no
    record of the directory has a selected cycle (an empty selection, for
    one), the loop ends without an error whatever the records hold, the
    buffers and the logs are empty, and the records are still counted. *)
Theorem load_files_nothing_retained cfg sel files :
  tightening_cycles cfg = CyclesList sel →
  retained_from sel [] files = [] →
  ∃ st, load_files cfg files = Ok st ∧
    return_values st = replicate (S (length (tightening_values cfg))) [] ∧
    equidistancing_logs st = [] ∧ truncating_logs st = [] ∧ padding_logs st = [] ∧
    ∀ fid, default 0 (all_cycle_counts st !! fid) = occurrences fid files.
Proof.
  intros Hsel Hret.
  apply (load_nothing_retained cfg sel [] files (initial_state cfg) Hsel);
    [intros fid; reflexivity | exact Hret].
Qed.

Lemma load_files_nothing_retained_witness :
  ∃ st, load_files no_cycles_config [ragged_file; ragged_file] = Ok st ∧
    return_values st = [[]; []; []] ∧
    equidistancing_logs st = [] ∧ truncating_logs st = [] ∧ padding_logs st = [] ∧
    ∀ fid, default 0 (all_cycle_counts st !! fid) = occurrences fid [ragged_file; ragged_file].
Proof.
  apply (load_files_nothing_retained no_cycles_config [] [ragged_file; ragged_file]);
    reflexivity.
Defined.

(** ** from_directory as a whole *)

Section LoadingProps.

Variable rng : Type.
Variable random_seed : Z → rng.
Variable randbelow : nat → rng → nat * rng.
Variable np_array : value → result value.
Hypothesis randbelow_lt : ∀ n g, (0 < n)%nat → ((randbelow n g).1 < n)%nat.

(** X22. from_directory never returns binary labels. apply_split hands its
    result over as a tuple and apply_conversion assigns the converted labels
    into it, so with [result_format = "binary"] (the default of get_data) the
    call raises for every directory, configuration, ratio, seed and return
    format, whether or not it logs; the store is untouched. *)
Theorem from_directory_binary_raises files cfg split_ratio split_seed return_format
    logging_enabled g (σ : gmap loc (list value)) :
  ∃ e, (from_directory rng random_seed randbelow np_array files cfg split_ratio split_seed
          return_format "binary" logging_enabled g σ).1.1 = Raise e ∧
       (from_directory rng random_seed randbelow np_array files cfg split_ratio split_seed
          return_format "binary" logging_enabled g σ).2 = σ.
Proof.
  unfold from_directory.
  destruct (load_files cfg files) as [st|e]; [|exists e; split; reflexivity].
  destruct (apply_split _ rng random_seed randbelow (return_values st) split_ratio split_seed g)
    as [[out|e] g']; [|exists e; split; reflexivity].
  unfold apply_conversion.
  destruct (apply_result_format_tuple (tuple_of_split out) σ) as (e & -> & _).
  exists e. split; reflexivity.
Qed.

(** X23. With ["raw"] and ["nested_list"] from_directory returns whenever
    its loop over the files ends without an error: the buffers of the loop
    always meet what apply_split needs, the conversion leaves the tuple and
    the store as they are, and the logging cannot fail once a value is
    requested. What is returned is the split of the buffers, each buffer
    rearranged and nothing lost. *)
Theorem from_directory_raw_returns files cfg st split_ratio split_seed logging_enabled g
    (σ : gmap loc (list value)) :
  load_files cfg files = Ok st →
  logging_enabled = false ∨ tightening_values cfg ≠ [] →
  ∃ out g',
    from_directory rng random_seed randbelow np_array files cfg split_ratio split_seed
      "nested_list" "raw" logging_enabled g σ
      = (Ok (TupleObj (tuple_of_split out)), g', σ) ∧
    apply_split (λ array : item, array) rng random_seed randbelow
      (return_values st) split_ratio split_seed g = (Ok out, g') ∧
    Forall2 (λ joined buf, joined ≡ₚ buf) (rejoin out) (return_values st).
Proof.
  intros Hload Hlog. unfold from_directory. rewrite Hload.
  destruct (load_files_aligned cfg files st Hload) as [Hlen (n & Hn)].
  assert (return_values st ≠ []) as Hne by (intros E; rewrite E in Hlen; discriminate).
  destruct (apply_split_rejoin (λ array : item, array) rng random_seed randbelow randbelow_lt
              (return_values st) split_ratio split_seed g n Hne Hn)
    as (indices & out & Hperm & Hout & Hrej & Hshape).
  destruct (apply_split _ rng random_seed randbelow (return_values st) split_ratio split_seed g)
    as [r g'] eqn:Hsplit.
  simpl in Hout. subst r.
  exists out, g'.
  assert (apply_conversion np_array (TupleObj (tuple_of_split out)) "raw" "nested_list" σ
          = (Ok (TupleObj (tuple_of_split out)), σ)) as -> by reflexivity.
  split; [|split; [reflexivity|]].
  - destruct logging_enabled; [|reflexivity].
    destruct Hlog as [?|Hvalues]; [discriminate|].
    assert (log_metrics (equidistancing_logs st) (truncating_logs st) (padding_logs st)
              (TupleObj (tuple_of_split out)) "raw" "nested_list" = Ok ()) as ->; [|reflexivity].
    destruct out as [x_train x_test y_train y_test|x_values y_values]; [|reflexivity].
    destruct Hshape as [Htr Hte]. rewrite Hlen in Htr, Hte. cbn [pred] in Htr, Hte.
    destruct (tightening_values cfg) as [|v vs]; [done|].
    destruct x_train as [|c1 x_train]; [discriminate|].
    destruct x_test as [|c2 x_test]; [discriminate|].
    reflexivity.
  - rewrite Hrej. clear -Hn Hperm.
    induction Hn as [|buf data Hbuf _ IH]; constructor; [|exact IH].
    rewrite <- (list_fmap_id buf) at 2.
    apply permute_Permutation. rewrite Hbuf. exact Hperm.
Qed.

End LoadingProps.

Lemma from_directory_raw_returns_witness :
  ∃ st out g',
    load_files three_cycles_config six_files = Ok st ∧
    from_directory Z lcg_seed lcg_randbelow (λ v, Ok v) six_files three_cycles_config
      (Some (6 # 10)) (Some 42) "nested_list" "raw" true 0 ∅
      = (Ok (TupleObj (tuple_of_split out)), g', ∅) ∧
    apply_split (λ array : item, array) Z lcg_seed lcg_randbelow
      (return_values st) (Some (6 # 10)) (Some 42) 0 = (Ok out, g') ∧
    Forall2 (λ joined buf, joined ≡ₚ buf) (rejoin out) (return_values st).
Proof.
  destruct (load_files three_cycles_config six_files) as [st|e] eqn:E;
    [|vm_compute in E; discriminate].
  exists st.
  destruct (from_directory_raw_returns Z lcg_seed lcg_randbelow (λ v, Ok v) lcg_randbelow_lt
              six_files three_cycles_config st (Some (6 # 10)) (Some 42) true 0 ∅ E)
    as (out & g' & H); [right; discriminate|].
  exists out, g'. split; [reflexivity | exact H].
Defined.

(** ** The validator *)

Lemma bind_Raise {A B} (m : result A) (f : A → result B) e :
  m ≫= f = Raise e ↔ m = Raise e ∨ ∃ a, m = Ok a ∧ f a = Raise e.
Proof.
  destruct m as [a|e']; simpl.
  - split; [eauto | intros [H|(a' & [= ->] & H)]; [discriminate | exact H]].
  - split; [intros [= ->]; auto | intros [[= ->]|(a' & [=] & _)]; reflexivity].
Qed.

Lemma dict_set_same {V} k (v : V) d : Dict.get k d = Some v → Dict.set k v d = d.
Proof.
  induction d as [|[k0 v0] d IH]; simpl; [discriminate|].
  case_decide as Hk; [intros [= ->]; subst; reflexivity|].
  intros H. rewrite IH by exact H. reflexivity.
Qed.

(** ** The parameter checks *)

Section ValidatingProps.

Import Validating.

Lemma eq_int_in (x : pyobj) (valid : list Z) :
  isinstance_int x = true →
  existsb (eq_int x) valid = true ↔ int_value x ∈ valid.
Proof.
  intros Hx. rewrite existsb_exists. split.
  - intros (n & Hn & He). apply list_elem_of_In in Hn.
    destruct x; try discriminate; simpl in *; apply bool_decide_eq_true in He; subst; exact Hn.
  - intros Hin. exists (int_value x). split; [apply list_elem_of_In, Hin|].
    destruct x; try discriminate; simpl; apply bool_decide_eq_true; reflexivity.
Qed.

Lemma eq_str_in (x : pyobj) (valid : list string) :
  existsb (eq_str x) valid = true ↔ str_in valid x.
Proof.
  rewrite existsb_exists. split.
  - intros (s & Hs & He). apply list_elem_of_In in Hs.
    destruct x; try discriminate. simpl in He. apply bool_decide_eq_true in He. subst.
    eexists; eauto.
  - intros (s & -> & Hs). exists s. split; [apply list_elem_of_In, Hs|].
    simpl. apply bool_decide_eq_true. reflexivity.
Qed.

Lemma ints_valid (items : list pyobj) (valid : list Z) :
  forallb isinstance_int items = true ∧
  forallb (λ item, existsb (eq_int item) valid) items = true
  ↔ Forall (int_in valid) items.
Proof.
  rewrite !forallb_forall, Forall_forall. unfold int_in. split.
  - intros [H1 H2] x Hx. apply list_elem_of_In in Hx.
    split; [apply H1, Hx|]. apply eq_int_in; [apply H1, Hx | apply H2, Hx].
  - intros H. split; intros x Hx; apply list_elem_of_In in Hx; destruct (H x Hx) as [Hi Hv];
      [exact Hi | apply eq_int_in; assumption].
Qed.

Lemma strs_valid (items : list pyobj) (valid : list string) :
  forallb isinstance_str items = true ∧
  forallb (λ item, existsb (eq_str item) valid) items = true
  ↔ Forall (str_in valid) items.
Proof.
  rewrite !forallb_forall, Forall_forall. split.
  - intros [H1 H2] x Hx. apply list_elem_of_In in Hx. apply eq_str_in, H2, Hx.
  - intros H. split; intros x Hx; apply list_elem_of_In in Hx; pose proof (H x Hx) as Hs.
    + destruct Hs as (s & -> & _). reflexivity.
    + apply eq_str_in, Hs.
Qed.

Lemma ints_check (items : list pyobj) (valid : list Z) :
  negb (forallb isinstance_int items)
  || negb (forallb (λ item, existsb (eq_int item) valid) items) = false
  ↔ Forall (int_in valid) items.
Proof.
  rewrite <- ints_valid, orb_false_iff, !negb_false_iff. reflexivity.
Qed.

Lemma strs_check (items : list pyobj) (valid : list string) :
  negb (forallb isinstance_str items)
  || negb (forallb (λ item, existsb (eq_str item) valid) items) = false
  ↔ Forall (str_in valid) items.
Proof.
  rewrite <- strs_valid, orb_false_iff, !negb_false_iff. reflexivity.
Qed.

Lemma all_ints_valid (valid : list Z) : Forall (int_in valid) (PInt <$> valid).
Proof.
  apply Forall_fmap, Forall_forall. intros n Hn. split; [reflexivity | exact Hn].
Qed.

Lemma all_strs_valid (valid : list string) : Forall (str_in valid) (PStr <$> valid).
Proof.
  apply Forall_fmap, Forall_forall. intros s Hs. exists s. auto.
Qed.

Lemma check_and_update_steps_list items :
  check_and_update_steps (PList items)
  = if decide (Forall (int_in valid_steps) items) then Ok (PList items) else handle_error.
Proof.
  unfold check_and_update_steps. cbn [eq_str isinstance_int].
  destruct (negb _ || negb _) eqn:E.
  - rewrite decide_False; [reflexivity|]. intros H. apply ints_check in H. congruence.
  - rewrite decide_True; [reflexivity|]. apply ints_check, E.
Qed.

Lemma check_and_update_cycles_list items :
  check_and_update_cycles (PList items)
  = if decide (Forall (int_in valid_cycles) items) then Ok (PList items) else handle_error.
Proof.
  unfold check_and_update_cycles. cbn [eq_str isinstance_int].
  destruct (negb _ || negb _) eqn:E.
  - rewrite decide_False; [reflexivity|]. intros H. apply ints_check in H. congruence.
  - rewrite decide_True; [reflexivity|]. apply ints_check, E.
Qed.

Lemma check_and_update_values_list items y :
  check_and_update_values (PList items) = Ok y
  ↔ y = PList items ∧ Forall (str_in valid_values) items.
Proof.
  unfold check_and_update_values. cbn [eq_str isinstance_str].
  destruct (negb _ || negb _) eqn:E.
  - split; [discriminate|]. intros [_ H]. apply strs_check in H. congruence.
  - apply strs_check in E. split; [intros [= <-]; auto | intros [-> _]; reflexivity].
Qed.

Lemma check_and_update_steps_Ok x y :
  check_and_update_steps x = Ok y →
  ∃ items, y = PList items ∧ Forall (int_in valid_steps) items ∧
    (x = PStr ALL ∧ items = PInt <$> valid_steps ∨
     int_in valid_steps x ∧ items = [x] ∨
     x = y).
Proof.
  destruct x as [|b|n|q|s|items].
  all: try discriminate.
  - unfold check_and_update_steps. cbn [eq_str isinstance_int].
    destruct (existsb _ _) eqn:E; [|discriminate]. intros [= <-].
    apply eq_int_in in E; [|reflexivity].
    exists [PBool b]. split; [reflexivity|].
    assert (int_in valid_steps (PBool b)) by (split; [reflexivity | exact E]).
    split; [apply Forall_singleton; assumption | auto].
  - unfold check_and_update_steps. cbn [eq_str isinstance_int].
    destruct (existsb _ _) eqn:E; [|discriminate]. intros [= <-].
    apply eq_int_in in E; [|reflexivity].
    exists [PInt n]. split; [reflexivity|].
    assert (int_in valid_steps (PInt n)) by (split; [reflexivity | exact E]).
    split; [apply Forall_singleton; assumption | auto].
  - unfold check_and_update_steps. cbn [eq_str isinstance_int].
    case_bool_decide as Hs; [|discriminate]. intros [= <-]. subst s.
    exists (PInt <$> valid_steps). split; [reflexivity|].
    split; [apply all_ints_valid | auto].
  - rewrite check_and_update_steps_list. case_decide as H; [|discriminate].
    intros [= <-]. exists items. auto.
Qed.

Lemma check_and_update_cycles_Ok x y :
  check_and_update_cycles x = Ok y →
  ∃ items, y = PList items ∧ Forall (int_in valid_cycles) items ∧
    (x = PStr ALL ∧ items = PInt <$> valid_cycles ∨
     int_in valid_cycles x ∧ items = [x] ∨
     x = y).
Proof.
  destruct x as [|b|n|q|s|items].
  all: try discriminate.
  - unfold check_and_update_cycles. cbn [eq_str isinstance_int].
    destruct (existsb _ _) eqn:E; [|discriminate]. intros [= <-].
    apply eq_int_in in E; [|reflexivity].
    exists [PBool b]. split; [reflexivity|].
    assert (int_in valid_cycles (PBool b)) by (split; [reflexivity | exact E]).
    split; [apply Forall_singleton; assumption | auto].
  - unfold check_and_update_cycles. cbn [eq_str isinstance_int].
    destruct (existsb _ _) eqn:E; [|discriminate]. intros [= <-].
    apply eq_int_in in E; [|reflexivity].
    exists [PInt n]. split; [reflexivity|].
    assert (int_in valid_cycles (PInt n)) by (split; [reflexivity | exact E]).
    split; [apply Forall_singleton; assumption | auto].
  - unfold check_and_update_cycles. cbn [eq_str isinstance_int].
    case_bool_decide as Hs; [|discriminate]. intros [= <-]. subst s.
    exists (PInt <$> valid_cycles). split; [reflexivity|].
    split; [apply all_ints_valid | auto].
  - rewrite check_and_update_cycles_list. case_decide as H; [|discriminate].
    intros [= <-]. exists items. auto.
Qed.

Lemma check_and_update_values_Ok x y :
  check_and_update_values x = Ok y →
  ∃ items, y = PList items ∧ Forall (str_in valid_values) items ∧
    (x = PStr ALL ∧ items = PStr <$> valid_values ∨
     str_in valid_values x ∧ items = [x] ∨
     x = y).
Proof.
  destruct x as [|b|n|q|s|items].
  all: try discriminate.
  - unfold check_and_update_values. cbn [eq_str isinstance_str].
    case_bool_decide as Hs.
    + intros [= <-]. subst s. exists (PStr <$> valid_values). split; [reflexivity|].
      split; [apply all_strs_valid | auto].
    + destruct (existsb _ _) eqn:E; [|discriminate]. intros [= <-].
      apply eq_str_in in E. exists [PStr s]. split; [reflexivity|].
      split; [apply Forall_singleton; assumption | auto].
  - intros H. apply check_and_update_values_list in H as [-> H]. exists items. auto.
Qed.


(** X24. Which step selections the validator accepts: the string ["all"],
    an instance of [int] with a value from 1 to 4, or a list of such
    instances (the empty list included). [bool] being a subclass of [int],
    [True] passes as step 1; a float never passes, whatever its value. *)
Theorem check_and_update_steps_accepts x :
  is_Ok (check_and_update_steps x) ↔
  x = PStr ALL ∨ int_in valid_steps x ∨
  ∃ items, x = PList items ∧ Forall (int_in valid_steps) items.
Proof.
  split.
  - intros [y Hy]. apply check_and_update_steps_Ok in Hy
      as (items & -> & Hitems & [[-> _]|[[Hx _]| ->]]); eauto.
  - intros [->|[[Hi Hv]|(items & -> & Hitems)]].
    + eexists. reflexivity.
    + exists (PList [x]). unfold check_and_update_steps.
      assert (eq_str x ALL = false) as -> by (destruct x; try discriminate; reflexivity).
      rewrite Hi. rewrite (proj2 (eq_int_in x valid_steps Hi) Hv). reflexivity.
    + exists (PList items). rewrite check_and_update_steps_list, decide_True by exact Hitems.
      reflexivity.
Qed.

Lemma check_boolean_param_Ok x name u :
  check_boolean_param x name = Ok u ↔ ∃ b, x = PBool b.
Proof.
  destruct u. destruct x; simpl; split; try discriminate; eauto; intros [? [=]].
Qed.

Lemma check_positive_integer_Ok x name u :
  check_positive_integer x name = Ok u ↔
  none_or (λ x, isinstance_int x = true ∧ 0 < int_value x) x.
Proof.
  destruct u. unfold none_or.
  assert (x ≠ PNone →
          (if negb (isinstance_int x) || bool_decide (int_value x ≤ 0)
           then handle_error else Ok ()) = Ok () ↔ isinstance_int x = true ∧ 0 < int_value x)
    as Hgen.
  { intros _. destruct (isinstance_int x); simpl.
    - case_bool_decide; split; try discriminate; try (intros [_ ?]; lia); intros _; split; [reflexivity | lia].
    - split; [discriminate | intros [[=] _]]. }
  destruct x; simpl check_positive_integer; try (rewrite Hgen by discriminate); try tauto.
  all: split; [intros H; right; exact H | intros [[=]|H]; exact H].
Qed.

Lemma check_choice_param_Ok x name choices u :
  check_choice_param x name choices = Ok u ↔ none_or (str_in choices) x.
Proof.
  destruct u. unfold none_or.
  assert ((if negb (existsb (eq_str x) choices) then handle_error else Ok ()) = Ok ()
          ↔ str_in choices x) as Hgen.
  { rewrite <- eq_str_in. unfold handle_error. destruct (existsb _ _); simpl; split; congruence. }
  destruct x; simpl check_choice_param; try rewrite Hgen; try tauto.
  all: split; [intros H; right; exact H | intros [[=]|H]; exact H].
Qed.

Lemma check_numeric_param_Ok x name u :
  check_numeric_param x name = Ok u ↔ none_or (λ x, isinstance_numeric x = true) x.
Proof.
  destruct u. unfold none_or.
  destruct x; simpl; split; try discriminate; auto; intros [[=]|[=]].
Qed.

Lemma check_integer_param_Ok x name u :
  check_integer_param x name = Ok u ↔ none_or (λ x, isinstance_int x = true) x.
Proof.
  destruct u. unfold none_or.
  destruct x; simpl; split; try discriminate; auto; intros [[=]|[=]].
Qed.

Lemma check_split_ratio_Ok x u :
  check_split_ratio x = Ok u ↔
  none_or (λ x, ∃ r, x = PFloat r ∧ (0 < r)%Q ∧ (r < 1)%Q) x.
Proof.
  destruct u. unfold none_or.
  destruct x as [|b|n|r|s|items]; simpl.
  - split; auto.
  - split; [discriminate | intros [[=]|(r' & [=] & _)]].
  - split; [discriminate | intros [[=]|(r' & [=] & _)]].
  - split.
    + destruct (Py.float_lt 0 r && Py.float_lt r 1) eqn:E; [|discriminate]. intros _.
      apply andb_true_iff in E as [E0 E1].
      apply float_lt_true in E0. apply float_lt_true in E1. right. eauto.
    + intros [[=]|(r' & [= <-] & H0 & H1)].
      unfold Py.float_lt. 
      destruct (Qle_bool r 0) eqn:E0; [apply Qle_bool_iff in E0; lra|].
      destruct (Qle_bool 1 r) eqn:E1; [apply Qle_bool_iff in E1; lra|].
      reflexivity.
  - split; [discriminate | intros [[=]|(r' & [=] & _)]].
  - split; [discriminate | intros [[=]|(r' & [=] & _)]].
Qed.

Lemma check_equidistancing_list enabled items u :
  check_equidistancing enabled (PList items) = Ok u ↔
  (truthy enabled = true → PStr "time" ∈ items).
Proof.
  destruct u. unfold check_equidistancing. cbn [contains mbind result_bind eq_str].
  rewrite andb_true_r.
  assert (existsb (λ x, eq_str x "time") items = true ↔ PStr "time" ∈ items) as Hin.
  { rewrite existsb_exists. split.
    - intros (x & Hx & He). destruct x; try discriminate. simpl in He.
      apply bool_decide_eq_true in He. subst. apply list_elem_of_In, Hx.
    - intros H. exists (PStr "time"). split; [apply list_elem_of_In, H | reflexivity]. }
  destruct (truthy enabled); [|split; [intros _ [=] | reflexivity]].
  destruct (existsb (λ x, eq_str x "time") items); simpl.
  - split; [intros _ _; apply Hin; reflexivity | reflexivity].
  - split; [discriminate|]. intros H. apply Hin in H; [discriminate | reflexivity].
Qed.


Lemma get_set_ne k k' v (d : dict pyobj) : k ≠ k' → get k' (Dict.set k v d) = get k' d.
Proof. intros H. unfold get. rewrite dict_get_set_ne by exact H. reflexivity. Qed.

Lemma get_or_set_ne k k' v dflt (d : dict pyobj) :
  k ≠ k' → get_or k' dflt (Dict.set k v d) = get_or k' dflt d.
Proof. intros H. unfold get_or. rewrite dict_get_set_ne by exact H. reflexivity. Qed.

Lemma get_set_eq k v (d : dict pyobj) : get k (Dict.set k v d) = v.
Proof. unfold get. rewrite dict_get_set_eq. reflexivity. Qed.

Lemma get_or_set_eq k v dflt (d : dict pyobj) : get_or k dflt (Dict.set k v d) = v.
Proof. unfold get_or. rewrite dict_get_set_eq. reflexivity. Qed.

Section ValidateProps.

Variable os_path_exists : pyobj → result bool.

(** The checks that follow the three updates. *)
Lemma validate_and_update_params_inv params params' :
  validate_and_update_params os_path_exists params = Ok params' →
  ∃ steps cycles values,
    check_source_path os_path_exists (get "source_path" params) = Ok () ∧
    check_and_update_steps (get_or "tightening_steps" (PStr ALL) params) = Ok (PList steps) ∧
    check_and_update_cycles (get_or "tightening_cycles" (PStr ALL) params) = Ok (PList cycles) ∧
    check_and_update_values (get_or "tightening_values" (PStr ALL) params) = Ok (PList values) ∧
    Forall (int_in valid_steps) steps ∧
    Forall (int_in valid_cycles) cycles ∧
    Forall (str_in valid_values) values ∧
    params' = Dict.set "tightening_values" (PList values)
                (Dict.set "tightening_cycles" (PList cycles)
                   (Dict.set "tightening_steps" (PList steps) params)) ∧
    validated params'.
Proof.
  unfold validate_and_update_params. intros H.
  apply bind_Ok in H as ([] & Hpath & H).
  apply bind_Ok in H as (s & Hs & H).
  apply bind_Ok in H as (c & Hc & H).
  apply bind_Ok in H as (v & Hv & H). cbv zeta in H.
  rewrite get_or_set_ne in Hc by discriminate.
  rewrite !get_or_set_ne in Hv by discriminate.
  destruct (check_and_update_steps_Ok _ _ Hs) as (steps & -> & Hsteps & _).
  destruct (check_and_update_cycles_Ok _ _ Hc) as (cycles & -> & Hcycles & _).
  destruct (check_and_update_values_Ok _ _ Hv) as (values & -> & Hvalues & _).
  set (p' := Dict.set "tightening_values" (PList values)
               (Dict.set "tightening_cycles" (PList cycles)
                  (Dict.set "tightening_steps" (PList steps) params))) in *.
  apply bind_Ok in H as (u1 & H1 & H). apply check_boolean_param_Ok in H1.
  apply bind_Ok in H as (u2 & H2 & H).
  unfold p' in H2 at 2. rewrite get_set_eq in H2.
  pose proof (proj1 (check_equidistancing_list _ _ _) H2) as H2'. clear H2.
  apply bind_Ok in H as (u3 & H3 & H). apply check_positive_integer_Ok in H3.
  apply bind_Ok in H as (u4 & H4 & H). apply check_choice_param_Ok in H4.
  apply bind_Ok in H as (u5 & H5 & H). apply check_numeric_param_Ok in H5.
  apply bind_Ok in H as (u6 & H6 & H). apply check_choice_param_Ok in H6.
  apply bind_Ok in H as (u7 & H7 & H). apply check_split_ratio_Ok in H7.
  apply bind_Ok in H as (u8 & H8 & H). apply check_integer_param_Ok in H8.
  apply bind_Ok in H as (u9 & H9 & H). apply check_choice_param_Ok in H9.
  apply bind_Ok in H as (u10 & H10 & H). apply check_choice_param_Ok in H10.
  apply bind_Ok in H as (u11 & H11 & H). apply check_boolean_param_Ok in H11.
  apply bind_Ok in H as (u12 & H12 & H). apply check_boolean_param_Ok in H12.
  injection H as <-.
  exists steps, cycles, values.
  split; [exact Hpath|]. split; [exact Hs|]. split; [exact Hc|]. split; [exact Hv|].
  split; [exact Hsteps|]. split; [exact Hcycles|]. split; [exact Hvalues|].
  split; [reflexivity|].
  unfold validated.
  split. { exists steps. split; [|exact Hsteps]. unfold p'.
           rewrite !dict_get_set_ne by discriminate. apply dict_get_set_eq. }
  split. { exists cycles. split; [|exact Hcycles]. unfold p'.
           rewrite !dict_get_set_ne by discriminate. apply dict_get_set_eq. }
  split. { exists values. split; [unfold p'; apply dict_get_set_eq|].
           split; [exact Hvalues|]. intros He. apply H2'. by rewrite He. }
  split; [exact H1|]. split; [exact H3|]. split; [exact H4|]. split; [exact H5|].
  split; [exact H6|]. split; [exact H7|]. split; [exact H8|]. split; [exact H9|].
  split; [exact H10|]. split; [exact H11 | exact H12].
Qed.

(** X26. What holds after a validation that raised nothing: the three
    selections are lists of admitted steps, cycles and values, ["time"] is
    among the values when equidistancing is enabled, every other parameter
    has a value of its kind, and no key other than the three selections has
    been changed. *)
Theorem validation_postcondition params params' :
  validate_and_update_params os_path_exists params = Ok params' →
  validated params' ∧
  ∀ key, key ∉ ["tightening_steps"; "tightening_cycles"; "tightening_values"] →
         Dict.get key params' = Dict.get key params.
Proof.
  intros H. apply validate_and_update_params_inv in H
    as (steps & cycles & values & _ & _ & _ & _ & _ & _ & _ & -> & Hv).
  split; [exact Hv|]. intros key Hkey.
  rewrite !dict_get_set_ne; [reflexivity|..]; intros <-; apply Hkey;
    repeat first [left | right; left | right; right; left].
Qed.

(** X27. Validated parameters are a fixed point of the validation: a second
    validation of the dictionary the first one left behind accepts it and
    changes nothing. *)
Theorem validated_params_pass params params' :
  validate_and_update_params os_path_exists params = Ok params' →
  validate_and_update_params os_path_exists params' = Ok params'.
Proof.
  intros H. pose proof H as H0.
  apply validate_and_update_params_inv in H0
    as (steps & cycles & values & Hpath & _ & _ & _ & Hsteps & Hcycles & Hvalues & Hp' & _).
  assert (Dict.get "tightening_steps" params' = Some (PList steps)) as Hgs.
  { rewrite Hp', !dict_get_set_ne by discriminate. apply dict_get_set_eq. }
  assert (Dict.get "tightening_cycles" params' = Some (PList cycles)) as Hgc.
  { rewrite Hp', !dict_get_set_ne by discriminate. apply dict_get_set_eq. }
  assert (Dict.get "tightening_values" params' = Some (PList values)) as Hgv.
  { rewrite Hp'. apply dict_get_set_eq. }
  assert (get "source_path" params' = get "source_path" params) as Hsp.
  { rewrite Hp', !get_set_ne by discriminate. reflexivity. }
  unfold validate_and_update_params in H |- *.
  rewrite Hsp, Hpath. cbn [mbind result_bind].
  rewrite Hpath in H. cbn [mbind result_bind] in H.
  apply bind_Ok in H as (s & Hs & H).
  apply bind_Ok in H as (c & Hc & H).
  apply bind_Ok in H as (v & Hv & H). cbv zeta in H.
  rewrite get_or_set_ne in Hc by discriminate.
  rewrite !get_or_set_ne in Hv by discriminate.
  destruct (check_and_update_steps_Ok _ _ Hs) as (steps' & -> & _).
  destruct (check_and_update_cycles_Ok _ _ Hc) as (cycles' & -> & _).
  destruct (check_and_update_values_Ok _ _ Hv) as (values' & -> & _).
  assert (steps' = steps ∧ cycles' = cycles ∧ values' = values) as (-> & -> & ->).
  { apply bind_Ok in H as (_ & _ & H). repeat (apply bind_Ok in H as (? & _ & H)).
    injection H as H. rewrite <- H in Hgs, Hgc, Hgv.
    rewrite dict_get_set_eq in Hgv.
    rewrite dict_get_set_ne, dict_get_set_eq in Hgc by discriminate.
    rewrite !dict_get_set_ne, dict_get_set_eq in Hgs by discriminate.
    split; [|split]; congruence. }
  rewrite <- Hp' in H.
  assert (get_or "tightening_steps" (PStr ALL) params' = PList steps) as Hos
    by (unfold get_or; rewrite Hgs; reflexivity).
  assert (get_or "tightening_cycles" (PStr ALL) params' = PList cycles) as Hoc
    by (unfold get_or; rewrite Hgc; reflexivity).
  assert (get_or "tightening_values" (PStr ALL) params' = PList values) as Hov
    by (unfold get_or; rewrite Hgv; reflexivity).
  rewrite Hos, check_and_update_steps_list, decide_True by exact Hsteps.
  cbn [mbind result_bind]. cbv zeta.
  rewrite (dict_set_same "tightening_steps" _ params' Hgs).
  rewrite Hoc, check_and_update_cycles_list, decide_True by exact Hcycles.
  cbn [mbind result_bind].
  rewrite (dict_set_same "tightening_cycles" _ params' Hgc).
  rewrite Hov, (proj2 (check_and_update_values_list values (PList values))) by auto.
  cbn [mbind result_bind].
  rewrite (dict_set_same "tightening_values" _ params' Hgv).
  exact H.
Qed.

Lemma check_source_path_exn x e :
  check_source_path os_path_exists x = Raise e →
  e = ParameterValidationError ∨ os_path_exists x = Raise e.
Proof.
  unfold check_source_path, handle_error.
  destruct x; [intros [= <-]; auto|..];
    (destruct (os_path_exists _) as [[|]|e']; simpl; intros [= <-]; auto).
Qed.

(** X28. The validation raises nothing but [ParameterValidationError],
    apart from what [os.path.exists] itself raises on the source path: in
    particular the membership test of check_equidistancing always meets a
    list. *)
Theorem validate_and_update_params_exn params e :
  validate_and_update_params os_path_exists params = Raise e →
  e = ParameterValidationError ∨ os_path_exists (get "source_path" params) = Raise e.
Proof.
  assert (∀ x, check_and_update_steps x = Raise e → e = ParameterValidationError) as Es.
  { intros x. unfold check_and_update_steps, handle_error.
    repeat (case_match; try congruence). }
  assert (∀ x, check_and_update_cycles x = Raise e → e = ParameterValidationError) as Ec.
  { intros x. unfold check_and_update_cycles, handle_error.
    repeat (case_match; try congruence). }
  assert (∀ x, check_and_update_values x = Raise e → e = ParameterValidationError) as Ev.
  { intros x. unfold check_and_update_values, handle_error.
    repeat (case_match; try congruence). }
  assert (∀ x n, check_boolean_param x n = Raise e → e = ParameterValidationError) as Eb.
  { intros x n. unfold check_boolean_param, handle_error. repeat (case_match; try congruence). }
  assert (∀ x n, check_positive_integer x n = Raise e → e = ParameterValidationError) as Ep.
  { intros x n. unfold check_positive_integer, handle_error.
    repeat (case_match; try congruence). }
  assert (∀ x n l, check_choice_param x n l = Raise e → e = ParameterValidationError) as Ech.
  { intros x n l. unfold check_choice_param, handle_error.
    repeat (case_match; try congruence). }
  assert (∀ x n, check_numeric_param x n = Raise e → e = ParameterValidationError) as En.
  { intros x n. unfold check_numeric_param, handle_error.
    repeat (case_match; try congruence). }
  assert (∀ x, check_split_ratio x = Raise e → e = ParameterValidationError) as Er.
  { intros x. unfold check_split_ratio, handle_error. repeat (case_match; try congruence). }
  assert (∀ x n, check_integer_param x n = Raise e → e = ParameterValidationError) as Ei.
  { intros x n. unfold check_integer_param, handle_error.
    repeat (case_match; try congruence). }
  assert (∀ x items, check_equidistancing x (PList items) = Raise e
                     → e = ParameterValidationError) as Ee.
  { intros x items. unfold check_equidistancing, handle_error. cbn [contains mbind result_bind].
    repeat (case_match; try congruence). }
  unfold validate_and_update_params. intros H.
  apply bind_Raise in H as [H|([] & _ & H)]; [apply check_source_path_exn, H|]. left.
  apply bind_Raise in H as [H|(s & _ & H)]; [eapply Es, H|].
  apply bind_Raise in H as [H|(c & _ & H)]; [eapply Ec, H|].
  apply bind_Raise in H as [H|(v & Hv & H)]; [eapply Ev, H|]. cbv zeta in H.
  destruct (check_and_update_values_Ok _ _ Hv) as (values & -> & _).
  apply bind_Raise in H as [H|(? & _ & H)]; [eapply Eb, H|].
  apply bind_Raise in H as [H|(? & _ & H)]; [rewrite get_set_eq in H; eapply Ee, H|].
  apply bind_Raise in H as [H|(? & _ & H)]; [eapply Ep, H|].
  apply bind_Raise in H as [H|(? & _ & H)]; [eapply Ech, H|].
  apply bind_Raise in H as [H|(? & _ & H)]; [eapply En, H|].
  apply bind_Raise in H as [H|(? & _ & H)]; [eapply Ech, H|].
  apply bind_Raise in H as [H|(? & _ & H)]; [eapply Er, H|].
  apply bind_Raise in H as [H|(? & _ & H)]; [eapply Ei, H|].
  apply bind_Raise in H as [H|(? & _ & H)]; [eapply Ech, H|].
  apply bind_Raise in H as [H|(? & _ & H)]; [eapply Ech, H|].
  apply bind_Raise in H as [H|(? & _ & H)]; [eapply Eb, H|].
  apply bind_Raise in H as [H|(? & _ & H)]; [eapply Eb, H|].
  discriminate.
Qed.

End ValidateProps.

End ValidatingProps.

(** X25. On the typed selectors of the loading model (a string, an integer,
    a list of integers) the dynamic check of the cycles and the typed one
    agree: the same selectors are rejected, and the accepted ones are
    turned into the same list. *)
Theorem check_and_update_cycles_typed sel :
  Validating.check_and_update_cycles (of_selector sel)
  = (λ l, PList (PInt <$> l)) <$> check_and_update_cycles sel.
Proof.
  destruct sel as [s|n|l]; cbn [of_selector check_and_update_cycles].
  - unfold Validating.check_and_update_cycles.
    cbn [Validating.eq_str Validating.isinstance_int]. unfold Validating.ALL.
    case_bool_decide; case_decide; try congruence; reflexivity.
  - unfold Validating.check_and_update_cycles.
    cbn [Validating.eq_str Validating.isinstance_int].
    destruct (existsb _ _) eqn:E.
    + apply eq_int_in in E; [|reflexivity]. rewrite decide_True by exact E. reflexivity.
    + rewrite decide_False; [reflexivity|]. intros H.
      apply (eq_int_in (PInt n)) in H; [congruence | reflexivity].
  - rewrite check_and_update_cycles_list.
    assert (Forall (int_in valid_cycles) (PInt <$> l) ↔ Forall (λ item, item ∈ valid_cycles) l)
      as Hiff.
    { rewrite Forall_fmap. apply Forall_iff. intros n. unfold int_in. simpl. tauto. }
    repeat case_decide; try tauto; reflexivity.
Qed.

Lemma validation_postcondition_witness :
  ∃ params',
    Validating.validate_and_update_params (λ _, Ok true) default_params = Ok params' ∧
    validated params' ∧
    ∀ key, key ∉ ["tightening_steps"; "tightening_cycles"; "tightening_values"] →
           Dict.get key params' = Dict.get key default_params.
Proof.
  destruct (Validating.validate_and_update_params (λ _, Ok true) default_params)
    as [params'|e] eqn:E; [|vm_compute in E; discriminate].
  exists params'. split; [reflexivity|].
  exact (validation_postcondition (λ _, Ok true) default_params params' E).
Defined.

Lemma validated_params_pass_witness :
  ∃ params',
    Validating.validate_and_update_params (λ _, Ok true) default_params = Ok params' ∧
    Validating.validate_and_update_params (λ _, Ok true) params' = Ok params'.
Proof.
  destruct (Validating.validate_and_update_params (λ _, Ok true) default_params)
    as [params'|e] eqn:E; [|vm_compute in E; discriminate].
  exists params'. split; [reflexivity|].
  exact (validated_params_pass (λ _, Ok true) default_params params' E).
Defined.

Lemma validate_and_update_params_exn_witness :
  ∃ e,
    Validating.validate_and_update_params (λ _, Ok true)
      (Dict.set "split_ratio" (PInt 1) default_params) = Raise e ∧
    (e = ParameterValidationError ∨
     (λ _ : pyobj, Ok true)
       (Validating.get "source_path" (Dict.set "split_ratio" (PInt 1) default_params))
     = Raise e).
Proof.
  exists ParameterValidationError.
  assert (Validating.validate_and_update_params (λ _, Ok true)
            (Dict.set "split_ratio" (PInt 1) default_params)
          = Raise ParameterValidationError) as E by (vm_compute; reflexivity).
  split; [exact E|].
  exact (validate_and_update_params_exn (λ _, Ok true) _ _ E).
Defined.

(** ** Screw runs and load_from_json *)

Lemma screw_run_cycle_spec count : screw_run_cycle count = spec_cycle count.
Proof.
  unfold screw_run_cycle, spec_cycle.
  replace (count + 1) with ((count - 1) + 1 * 2) by lia.
  rewrite Z.div_add by lia. reflexivity.
Qed.

(** X29. [get_run_values] of a run: for one of the six value types, the
    concatenation of what the kept steps hold under it, a step without the
    key giving nothing; for any other name, [ValueError] when the run has a
    kept step and the empty list when it has none, as the name is only
    checked step by step. *)
Theorem get_run_values_spec (self : ScrewRun.t) value :
  (value ∈ ScrewStep.valid_types →
   ScrewRun.get_run_values self value
   = Ok (concat ((λ step, default [] (Dict.get value (ScrewStep.values step)))
                   <$> ScrewRun.screw_steps self))) ∧
  (value ∉ ScrewStep.valid_types →
   ScrewRun.get_run_values self value
   = if decide (ScrewRun.screw_steps self = []) then Ok [] else Raise ValueError).
Proof.
  split; intros Hv; unfold ScrewRun.get_run_values.
  - assert (mapM (λ step, ScrewStep.get_values step value) (ScrewRun.screw_steps self)
            = Ok ((λ step, default [] (Dict.get value (ScrewStep.values step)))
                    <$> ScrewRun.screw_steps self)) as ->; [|reflexivity].
    induction (ScrewRun.screw_steps self) as [|step l IH]; [reflexivity|].
    cbn [mapM]. rewrite IH. unfold ScrewStep.get_values.
    destruct (decide (value ∉ ScrewStep.valid_types)) as [Hd|Hd];
      [destruct (Hd Hv) | reflexivity].
  - destruct (ScrewRun.screw_steps self) as [|step l]; [reflexivity|].
    case_decide; [discriminate|].
    assert (ScrewStep.get_values step value = Raise ValueError) as Hstep.
    { unfold ScrewStep.get_values.
      destruct (decide (value ∉ ScrewStep.valid_types)) as [Hd|Hd];
        [reflexivity | destruct (Hd Hv)]. }
    cbn [mapM]. rewrite Hstep. reflexivity.
Qed.

Lemma foldM_append_columns {E} (g : string → result E) (vs : list string) (k : nat)
    (t t' : list (list E)) :
  foldM (λ t iv, new ← g iv.2; Py.append_at t (Z.of_nat iv.1) new)
    t (imap (λ i v, ((k + i)%nat, v)) vs) = Ok t' →
  length t' = length t ∧
  ∀ j col, t !! j = Some col →
    if decide (k ≤ j < k + length vs)%nat
    then ∃ v e, vs !! (j - k)%nat = Some v ∧ g v = Ok e ∧ t' !! j = Some (col ++ [e])
    else t' !! j = Some col.
Proof.
  revert k t. induction vs as [|v vs IH]; intros k t H.
  - injection H as <-. split; [reflexivity|]. intros j col Hj.
    cbn [length]. case_decide; [lia | exact Hj].
  - cbn [imap foldM] in H. apply bind_Ok in H as (t1 & H1 & H).
    cbv beta in H1. cbn [fst snd] in H1.
    apply bind_Ok in H1 as (e0 & He0 & H1).
    apply append_at_Ok in H1 as (j0 & col0 & Hj0 & -> & Hji).
    case_decide; [lia|]. assert (j0 = k) as -> by lia.
    rewrite (imap_ext _ (λ i value, ((S k + i)%nat, value))) in H
      by (intros i x _; simpl; f_equal; lia).
    apply IH in H as [Hlen Hcol]. rewrite length_insert in Hlen.
    split; [exact Hlen|]. intros j col Hj. cbn [length].
    destruct (decide (j = k)) as [->|Hne].
    + pose proof (Hcol k (col0 ++ [e0])) as Hk.
      rewrite list_lookup_insert_eq in Hk by (eapply lookup_lt_Some, Hj0).
      specialize (Hk eq_refl). rewrite decide_False in Hk by lia.
      rewrite decide_True by lia. exists v, e0. rewrite Nat.sub_diag.
      split; [reflexivity|]. split; [exact He0|]. congruence.
    + pose proof (Hcol j col) as Hk.
      rewrite list_lookup_insert_ne in Hk by congruence. specialize (Hk Hj).
      destruct (decide (S k ≤ j < S k + length vs)%nat) as [Hin|Hout].
      * rewrite decide_True by lia. destruct Hk as (v' & e & Hv' & He & Ht).
        exists v', e. split; [|auto].
        replace (j - k)%nat with (S (j - S k)) by lia. exact Hv'.
      * rewrite decide_False by lia. exact Hk.
Qed.

Lemma running_counts_app seen l1 l2 :
  running_counts seen (l1 ++ l2)
  = running_counts seen l1 ++ running_counts (seen ++ l1) l2.
Proof.
  revert seen. induction l1 as [|r l1 IH]; intros seen; simpl.
  - rewrite app_nil_r. reflexivity.
  - rewrite IH, <- !app_assoc. reflexivity.
Qed.

Lemma dmc_count_snoc dmc seen listed :
  dmc_count dmc (seen ++ [listed])
  = dmc_count dmc seen + (if decide (dmc_of listed = dmc) then 1 else 0).
Proof.
  unfold dmc_count, Py.len. rewrite filter_app, length_app, filter_cons, filter_nil.
  case_decide; simpl; lia.
Qed.

Lemma listed_cycles_idem cycles : listed_cycles (listed_cycles cycles) = listed_cycles cycles.
Proof. destruct cycles; reflexivity. Qed.

Lemma load_run_Ok values steps st file_name file st' :
  load_run values steps st file_name file = Ok st' →
  ∃ dmc, json_id_code file = Some dmc ∧
    let count := default 0 (dict_of_all_dmc_counts st !! dmc) + 1 in
    dict_of_all_dmc_counts st' = <[dmc := count]> (dict_of_all_dmc_counts st) ∧
    current_cycles st' = listed_cycles (current_cycles st) ∧
    (current_cycles st' = PNone ∨
     contains_int (current_cycles st') (screw_run_cycle count) = Ok true) ∧
    length (tuple_of_result_values st') = length (tuple_of_result_values st) ∧
    ∀ j col, tuple_of_result_values st !! j = Some col →
      match values !! j with
      | Some v => ∃ e, tuple_of_result_values st' !! j = Some (col ++ [e]) ∧
                       (v = "cycle number" → e = CycleNumber count)
      | None => tuple_of_result_values st' !! j = Some col
      end.
Proof.
  unfold load_run. intros H.
  apply bind_Ok in H as (run & Hrun & H). cbv zeta in H.
  assert (json_id_code file = Some (ScrewRun.get_dmc run)) as Hdmc.
  { unfold ScrewRun.init in Hrun.
    apply bind_Ok in Hrun as (r & _ & Hrun).
    apply bind_Ok in Hrun as (d & _ & Hrun).
    apply bind_Ok in Hrun as (c & Hc & Hrun).
    apply bind_Ok in Hrun as (ts & _ & Hrun).
    apply bind_Ok in Hrun as (kept & _ & Hrun).
    injection Hrun as <-. unfold ScrewRun.get_dmc. cbn [ScrewRun.code].
    destruct (json_id_code file); [injection Hc as ->; reflexivity | discriminate]. }
  exists (ScrewRun.get_dmc run). split; [exact Hdmc|]. cbv zeta.
  set (dmc := ScrewRun.get_dmc run) in *.
  assert (match dict_of_all_dmc_counts st !! dmc with Some c => c + 1 | None => 1 end
          = default 0 (dict_of_all_dmc_counts st !! dmc) + 1) as Hcount
    by (destruct (dict_of_all_dmc_counts st !! dmc); reflexivity).
  rewrite Hcount in H. set (count := default 0 (dict_of_all_dmc_counts st !! dmc) + 1) in *.
  fold (listed_cycles (current_cycles st)) in H.
  apply bind_Ok in H as (selected & Hsel & H).
  apply bind_Ok in H as (runs & Hruns & H).
  apply bind_Ok in H as (tuple & Htuple & H).
  injection H as <-. cbn [dict_of_all_dmc_counts current_cycles tuple_of_result_values].
  split; [reflexivity|]. split; [reflexivity|].
  destruct selected; [|discriminate].
  split.
  { destruct (listed_cycles (current_cycles st)); auto. }
  rewrite (imap_ext _ (λ i value, ((0 + i)%nat, value))) in Htuple by reflexivity.
  destruct (foldM_append_columns
           (λ v, if decide (v = "cycle number") then Ok (CycleNumber count)
                 else if decide (v = "results") then Ok (ResultLabel (ScrewRun.get_result run))
                 else RunValues <$> ScrewRun.get_run_values run v)
           values 0 (tuple_of_result_values st) tuple Htuple) as [Hlen Hcol].
  split; [exact Hlen|]. intros j col Hj. specialize (Hcol j col Hj).
  rewrite Nat.sub_0_r, Nat.add_0_l in Hcol.
  destruct (values !! j) as [v|] eqn:Hv.
  - rewrite decide_True in Hcol by (split; [lia | eapply lookup_lt_Some, Hv]).
    destruct Hcol as (v' & e & [= <-] & He & Ht). exists e. split; [exact Ht|].
    intros ->. rewrite decide_True in He by reflexivity. congruence.
  - rewrite decide_False in Hcol by (apply lookup_ge_None in Hv; lia). exact Hcol.
Qed.

Lemma load_loop_json_invariant values steps cycles seen rest st st' :
  json_loop_invariant values cycles seen st →
  load_loop values steps st rest = Returned st' →
  json_loop_invariant values cycles (seen ++ rest) st' ∧
  Forall (λ listed, endswith listed.1 ".json" = true ∧ is_Some listed.2) rest.
Proof.
  revert seen st. induction rest as [|[file_name content] rest IH]; intros seen st Hinv H.
  - injection H as <-. rewrite app_nil_r. split; [exact Hinv | constructor].
  - cbn [load_loop] in H.
    destruct (endswith file_name ".json") eqn:Hname; [|discriminate]. cbn [negb] in H.
    destruct content as [file|]; [|discriminate].
    destruct (load_run values steps st file_name file) as [st1|e] eqn:Hrun; [|discriminate].
    replace (seen ++ (file_name, Some file) :: rest)
      with ((seen ++ [(file_name, Some file)]) ++ rest) by (rewrite <- app_assoc; reflexivity).
    apply (IH (seen ++ [(file_name, Some file)])) in H.
    + destruct H as [H1 H2]. split; [exact H1|]. constructor; [|exact H2].
      simpl. split; [exact Hname | eauto].
    + clear IH H. destruct Hinv as (Hlen & Hcounts & Hcyc & Hcols & Hnum & Hacc).
      apply load_run_Ok in Hrun as (dmc & Hdmc & Hc' & Hcy' & Hsel & Hlen' & Hcol').
      cbv zeta in *.
      assert (dmc_of (file_name, Some file) = Some dmc) as Hof by (unfold dmc_of; simpl; exact Hdmc).
      assert (default 0 (dict_of_all_dmc_counts st !! dmc) + 1
              = dmc_count (Some dmc) (seen ++ [(file_name, Some file)])) as Hk.
      { rewrite dmc_count_snoc, Hcounts, decide_True by exact Hof. reflexivity. }
      rewrite Hk in *.
      assert (running_counts [] (seen ++ [(file_name, Some file)])
              = running_counts [] seen
                ++ [dmc_count (Some dmc) (seen ++ [(file_name, Some file)])]) as Hrc.
      { rewrite running_counts_app. cbn [running_counts]. rewrite Hof. reflexivity. }
      split; [congruence|]. split; [|split; [|split; [|split]]].
      * intros dmc'. rewrite Hc'. destruct (decide (dmc = dmc')) as [<-|Hne].
        -- rewrite lookup_insert_eq. reflexivity.
        -- rewrite lookup_insert_ne by exact Hne.
           rewrite dmc_count_snoc, Hcounts, decide_False; [lia|]. congruence.
      * rewrite Hcy', listed_cycles_idem. exact Hcyc.
      * apply Forall_lookup. intros j col' Hj.
        assert (is_Some (tuple_of_result_values st !! j)) as [col Hcol].
        { apply lookup_lt_is_Some. rewrite <- Hlen'. eapply lookup_lt_Some, Hj. }
        pose proof (Forall_lookup_1 _ _ _ _ Hcols Hcol) as Hl. simpl in Hl.
        specialize (Hcol' j col Hcol). rewrite length_app. cbn [length].
        destruct (values !! j) as [v|] eqn:Hv.
        -- destruct Hcol' as (e & He & _). rewrite He in Hj. injection Hj as <-.
           rewrite length_app. cbn [length]. lia.
        -- apply lookup_ge_None in Hv. apply lookup_lt_Some in Hcol. lia.
      * intros j Hj. specialize (Hnum j Hj). specialize (Hcol' j _ Hnum).
        rewrite Hj in Hcol'. destruct Hcol' as (e & He & Hcn).
        rewrite He, (Hcn eq_refl), Hrc, fmap_app. reflexivity.
      * rewrite Hrc. apply Forall_app. split; [exact Hacc|].
        apply Forall_singleton. rewrite Hcy', Hcyc in Hsel. exact Hsel.
Qed.

Lemma contains_int_list cs count :
  contains_int (PList (PInt <$> cs)) count = Ok true ↔ count ∈ cs.
Proof.
  cbn [contains_int]. split.
  - intros [= H]. apply existsb_exists in H as (x & Hx & He).
    apply list_elem_of_In, list_elem_of_fmap in Hx as (n & -> & Hn).
    simpl in He. apply bool_decide_eq_true in He. subst. exact Hn.
  - intros H. f_equal. apply existsb_exists. exists (PInt count).
    split; [apply list_elem_of_In, list_elem_of_fmap; eauto|].
    simpl. apply bool_decide_eq_true. reflexivity.
Qed.

(** X30. What a call of load_from_json that returns has done. The source is
    a directory whose entries all end in [".json"] and hold JSON; there is
    one list per requested value and every list has one entry per file,
    nothing being filtered out; under ["cycle number"] stands, for each
    file, the number of files so far that bear its data matrix code, which
    is not the cycle; and the cycle of every file, half that number rounded
    up, is among the cycles asked for, since the first file with another
    cycle raises [ValueError] for the whole call. *)
Theorem load_from_json_returned isdir listing values cycles steps tuple :
  load_from_json isdir listing values cycles steps = Returned tuple →
  isdir = true ∧
  Forall (λ listed, endswith listed.1 ".json" = true ∧ is_Some listed.2) listing ∧
  length tuple = length values ∧
  Forall (λ col, length col = length listing) tuple ∧
  (∀ j, values !! j = Some "cycle number" →
        tuple !! j = Some (CycleNumber <$> running_counts [] listing)) ∧
  (∀ cs, cycles = PList (PInt <$> cs) →
         Forall (λ count, spec_cycle count ∈ cs) (running_counts [] listing)) ∧
  (∀ c, cycles = PInt c →
        Forall (λ count, spec_cycle count = c) (running_counts [] listing)).
Proof.
  unfold load_from_json. intros H.
  destruct isdir; [|discriminate]. cbn [negb] in H.
  destruct (load_loop _ _ _ _) as [st|e] eqn:Hloop; [|discriminate].
  injection H as <-.
  apply (load_loop_json_invariant values steps cycles []) in Hloop
    as [(Hlen & _ & _ & Hcols & Hnum & Hacc) Hfiles].
  - cbn [app] in *. split; [reflexivity|]. split; [exact Hfiles|].
    split; [exact Hlen|]. split; [exact Hcols|]. split; [exact Hnum|]. split.
    + intros cs ->. eapply Forall_impl; [exact Hacc|]. cbv beta.
      intros count [Hn|Hin]; [discriminate|].
      cbn [listed_cycles Validating.isinstance_int] in Hin.
      apply contains_int_list in Hin. rewrite <- screw_run_cycle_spec. exact Hin.
    + intros c ->. eapply Forall_impl; [exact Hacc|]. cbv beta.
      intros count [Hn|Hin]; [discriminate|].
      cbn [listed_cycles Validating.isinstance_int contains_int existsb Validating.eq_int] in Hin.
      injection Hin as Hin. rewrite orb_false_r in Hin. apply bool_decide_eq_true in Hin.
      rewrite <- screw_run_cycle_spec. congruence.
  - unfold json_loop_invariant.
    cbn [tuple_of_result_values dict_of_all_dmc_counts current_cycles running_counts].
    split; [apply length_replicate|]. split; [intros dmc; reflexivity|].
    split; [reflexivity|]. split; [apply Forall_replicate; reflexivity|].
    split; [|constructor].
    intros j Hj. apply lookup_replicate_2. eapply lookup_lt_Some, Hj.
Qed.

Lemma load_from_json_returned_witness :
  load_from_json true two_runs ["cycle number"; "results"; "time values"]
    (PList (PInt <$> [1])) (PList (PInt <$> [1; 2; 3; 4]))
    = Returned [[CycleNumber 1; CycleNumber 2];
                [ResultLabel "OK"; ResultLabel "NOK"];
                [RunValues [0; 1]%Q; RunValues [0; 1]%Q]] ∧
  running_counts [] two_runs = [1; 2] ∧
  Forall (λ count, spec_cycle count ∈ [1]) (running_counts [] two_runs).
Proof.
  split; [vm_compute; reflexivity|]. split; [vm_compute; reflexivity|].
  refine (proj1 (proj2 (proj2 (proj2 (proj2 (proj2
    (load_from_json_returned true two_runs ["cycle number"; "results"; "time values"]
       (PList (PInt <$> [1])) (PList (PInt <$> [1; 2; 3; 4])) _ _)))))) [1] eq_refl).
  vm_compute. reflexivity.
Defined.
